(** * Wakeify: wake-and-play orchestrator, device matching, cpath
      normalisation and the addUser credential blob.

    A shallow embedding of the Python sources

      - [src/playback/alarm_playback/orchestrator.py]
      - [src/playback/alarm_playback/playback.py]
      - [src/app/device_registry.py]
      - [src/app/spotify_client.py]
      - [src/app/spotify_crypto.py]

    Conventions.

      - A Python [str] is a [string]; a character is a code point below 256
        (Latin-1), which is where [str.lower], [str.strip] and
        [str.isspace] are modelled exactly.
      - A [dict] used as a map is a [gmap]; a [set] of names is a [gset].
      - [time.time()] is a clock in whole milliseconds that never runs
        backwards; [time.sleep(s)] advances it by [s].
      - A Python exception is a value of [exn]; a call that can raise
        returns an [outcome]: [Returned a] or [Raised e]. *)

From Stdlib Require Import ZArith Lia List Ascii String Bool DecimalString.
From stdpp Require Import gmap strings list.

Open Scope string_scope.
Open Scope list_scope.

(** ** Python string operations on Latin-1 text *)

Module PyStr.

Definition code (c : ascii) : N := N_of_ascii c.

(** [str.isspace] on one code point below 256:
    TAB..CR, FS..US, SPACE, NEL and NBSP. *)
Definition isspace (c : ascii) : bool :=
  let n := code c in
  ((9 <=? n) && (n <=? 13) || (28 <=? n) && (n <=? 32)
   || (n =? 133) || (n =? 160))%N.

(** [str.lower] on one code point below 256: A..Z and the Latin-1 capitals
    0xC0..0xDE (the multiplication sign 0xD7 apart) move up by 32. *)
Definition lower_char (c : ascii) : ascii :=
  let n := code c in
  if ((65 <=? n) && (n <=? 90)
      || (192 <=? n) && (n <=? 222) && negb (n =? 215))%N
  then ascii_of_N (n + 32) else c.

Fixpoint lower (s : string) : string :=
  match s with
  | EmptyString => EmptyString
  | String c r => String (lower_char c) (lower r)
  end.

(** [s.lstrip(chars)], the stripped characters given as a predicate. *)
Fixpoint lstrip_by (p : ascii -> bool) (s : string) : string :=
  match s with
  | EmptyString => EmptyString
  | String c r => if p c then lstrip_by p r else s
  end.

(** [s.rstrip(chars)]. *)
Fixpoint rstrip_by (p : ascii -> bool) (s : string) : string :=
  match s with
  | EmptyString => EmptyString
  | String c r =>
      match rstrip_by p r with
      | EmptyString => if p c then EmptyString else String c EmptyString
      | r' => String c r'
      end
  end.

(** [s.strip()] *)
Definition strip (s : string) : string := rstrip_by isspace (lstrip_by isspace s).

(** [s.rstrip("/")] *)
Definition is_slash (c : ascii) : bool := Ascii.eqb c "/"%char.

(** truth value of a string: [bool(s)] *)
Definition truthy (s : string) : bool :=
  match s with EmptyString => false | String _ _ => true end.

(** [s.startswith(p)] *)
Definition startswith (s p : string) : bool := String.prefix p s.

(** [s.endswith(c)] for a single character, used in statements only. *)
Fixpoint endswith_char (s : string) (c : ascii) : bool :=
  match s with
  | EmptyString => false
  | String a EmptyString => Ascii.eqb a c
  | String _ r => endswith_char r c
  end.

(** [needle in hay] on strings *)
Fixpoint contains (needle hay : string) : bool :=
  String.prefix needle hay ||
  match hay with
  | EmptyString => false
  | String _ r => contains needle r
  end.

End PyStr.

(** ** The web interface's device lookup ([spotify_client.py]) *)

(** The dictionaries [AlarmSpotifyClient.get_devices] builds. *)
Record WebDevice := {
  wd_id : string;
  wd_name : string;
  wd_type : string;
  wd_is_active : bool;
  wd_is_private_session : bool;
  wd_is_restricted : bool;
  wd_volume_percent : Z
}.

(** [for x in l: if p(x): return x] *)
Fixpoint first_where {A} (p : A -> bool) (l : list A) : option A :=
  match l with
  | [] => None
  | x :: r => if p x then Some x else first_where p r
  end.

(** [AlarmSpotifyClient.get_device_by_name], on the list [get_devices()]
    returned. *)
Definition get_device_by_name (devices : list WebDevice) (device_name : string)
  : option WebDevice :=
  match first_where (fun device => String.eqb (wd_name device) device_name) devices with
  | Some device => Some device
  | None =>
    match first_where (fun device =>
            String.eqb (PyStr.lower (wd_name device)) (PyStr.lower device_name)) devices with
    | Some device => Some device
    | None =>
        first_where (fun device =>
            PyStr.contains (PyStr.lower device_name) (PyStr.lower (wd_name device))) devices
    end
  end.

(** [d] is the first element of [l], in order, that satisfies [P]. *)
Definition first_such {A} (P : A -> Prop) (l : list A) (d : A) : Prop :=
  exists l1 l2, l = l1 ++ d :: l2 /\ P d /\ Forall (fun x => ~ P x) l1.

(** [a] occurs inside [b]. *)
Definition is_substring (a b : string) : Prop :=
  exists p q, b = (p +:+ a +:+ q).

(** A device of the web interface, for the examples. *)
Definition kitchen_speaker : WebDevice :=
  {| wd_id := "D1"; wd_name := "Kitchen Speaker"; wd_type := "Speaker";
     wd_is_active := false; wd_is_private_session := false;
     wd_is_restricted := false; wd_volume_percent := 30 |}.

(** ** Data model of the playback module *)

(** Modelled from the spec: [alarm_playback/models.py] is not among the
    sources; [CloudDevice] carries the fields §3 lists and the test
    [test_cloud_device_from_spotify_dict] reads. *)
Record CloudDevice := {
  cd_id : string;
  cd_name : string;
  cd_is_active : bool;
  cd_volume_percent : option Z;
  cd_device_type : string;
  cd_is_private_session : bool;
  cd_is_restricted : bool
}.

(** Modelled from the spec: [alarm_playback/config.py] is not among the
    sources; [DeviceProfile] carries the fields §3 lists. A field that may be
    unset is an [option]; the code tests such fields for truth. *)
Record DeviceProfile := {
  dp_name : string;
  dp_instance_name : option string;
  dp_spotify_device_names : list string;
  dp_ip : option string;
  dp_port : option Z;
  dp_cpath : option string;
  dp_volume_preset : Z;
  dp_max_wake_wait_s : Z
}.

(** [bool(x)] for an optional string: [None] and [""] are false. *)
Definition truthy_opt (o : option string) : bool :=
  match o with Some s => PyStr.truthy s | None => false end.

(** [x or default] *)
Definition or_default (o : option string) (d : string) : string :=
  match o with
  | Some s => if PyStr.truthy s then s else d
  | None => d
  end.

(** Modelled from the spec: [DeviceProfile.get_all_matching_names] is not
    among the sources; §3: it returns [{name, instance_name} ∪
    spotify_device_names] with empty entries removed. *)
Definition get_all_matching_names (p : DeviceProfile) : list string :=
  List.filter PyStr.truthy
    (dp_name p :: or_default (dp_instance_name p) "" :: dp_spotify_device_names p).

(** ** Device matching ([orchestrator.py], [_pick_device]) *)

(** [name.lower().strip()] *)
Definition normalize (name : string) : string := PyStr.strip (PyStr.lower name).

(** [AlarmPlaybackEngine._get_target_profile]; [None] is the [ValueError]. *)
Definition _get_target_profile (registry : gmap string DeviceProfile)
    (target_name : string) : option DeviceProfile :=
  registry !! target_name.

(** The loop of [_pick_device] over the cloud's list. *)
Fixpoint pick_loop (matching_names_set : gset string) (devices : list CloudDevice)
  : option CloudDevice :=
  match devices with
  | [] => None
  | device :: rest =>
      if negb (PyStr.truthy (cd_name device)) then pick_loop matching_names_set rest
      else if bool_decide (normalize (cd_name device) ∈ matching_names_set)
           then Some device
           else pick_loop matching_names_set rest
  end.

(** [AlarmPlaybackEngine._pick_device] *)
Definition _pick_device (registry : gmap string DeviceProfile)
    (devices : list CloudDevice) (target_name : string) : option CloudDevice :=
  match devices with
  | [] => None
  | _ :: _ =>
    if negb (PyStr.truthy target_name) then None else
    let matching_names :=
      match _get_target_profile registry target_name with
      | Some target_profile => get_all_matching_names target_profile
      | None => [target_name]
      end in
    let matching_names_set : gset string :=
      list_to_set (normalize <$> List.filter PyStr.truthy matching_names) in
    pick_loop matching_names_set devices
  end.

(** The names a target answers to, as §4.7 words it: the profile's
    [get_all_matching_names()], or the target name alone when there is no
    profile, each trimmed and lowercased. *)
Definition normalized_names (registry : gmap string DeviceProfile)
    (target_name : string) : gset string :=
  list_to_set (normalize <$>
    match registry !! target_name with
    | Some p => get_all_matching_names p
    | None => [target_name]
    end).

(** Cloud devices for the examples. *)
Definition cloud_device (id name : string) : CloudDevice :=
  {| cd_id := id; cd_name := name; cd_is_active := false;
     cd_volume_percent := None; cd_device_type := "Speaker";
     cd_is_private_session := false; cd_is_restricted := false |}.

(** ** cpath normalisation ([device_registry.py]) *)

Definition default_cpath : string := "/spotifyconnect/zeroconf".

(** The cpath [_get_friendly_name_from_device_info] builds its getInfo URL
    from, given [discovery_result.cpath] ([None] when unset). *)
Definition getinfo_cpath (discovery_cpath : option string) : string :=
  let cpath := or_default discovery_cpath default_cpath in
  let cpath :=
    if String.eqb cpath "/" || negb (PyStr.truthy cpath)
       || String.eqb (PyStr.strip cpath) ""
    then default_cpath else cpath in
  let cpath :=
    if negb (PyStr.startswith cpath "/") then "/" +:+ cpath else cpath in
  PyStr.rstrip_by PyStr.is_slash cpath.

(** ** Exceptions *)

(** An exception: its class and [str(e)]. *)
Record exn := { exn_type : string; exn_msg : string }.

Inductive outcome (A : Type) : Type :=
| Returned (a : A)
| Raised (e : exn).
Arguments Returned {A} a.
Arguments Raised {A} e.

Definition obind {A B} (m : outcome A) (k : A -> outcome B) : outcome B :=
  match m with
  | Returned a => k a
  | Raised e => Raised e
  end.

Notation "x <-! m ;; k" := (obind m (fun x => k))
  (at level 100, m at next level, right associativity).

(** ** Bytes, UTF-8 and base64 *)

(** A byte is an [ascii]: eight bits, least significant first. *)
Abbreviation bytes := (list ascii).

(** [s.encode('utf-8')] for text below U+0100: one byte below U+0080, two
    bytes from there on. *)
Fixpoint utf8 (s : string) : bytes :=
  match s with
  | EmptyString => []
  | String c r =>
      let n := N_of_ascii c in
      if (n <? 128)%N then c :: utf8 r
      else ascii_of_N (192 + n / 64) :: ascii_of_N (128 + n mod 64) :: utf8 r
  end.

(** Six bits, most significant first. *)
Inductive sextet := Sextet (b5 b4 b3 b2 b1 b0 : bool).

Definition sextet_val (s : sextet) : N :=
  let 'Sextet b5 b4 b3 b2 b1 b0 := s in
  (N.b2n b5 * 32 + N.b2n b4 * 16 + N.b2n b3 * 8 + N.b2n b2 * 4
   + N.b2n b1 * 2 + N.b2n b0)%N.

Definition sextet_of_N (n : N) : sextet :=
  Sextet (N.testbit n 5) (N.testbit n 4) (N.testbit n 3)
         (N.testbit n 2) (N.testbit n 1) (N.testbit n 0).

(** The standard alphabet: A-Z, a-z, 0-9, + and /. *)
Definition b64_char (s : sextet) : ascii :=
  let n := sextet_val s in
  if (n <? 26)%N then ascii_of_N (65 + n)
  else if (n <? 52)%N then ascii_of_N (71 + n)
  else if (n <? 62)%N then ascii_of_N (n - 4)
  else if (n =? 62)%N then "+"%char else "/"%char.

Definition b64_index (c : ascii) : option sextet :=
  let n := N_of_ascii c in
  if ((65 <=? n) && (n <=? 90))%N then Some (sextet_of_N (n - 65))
  else if ((97 <=? n) && (n <=? 122))%N then Some (sextet_of_N (n - 71))
  else if ((48 <=? n) && (n <=? 57))%N then Some (sextet_of_N (n + 4))
  else if (n =? 43)%N then Some (sextet_of_N 62)
  else if (n =? 47)%N then Some (sextet_of_N 63)
  else None.

Definition pad : ascii := "="%char.

(** [base64.b64encode] *)
Fixpoint b64encode (l : bytes) : bytes :=
  match l with
  | [] => []
  | [Ascii a0 a1 a2 a3 a4 a5 a6 a7] =>
      [b64_char (Sextet a7 a6 a5 a4 a3 a2);
       b64_char (Sextet a1 a0 false false false false); pad; pad]
  | [Ascii a0 a1 a2 a3 a4 a5 a6 a7; Ascii b0 b1 b2 b3 b4 b5 b6 b7] =>
      [b64_char (Sextet a7 a6 a5 a4 a3 a2);
       b64_char (Sextet a1 a0 b7 b6 b5 b4);
       b64_char (Sextet b3 b2 b1 b0 false false); pad]
  | Ascii a0 a1 a2 a3 a4 a5 a6 a7 :: Ascii b0 b1 b2 b3 b4 b5 b6 b7
      :: Ascii c0 c1 c2 c3 c4 c5 c6 c7 :: r =>
      b64_char (Sextet a7 a6 a5 a4 a3 a2)
      :: b64_char (Sextet a1 a0 b7 b6 b5 b4)
      :: b64_char (Sextet b3 b2 b1 b0 c7 c6)
      :: b64_char (Sextet c5 c4 c3 c2 c1 c0)
      :: b64encode r
  end.

(** [base64.b64decode] on padded text of the standard alphabet; [None] on
    anything else. *)
Fixpoint b64decode (l : bytes) : option bytes :=
  match l with
  | [] => Some []
  | c1 :: c2 :: c3 :: c4 :: r =>
      match b64_index c1, b64_index c2 with
      | Some (Sextet a7 a6 a5 a4 a3 a2), Some (Sextet a1 a0 b7 b6 b5 b4) =>
          let A := Ascii a0 a1 a2 a3 a4 a5 a6 a7 in
          if Ascii.eqb c4 pad then
            match r with
            | [] =>
                if Ascii.eqb c3 pad then Some [A]
                else match b64_index c3 with
                     | Some (Sextet b3 b2 b1 b0 _ _) =>
                         Some [A; Ascii b0 b1 b2 b3 b4 b5 b6 b7]
                     | None => None
                     end
            | _ :: _ => None
            end
          else
            match b64_index c3, b64_index c4, b64decode r with
            | Some (Sextet b3 b2 b1 b0 c7 c6), Some (Sextet c5 c4' c3' c2' c1' c0),
              Some rest =>
                Some (A :: Ascii b0 b1 b2 b3 b4 b5 b6 b7
                        :: Ascii c0 c1' c2' c3' c4' c5 c6 c7 :: rest)
            | _, _, _ => None
            end
      | _, _ => None
      end
  | _ => None
  end.

(** ** Credential blob ([spotify_crypto.py]) *)

Definition xor_byte (a k : ascii) : ascii :=
  let 'Ascii a0 a1 a2 a3 a4 a5 a6 a7 := a in
  let 'Ascii k0 k1 k2 k3 k4 k5 k6 k7 := k in
  Ascii (xorb a0 k0) (xorb a1 k1) (xorb a2 k2) (xorb a3 k3)
        (xorb a4 k4) (xorb a5 k5) (xorb a6 k6) (xorb a7 k7).

(** [int.from_bytes(l, 'big')] *)
Definition be_to_N (l : bytes) : N :=
  fold_left (fun acc b => (acc * 256 + N_of_ascii b)%N) l 0%N.

(** [x.to_bytes(n, 'big')], the value reduced to [n] bytes. *)
Fixpoint N_to_be (n : nat) (x : N) : bytes :=
  match n with
  | O => []
  | S k => N_to_be k (x / 256)%N ++ [ascii_of_N (x mod 256)%N]
  end.

(** [token.get('access_token')] on a token dictionary with text values,
    then the choice [generate_spotify_blob_simple] makes. *)
Definition generate_spotify_blob_simple (username password : string)
    (token : gmap string string) : string :=
  match token !! "access_token" with
  | Some access_token =>
      if PyStr.truthy access_token then access_token
      else username +:+ ":" +:+ password
  | None => username +:+ ":" +:+ password
  end.

Section Crypto.

(** The primitives of the [cryptography] and [hmac] packages. *)

(** [hmac.new(key, msg, hashlib.sha1).digest()] *)
Variable hmac_sha1 : bytes -> bytes -> bytes.
(** One block of AES under a key: 16 bytes in, 16 bytes out. *)
Variable aes_encrypt_block : bytes -> bytes -> bytes.
(** [private_key.exchange(device_public_key)] for the group of
    [SPOTIFY_DH_PRIME] and generator 2; the library raises on a public value
    it rejects. *)
Variable dh_exchange : bytes -> bytes -> outcome bytes.

(** [SpotifyCrypto.compute_shared_secret]: errors are logged and raised
    again. *)
Definition compute_shared_secret (private_key_bytes device_public_bytes : bytes)
  : outcome bytes :=
  dh_exchange private_key_bytes device_public_bytes.

(** [SpotifyCrypto.derive_encryption_keys] *)
Definition derive_encryption_keys (shared_secret : bytes) (username : string)
  : bytes * bytes :=
  let hmac_key := hmac_sha1 shared_secret (utf8 username) in
  let encryption_key := firstn 16 hmac_key in
  let hmac_key_final :=
    if (32 <=? length hmac_key)%nat then firstn 16 (skipn 16 hmac_key)
    else skipn 16 hmac_key ++ repeat zero (32 - length hmac_key) in
  (encryption_key, hmac_key_final).

(** The counter block of CTR mode: the nonce read as a 128-bit big-endian
    number, plus the block index, modulo 2^128. *)
Definition counter_block (iv : bytes) (i : nat) : bytes :=
  N_to_be 16 ((be_to_N iv + N.of_nat i) mod 2 ^ 128)%N.

Definition keystream_byte (key iv : bytes) (j : nat) : ascii :=
  nth (j mod 16) (aes_encrypt_block key (counter_block iv (j / 16))) zero.

(** CTR mode from byte offset [j] on: each byte is xored with the key
    stream. *)
Fixpoint ctr_from (key iv : bytes) (j : nat) (data : bytes) : bytes :=
  match data with
  | [] => []
  | b :: r => xor_byte b (keystream_byte key iv j) :: ctr_from key iv (S j) r
  end.

(** [Cipher(algorithms.AES(key), modes.CTR(iv))]: the key must have 128,
    192 or 256 bits and the nonce one block, else [ValueError]. *)
Definition cipher_ok (key iv : bytes) : bool :=
  ((length key =? 16) || (length key =? 24) || (length key =? 32))%nat
  && (length iv =? 16)%nat.

(** [encryptor.update(data) + encryptor.finalize()] *)
Definition aes_ctr_encrypt (key iv data : bytes) : bytes := ctr_from key iv 0 data.

(** [decryptor.update(data) + decryptor.finalize()]: CTR mode applies the
    same key stream. *)
Definition aes_ctr_decrypt (key iv data : bytes) : bytes := ctr_from key iv 0 data.

(** [SpotifyCrypto.encrypt_credentials]; [iv] is the draw of
    [os.urandom(16)]. *)
Definition encrypt_credentials (username password : string)
    (encryption_key iv : bytes) : outcome (bytes * bytes) :=
  let credentials := utf8 (username +:+ ":" +:+ password) in
  if cipher_ok encryption_key iv
  then Returned (aes_ctr_encrypt encryption_key iv credentials, iv)
  else Raised {| exn_type := "ValueError"; exn_msg := "Invalid key size" |}.

(** [SpotifyCrypto.generate_encrypted_blob]. The random draws are
    arguments: [keypair] is what [generate_dh_keypair] produced,
    [device_public_key] the draw of [os.urandom(128)], [iv] that of
    [os.urandom(16)]. *)
Definition generate_encrypted_blob (username password : string)
    (token : gmap string string)
    (keypair : outcome (bytes * bytes)) (device_public_key iv : bytes)
  : outcome (string * string) :=
  kp <-! keypair ;;
  let '(private_key, public_key) := kp in
  shared_secret <-! compute_shared_secret private_key device_public_key ;;
  let '(encryption_key, hmac_key) := derive_encryption_keys shared_secret username in
  enc <-! encrypt_credentials username password encryption_key iv ;;
  let '(encrypted_data, iv) := enc in
  let blob := iv ++ encrypted_data in
  let blob_base64 := string_of_list_ascii (b64encode blob) in
  let client_key_base64 := string_of_list_ascii (b64encode public_key) in
  Returned (blob_base64, client_key_base64).

(** [generate_spotify_blob]: the encrypted blob, or on any error the simple
    blob with an empty client key. *)
Definition generate_spotify_blob (username password : string)
    (token : gmap string string) (device_name : string)
    (keypair : outcome (bytes * bytes)) (device_public_key iv : bytes)
  : string * string :=
  match generate_encrypted_blob username password token keypair device_public_key iv with
  | Returned r => r
  | Raised _ =>
      let simple_blob := generate_spotify_blob_simple username password token in
      (simple_blob, "")
  end.

End Crypto.

(** Stand-ins for the primitives, to run the definitions on examples. *)
Definition toy_hmac (key msg : bytes) : bytes := firstn 20 (key ++ msg ++ repeat zero 20).
Definition toy_block (key block : bytes) : bytes := map (fun b => xor_byte b "K"%char) block.
Definition toy_exchange (priv pub : bytes) : outcome bytes :=
  match pub with
  | [] => Raised {| exn_type := "ValueError"; exn_msg := "invalid public key" |}
  | _ => Returned (priv ++ pub)
  end.

(** ** The orchestrator's run-scoped data *)

Open Scope Z_scope.

(** Modelled from the spec: [State] of [alarm_playback/models.py] (§3). *)
Inductive State :=
| UNKNOWN | DISCOVERED | LOCAL_AWAKE | LOGGED_IN | CLOUD_VISIBLE
| STAGED | PLAYING | DEEP_SLEEP_SUSPECTED.

(** Modelled from the spec: [PhaseMetrics] of [alarm_playback/models.py]
    (§3): six values in milliseconds, the branch, and the error list of
    (message, phase). A value not yet recorded is [None]. *)
Record PhaseMetrics := {
  discovered_ms : option Z;
  getinfo_ms : option Z;
  adduser_ms : option Z;
  cloud_visible_ms : option Z;
  play_ms : option Z;
  total_duration_ms : option Z;
  branch : option string;
  errors : list (string * string)
}.

Definition new_metrics : PhaseMetrics :=
  {| discovered_ms := None; getinfo_ms := None; adduser_ms := None;
     cloud_visible_ms := None; play_ms := None; total_duration_ms := None;
     branch := None; errors := [] |}.

(** Modelled from the spec: [CircuitBreakerState] of
    [alarm_playback/models.py] (§3): it opens when [failure_count] reaches
    the threshold, [record_failure] increments and evaluates the threshold,
    [record_success] resets, and [should_bypass_primary] holds iff it is
    open and the cooldown has not elapsed. *)
Record CircuitBreakerState := {
  cb_device_name : string;
  failure_count : Z;
  last_failure_time : option Z;
  is_open : bool
}.

(** Modelled from the spec: the threshold (default 3) and the cooldown of
    the breaker, in milliseconds. *)
Record BreakerParams := {
  failure_threshold : Z;
  cooldown_ms : Z
}.

(** Modelled from the spec: [CircuitBreakerState(name)], closed and without
    failures. *)
Definition new_breaker (name : string) : CircuitBreakerState :=
  {| cb_device_name := name; failure_count := 0;
     last_failure_time := None; is_open := false |}.

(** Modelled from the spec: [record_failure()] increments and evaluates
    the threshold. *)
Definition cb_record_failure (bp : BreakerParams) (now : Z)
    (cb : CircuitBreakerState) : CircuitBreakerState :=
  {| cb_device_name := cb_device_name cb;
     failure_count := failure_count cb + 1;
     last_failure_time := Some now;
     is_open := failure_threshold bp <=? failure_count cb + 1 |}.

(** Modelled from the spec: [record_success()] resets. *)
Definition cb_record_success (cb : CircuitBreakerState) : CircuitBreakerState :=
  {| cb_device_name := cb_device_name cb; failure_count := 0;
     last_failure_time := None; is_open := false |}.

(** Modelled from the spec: [should_bypass_primary()] is true iff open and
    the cooldown has not elapsed. *)
Definition cb_should_bypass_primary (bp : BreakerParams) (now : Z)
    (cb : CircuitBreakerState) : bool :=
  is_open cb &&
  match last_failure_time cb with
  | Some t => now - t <? cooldown_ms bp
  | None => false
  end.

(** Modelled from the spec: [DiscoveryResult] of
    [alarm_playback/discovery.py] (§3), with
    [is_complete := ip ≠ ∅ ∧ port > 0]. *)
Record DiscoveryResult := {
  dr_ip : option string;
  dr_port : option Z;
  dr_cpath : option string;
  dr_instance_name : option string;
  dr_txt_records : list (string * string)
}.

(** Modelled from the spec: [DiscoveryResult.is_complete]. *)
Definition is_complete (d : DiscoveryResult) : bool :=
  truthy_opt (dr_ip d) &&
  match dr_port d with Some p => 0 <? p | None => false end.

(** [port or 80] *)
Definition port_or (o : option Z) (d : Z) : Z :=
  match o with
  | Some p => if p =? 0 then d else p
  | None => d
  end.

(** The timing knobs of [AlarmPlaybackConfig.timings], in milliseconds. *)
Record Timings := {
  retry_404_delay_ms : Z;
  total_poll_deadline_ms : Z;
  poll_fast_period_ms : Z;
  debounce_after_seen_ms : Z;
  failover_fire_after_ms : Z
}.

(** What [play_alarm] reads of [AlarmPlaybackConfig]. *)
Record AlarmPlaybackConfig := {
  context_uri : string;
  shuffle : bool;
  timings : Timings;
  breaker : BreakerParams
}.

(** ** The outside world *)

(** What a collaborator hands back. *)
Inductive Value :=
| VNone
| VBool (b : bool)
| VStr (s : string)
| VDevices (l : list CloudDevice)
| VPlayback (device_id : option string) (is_playing : bool)
| VDiscovery (d : DiscoveryResult)
| VCreds (creds : list (string * string)).

(** The calls the orchestrator makes on its collaborators, with their
    arguments; [LogFallback] is [log_fallback_event]. *)
Inductive Call :=
| CallDevices
| CallTransfer (device_id : string) (play : bool)
| CallVolume (device_id : string) (percent : Z)
| CallPlay (device_id uri : string) (retry_404_delay : Z) (shuffle : bool)
| CallCurrentPlayback
| CallAccessToken
| CallCredentialProvider
| CallBlobCreds
| CallDiscover (name : string) (timeout : Z)
| CallGetInfo (ip : option string) (port : option Z) (cpath : option string)
              (timeout : Z)
| CallAddUser (ip : option string) (port : option Z) (cpath : option string)
              (mode : string) (creds : list (string * string)) (timeout : Z)
| CallWake (ip : string) (port : Z) (cpath name : string)
| CallAirplayFallback (target_ips : list string) (name uri : string)
| LogFallback (name from reason : string).

(** One answer of the outside world: how long the call took, and what it
    returned or raised. *)
Definition Response : Type := N * outcome Value.

(** [target] in [play_alarm]: the profile object of the registry (an alias,
    writes are seen through the registry) or the minimal profile built for
    a name that is not registered. *)
Inductive target_ref :=
| Registered (key : string)
| Minimal.

(** The engine ([self]), the run's local objects and the world. *)
Record St := {
  now : Z;
  script : list Response;
  calls : list Call;
  registry : gmap string DeviceProfile;
  circuit_breakers : gmap string CircuitBreakerState;
  metrics : PhaseMetrics;
  minimal_profile : DeviceProfile;
  state : State
}.

Definition M (A : Type) : Type := St -> outcome A * St.

Definition ret {A} (a : A) : M A := fun s => (Returned a, s).

Definition bind {A B} (m : M A) (k : A -> M B) : M B :=
  fun s =>
    match m s with
    | (Returned a, s') => k a s'
    | (Raised e, s') => (Raised e, s')
    end.

Notation "x <- m ;; k" := (bind m (fun x => k))
  (at level 100, m at next level, right associativity).
Notation "m ;;; k" := (bind m (fun _ => k))
  (at level 100, right associativity).

Definition raise {A} (e : exn) : M A := fun s => (Raised e, s).

(** [try: m except Exception as e: h(e)] *)
Definition try_catch {A} (m : M A) (h : exn -> M A) : M A :=
  fun s =>
    match m s with
    | (Returned a, s') => (Returned a, s')
    | (Raised e, s') => h e s'
    end.

(** [try: m finally: f], for an [f] that does not raise. *)
Definition finally {A} (m : M A) (f : M unit) : M A :=
  fun s =>
    match m s with
    | (r, s') => (r, snd (f s'))
    end.

Definition gets {A} (f : St -> A) : M A := fun s => (Returned (f s), s).
Definition modify (f : St -> St) : M unit := fun s => (Returned tt, f s).

(** Field updates. *)
Definition with_world (t : Z) (sc : list Response) (cs : list Call) (s : St) : St :=
  {| now := t; script := sc; calls := cs; registry := registry s;
     circuit_breakers := circuit_breakers s; metrics := metrics s;
     minimal_profile := minimal_profile s; state := state s |}.

Definition with_registry (r : gmap string DeviceProfile) (s : St) : St :=
  {| now := now s; script := script s; calls := calls s; registry := r;
     circuit_breakers := circuit_breakers s; metrics := metrics s;
     minimal_profile := minimal_profile s; state := state s |}.

Definition with_breakers (b : gmap string CircuitBreakerState) (s : St) : St :=
  {| now := now s; script := script s; calls := calls s; registry := registry s;
     circuit_breakers := b; metrics := metrics s;
     minimal_profile := minimal_profile s; state := state s |}.

Definition with_metrics (m : PhaseMetrics) (s : St) : St :=
  {| now := now s; script := script s; calls := calls s; registry := registry s;
     circuit_breakers := circuit_breakers s; metrics := m;
     minimal_profile := minimal_profile s; state := state s |}.

Definition with_minimal (p : DeviceProfile) (s : St) : St :=
  {| now := now s; script := script s; calls := calls s; registry := registry s;
     circuit_breakers := circuit_breakers s; metrics := metrics s;
     minimal_profile := p; state := state s |}.

Definition with_state (x : State) (s : St) : St :=
  {| now := now s; script := script s; calls := calls s; registry := registry s;
     circuit_breakers := circuit_breakers s; metrics := metrics s;
     minimal_profile := minimal_profile s; state := x |}.

Definition set_state (x : State) : M unit := modify (with_state x).

(** Writes on the metrics object. *)
Definition set_discovered_ms (v : Z) (m : PhaseMetrics) : PhaseMetrics :=
  {| discovered_ms := Some v; getinfo_ms := getinfo_ms m; adduser_ms := adduser_ms m;
     cloud_visible_ms := cloud_visible_ms m; play_ms := play_ms m;
     total_duration_ms := total_duration_ms m; branch := branch m; errors := errors m |}.
Definition set_getinfo_ms (v : Z) (m : PhaseMetrics) : PhaseMetrics :=
  {| discovered_ms := discovered_ms m; getinfo_ms := Some v; adduser_ms := adduser_ms m;
     cloud_visible_ms := cloud_visible_ms m; play_ms := play_ms m;
     total_duration_ms := total_duration_ms m; branch := branch m; errors := errors m |}.
Definition set_adduser_ms (v : Z) (m : PhaseMetrics) : PhaseMetrics :=
  {| discovered_ms := discovered_ms m; getinfo_ms := getinfo_ms m; adduser_ms := Some v;
     cloud_visible_ms := cloud_visible_ms m; play_ms := play_ms m;
     total_duration_ms := total_duration_ms m; branch := branch m; errors := errors m |}.
Definition set_cloud_visible_ms (v : Z) (m : PhaseMetrics) : PhaseMetrics :=
  {| discovered_ms := discovered_ms m; getinfo_ms := getinfo_ms m; adduser_ms := adduser_ms m;
     cloud_visible_ms := Some v; play_ms := play_ms m;
     total_duration_ms := total_duration_ms m; branch := branch m; errors := errors m |}.
Definition set_play_ms (v : Z) (m : PhaseMetrics) : PhaseMetrics :=
  {| discovered_ms := discovered_ms m; getinfo_ms := getinfo_ms m; adduser_ms := adduser_ms m;
     cloud_visible_ms := cloud_visible_ms m; play_ms := Some v;
     total_duration_ms := total_duration_ms m; branch := branch m; errors := errors m |}.
Definition set_total_duration_ms (v : Z) (m : PhaseMetrics) : PhaseMetrics :=
  {| discovered_ms := discovered_ms m; getinfo_ms := getinfo_ms m; adduser_ms := adduser_ms m;
     cloud_visible_ms := cloud_visible_ms m; play_ms := play_ms m;
     total_duration_ms := Some v; branch := branch m; errors := errors m |}.
Definition set_branch (b : string) (m : PhaseMetrics) : PhaseMetrics :=
  {| discovered_ms := discovered_ms m; getinfo_ms := getinfo_ms m; adduser_ms := adduser_ms m;
     cloud_visible_ms := cloud_visible_ms m; play_ms := play_ms m;
     total_duration_ms := total_duration_ms m; branch := Some b; errors := errors m |}.
(** [PhaseMetrics.add_error(message, phase)] *)
Definition add_error (message phase : string) (m : PhaseMetrics) : PhaseMetrics :=
  {| discovered_ms := discovered_ms m; getinfo_ms := getinfo_ms m; adduser_ms := adduser_ms m;
     cloud_visible_ms := cloud_visible_ms m; play_ms := play_ms m;
     total_duration_ms := total_duration_ms m; branch := branch m;
     errors := errors m ++ [(message, phase)] |}.

Definition on_metrics (f : PhaseMetrics -> PhaseMetrics) : M unit :=
  modify (fun s => with_metrics (f (metrics s)) s).

(** Writes on a profile object. *)
Definition append_spotify_device_name (n : string) (p : DeviceProfile) : DeviceProfile :=
  {| dp_name := dp_name p; dp_instance_name := dp_instance_name p;
     dp_spotify_device_names := dp_spotify_device_names p ++ [n];
     dp_ip := dp_ip p; dp_port := dp_port p; dp_cpath := dp_cpath p;
     dp_volume_preset := dp_volume_preset p;
     dp_max_wake_wait_s := dp_max_wake_wait_s p |}.

Definition set_instance_name (n : option string) (p : DeviceProfile) : DeviceProfile :=
  {| dp_name := dp_name p; dp_instance_name := n;
     dp_spotify_device_names := dp_spotify_device_names p;
     dp_ip := dp_ip p; dp_port := dp_port p; dp_cpath := dp_cpath p;
     dp_volume_preset := dp_volume_preset p;
     dp_max_wake_wait_s := dp_max_wake_wait_s p |}.

(** [DeviceProfile(name=target_name, volume_preset=30)] *)
Definition minimal_device_profile (target_name : string) : DeviceProfile :=
  {| dp_name := target_name; dp_instance_name := None;
     dp_spotify_device_names := []; dp_ip := None; dp_port := None;
     dp_cpath := None; dp_volume_preset := 30; dp_max_wake_wait_s := 22 |}.

(** ** Clock and collaborators *)

(** [time.time()], in milliseconds. *)
Definition time_time : M Z := gets now.

(** [int((time.time() - start) * 1000)] *)
Definition elapsed_ms (start : Z) : M Z := gets (fun s => now s - start).

(** [time.sleep(d)]; a negative length is a [ValueError]. *)
Definition sleep (d : Z) : M unit :=
  if d <? 0
  then raise {| exn_type := "ValueError";
                exn_msg := "sleep length must be non-negative" |}
  else modify (fun s => with_world (now s + d) (script s) (calls s) s).

(** A log line that the properties observe. *)
Definition log (c : Call) : M unit :=
  modify (fun s => with_world (now s) (script s) (calls s ++ [c]) s).

Definition no_response : exn :=
  {| exn_type := "ConnectionError"; exn_msg := "no response" |}.

(** A call on a collaborator: it is recorded, takes the time the world
    says, and returns or raises what the world says. *)
Definition call (c : Call) : M Value :=
  fun s =>
    match script s with
    | [] => (Raised no_response, with_world (now s) [] (calls s ++ [c]) s)
    | (latency, r) :: rest =>
        (r, with_world (now s + Z.of_N latency) rest (calls s ++ [c]) s)
    end.

Definition type_error : exn :=
  {| exn_type := "TypeError"; exn_msg := "unexpected value" |}.

Definition as_devices (v : Value) : M (list CloudDevice) :=
  match v with
  | VDevices l => ret l
  | VNone => ret []
  | _ => raise type_error
  end.

Definition as_bool (v : Value) : M bool :=
  match v with
  | VBool b => ret b
  | VNone => ret false
  | _ => raise type_error
  end.

Definition as_str (v : Value) : M string :=
  match v with VStr s => ret s | _ => raise type_error end.

Definition as_discovery (v : Value) : M DiscoveryResult :=
  match v with VDiscovery d => ret d | _ => raise type_error end.

Definition as_creds (v : Value) : M (list (string * string)) :=
  match v with VCreds c => ret c | _ => raise type_error end.

(** [self.api.get_devices()] *)
Definition api_get_devices : M (list CloudDevice) :=
  v <- call CallDevices ;; as_devices v.

(** ** Profiles seen through [target] *)

(** The profile [target] stands for. A registered key stays registered for
    the whole run ([registry_keys_kept]), so the default is never read. *)
Definition read_target (t : target_ref) (s : St) : DeviceProfile :=
  match t with
  | Registered k => default (minimal_profile s) (registry s !! k)
  | Minimal => minimal_profile s
  end.

Definition write_target (t : target_ref) (f : DeviceProfile -> DeviceProfile) : M unit :=
  modify (fun s =>
    match t with
    | Registered k => with_registry (alter f k (registry s)) s
    | Minimal => with_minimal (f (minimal_profile s)) s
    end).

(** [if name not in p.spotify_device_names: p.spotify_device_names.append(name)] *)
Definition learn_name (name : string) (p : DeviceProfile) : DeviceProfile :=
  if bool_decide (name ∈ dp_spotify_device_names p) then p
  else append_spotify_device_name name p.

Definition learn (t : target_ref) (name : string) : M unit :=
  write_target t (learn_name name).

(** [if not p.instance_name: p.instance_name = name] *)
Definition store_instance_name (name : option string) (p : DeviceProfile)
  : DeviceProfile :=
  if negb (truthy_opt (dp_instance_name p)) then set_instance_name name p else p.

(** ** Circuit breaker bookkeeping of the engine *)

(** [if target_name not in self.circuit_breakers: ... = CircuitBreakerState(target_name)] *)
Definition ensure_breaker (target_name : string) : M unit :=
  modify (fun s =>
    match circuit_breakers s !! target_name with
    | Some _ => s
    | None => with_breakers (<[target_name := new_breaker target_name]>
                               (circuit_breakers s)) s
    end).

Definition _should_bypass_primary (cfg : AlarmPlaybackConfig) (target_name : string)
  : M bool :=
  ensure_breaker target_name ;;;
  gets (fun s =>
    match circuit_breakers s !! target_name with
    | Some cb => cb_should_bypass_primary (breaker cfg) (now s) cb
    | None => false
    end).

Definition _record_failure (cfg : AlarmPlaybackConfig) (target_name : string) : M unit :=
  ensure_breaker target_name ;;;
  modify (fun s =>
    with_breakers (alter (cb_record_failure (breaker cfg) (now s)) target_name
                         (circuit_breakers s)) s).

Definition _record_success (target_name : string) : M unit :=
  ensure_breaker target_name ;;;
  modify (fun s =>
    with_breakers (alter cb_record_success target_name (circuit_breakers s)) s).

(** ** [playback.py] *)

(** [stage_device]: transfer without starting, volume if given (a failure
    there is only logged), settle 0.2 s. *)
Definition stage_device (device_id : string) (volume : option Z) : M unit :=
  call (CallTransfer device_id false) ;;;
  match volume with
  | Some v => try_catch (call (CallVolume device_id v) ;;; ret tt) (fun _ => ret tt)
  | None => ret tt
  end ;;;
  sleep 200.

(** [start_play] *)
Definition start_play (cfg : AlarmPlaybackConfig) (device_id : string) : M unit :=
  call (CallPlay device_id (context_uri cfg) (retry_404_delay_ms (timings cfg))
                 (shuffle cfg)) ;;;
  ret tt.

(** [playback_info and playback_info.get('device', {}).get('id') == device_id] *)
Definition reports_device (device_id : string) (v : Value) : bool :=
  match v with
  | VPlayback (Some id) _ => String.eqb id device_id
  | _ => false
  end.

(** The loop of [verify_device_ready]. [fuel] bounds the number of rounds;
    every round lasts at least half a second, so the rounds the timeout
    allows are never more than the fuel given below. *)
Fixpoint verify_loop (fuel : nat) (device_id : string) (start_time timeout : Z)
  : M bool :=
  t <- time_time ;;
  if t - start_time <? timeout then
    match fuel with
    | O => ret false
    | S fuel' =>
        hit <- try_catch
                 (playback_info <- call CallCurrentPlayback ;;
                  if reports_device device_id playback_info then ret true
                  else sleep 500 ;;; ret false)
                 (fun _ => sleep 500 ;;; ret false) ;;
        if hit then ret true
        else verify_loop fuel' device_id start_time timeout
    end
  else ret false.

(** [verify_device_ready(api, device_id, timeout_s)] *)
Definition verify_device_ready (device_id : string) (timeout : Z) : M bool :=
  start_time <- time_time ;;
  verify_loop (S (Z.to_nat timeout)) device_id start_time timeout.

(** ** [orchestrator.py] *)

Definition fallback_exhausted : string :=
  "Alarm playback failed and no fallback succeeded".

Definition value_error (msg : string) : exn :=
  {| exn_type := "ValueError"; exn_msg := msg |}.

Definition runtime_error (msg : string) : exn :=
  {| exn_type := "RuntimeError"; exn_msg := msg |}.

(** [AlarmPlaybackEngine._failover]. It returns (the metrics object is in
    the state) when the fallback worked and raises [RuntimeError]
    otherwise. *)
Definition _failover (cfg : AlarmPlaybackConfig) (target_name reason : string)
  : M unit :=
  log (LogFallback target_name "primary" reason) ;;;
  ok <- try_catch
          (reg <- gets registry ;;
           match _get_target_profile reg target_name with
           | None =>
               raise (value_error ("Device " +:+ target_name
                        +:+ " not in registry - cannot perform fallback"))
           | Some target_profile =>
               if negb (truthy_opt (dp_ip target_profile)) then
                 raise (value_error ("No IP address available for device "
                          +:+ target_name +:+ " - cannot perform fallback"))
               else
                 call (CallAirplayFallback [or_default (dp_ip target_profile) ""]
                         target_name (context_uri cfg)) ;;;
                 on_metrics (set_branch "fallback") ;;;
                 on_metrics (add_error ("Primary failed: " +:+ reason) "fallback") ;;;
                 ret true
           end)
          (fun _ => ret false) ;;
  if ok then ret tt
  else
    on_metrics (set_branch ("failed:" +:+ reason)) ;;;
    on_metrics (add_error ("Fallback failed: " +:+ reason) "fallback") ;;;
    raise (runtime_error (fallback_exhausted +:+ ": " +:+ reason)).

(** Where the body of [play_alarm] stands after a step: it executed
    [return metrics], or it goes on with a value. *)
Inductive flow (A : Type) : Type :=
| Return_
| Next (a : A).
Arguments Return_ {A}.
Arguments Next {A} a.

(** The confirmation loop, [while time.time() < confirmation_deadline];
    [true] is the [break], [false] the [else] branch. Every round lasts at
    least 0.2 s. *)
Fixpoint confirm_loop (fuel : nat) (device_id : string) (confirmation_deadline : Z)
  : M bool :=
  t <- time_time ;;
  if t <? confirmation_deadline then
    match fuel with
    | O => ret false
    | S fuel' =>
        confirmed <- try_catch
                       (ready <- verify_device_ready device_id 500 ;;
                        if ready then ret true else sleep 200 ;;; ret false)
                       (fun _ => sleep 200 ;;; ret false) ;;
        if confirmed then ret true
        else confirm_loop fuel' device_id confirmation_deadline
    end
  else ret false.

Definition confirm (cfg : AlarmPlaybackConfig) (device_id : string) : M bool :=
  t <- time_time ;;
  confirm_loop (S (Z.to_nat (failover_fire_after_ms (timings cfg)))) device_id
               (t + failover_fire_after_ms (timings cfg)).

(** Phase 1: is the device already in the cloud's list? *)
Definition phase_webapi_check (cfg : AlarmPlaybackConfig) (target_name : string)
    (total_start_time : Z) : M (flow unit) :=
  webapi_start <- time_time ;;
  try_catch
    (devices <- api_get_devices ;;
     reg <- gets registry ;;
     match _pick_device reg devices target_name with
     | Some cloud_device =>
         learn (Registered target_name) (cd_name cloud_device) ;;;
         d <- elapsed_ms webapi_start ;;
         on_metrics (set_discovered_ms d) ;;;
         set_state CLOUD_VISIBLE ;;;
         volume <- gets (fun s =>
                     match _get_target_profile (registry s) target_name with
                     | Some target => dp_volume_preset target
                     | None => 30
                     end) ;;
         stage_device (cd_id cloud_device) (Some volume) ;;;
         set_state STAGED ;;;
         play_start <- time_time ;;
         start_play cfg (cd_id cloud_device) ;;;
         d <- elapsed_ms play_start ;;
         on_metrics (set_play_ms d) ;;;
         on_metrics (set_branch "webapi_direct") ;;;
         d <- elapsed_ms total_start_time ;;
         on_metrics (set_total_duration_ms d) ;;;
         ret Return_
     | None => ret (Next tt)
     end)
    (fun _ => ret (Next tt)).

(** [target = self._get_target_profile(target_name)], or the minimal
    profile. *)
Definition resolve_target (target_name : string) : M target_ref :=
  reg <- gets registry ;;
  match _get_target_profile reg target_name with
  | Some _ => ret (Registered target_name)
  | None =>
      modify (with_minimal (minimal_device_profile target_name)) ;;;
      ret Minimal
  end.

(** Phase 2: wake the device at its known address; when it then shows up
    in the cloud, stage, play and confirm here. Every exception of this
    block, those of [_failover] included, is caught and logged. *)
Definition phase_ip_wakeup (cfg : AlarmPlaybackConfig) (target_name : string)
    (target : target_ref) (total_start_time : Z) : M (flow unit) :=
  p <- gets (read_target target) ;;
  if truthy_opt (dp_ip p) then
    try_catch
      (let device_port := port_or (dp_port p) 80 in
       let device_cpath := or_default (dp_cpath p) default_cpath in
       v <- call (CallWake (or_default (dp_ip p) "") device_port device_cpath
                           target_name) ;;
       wake_success <- as_bool v ;;
       if wake_success then
         devices <- api_get_devices ;;
         reg <- gets registry ;;
         match _pick_device reg devices target_name with
         | Some cloud_device =>
             learn target (cd_name cloud_device) ;;;
             set_state CLOUD_VISIBLE ;;;
             sleep (debounce_after_seen_ms (timings cfg)) ;;;
             p' <- gets (read_target target) ;;
             stage_device (cd_id cloud_device) (Some (dp_volume_preset p')) ;;;
             set_state STAGED ;;;
             play_start <- time_time ;;
             start_play cfg (cd_id cloud_device) ;;;
             d <- elapsed_ms play_start ;;
             on_metrics (set_play_ms d) ;;;
             confirmed <- confirm cfg (cd_id cloud_device) ;;
             if confirmed then
               set_state PLAYING ;;;
               on_metrics (set_branch "primary_ip_wakeup") ;;;
               d <- elapsed_ms total_start_time ;;
               on_metrics (set_cloud_visible_ms d) ;;;
               _record_success target_name ;;;
               ret Return_
             else
               _failover cfg target_name "play_not_confirmed_t2" ;;;
               ret Return_
         | None => ret (Next tt)
         end
       else ret (Next tt))
      (fun _ => ret (Next tt))
  else ret (Next tt).

(** Phase 3: mDNS discovery, or the address the registry remembers. *)
Definition phase_discovery (cfg : AlarmPlaybackConfig) (target_name : string)
    (target : target_ref) : M (flow DiscoveryResult) :=
  discovery_start <- time_time ;;
  p <- gets (read_target target) ;;
  v <- call (CallDiscover (dp_name p) 1500) ;;
  discovery_result <- as_discovery v ;;
  d <- elapsed_ms discovery_start ;;
  on_metrics (set_discovered_ms d) ;;;
  (if is_complete discovery_result && truthy_opt (dr_instance_name discovery_result)
   then write_target target (store_instance_name (dr_instance_name discovery_result))
   else ret tt) ;;;
  if negb (is_complete discovery_result) then
    reg <- gets registry ;;
    match _get_target_profile reg target_name with
    | Some discovered_device =>
        if truthy_opt (dp_ip discovered_device) then
          set_state DISCOVERED ;;;
          ret (Next {| dr_ip := dp_ip discovered_device;
                       dr_port := Some (port_or (dp_port discovered_device) 80);
                       dr_cpath := Some (or_default (dp_cpath discovered_device)
                                                    default_cpath);
                       dr_instance_name := Some target_name;
                       dr_txt_records := [] |})
        else
          set_state DEEP_SLEEP_SUSPECTED ;;;
          _failover cfg target_name "no_mdns" ;;;
          ret Return_
    | None =>
        set_state DEEP_SLEEP_SUSPECTED ;;;
        _failover cfg target_name "no_mdns" ;;;
        ret Return_
    end
  else
    set_state DISCOVERED ;;;
    ret (Next discovery_result).

(** Phases 4 and 5: getInfo, then addUser with the access token and, if
    that fails, with blob and client key. *)
Definition phase_activate (discovery_result : DiscoveryResult) : M unit :=
  let ip := dr_ip discovery_result in
  let port := dr_port discovery_result in
  let cpath := dr_cpath discovery_result in
  getinfo_start <- time_time ;;
  v <- call (CallGetInfo ip port cpath 1500) ;;
  local_ok <- as_bool v ;;
  d <- elapsed_ms getinfo_start ;;
  on_metrics (set_getinfo_ms d) ;;;
  adduser_start <- time_time ;;
  v <- call CallAccessToken ;;
  access_token <- as_str v ;;
  let creds := [("userName", "alarm_user"); ("accessToken", access_token);
                ("tokenType", "accesstoken")] in
  v <- call (CallAddUser ip port cpath "access_token" creds 2500) ;;
  auth_ok <- as_bool v ;;
  auth_ok <- (if negb auth_ok then
                call CallCredentialProvider ;;;
                try_catch
                  (v <- call CallBlobCreds ;;
                   blob_creds <- as_creds v ;;
                   v <- call (CallAddUser ip port cpath "blob_clientKey"
                                          blob_creds 2500) ;;
                   as_bool v)
                  (fun _ => ret auth_ok)
              else ret auth_ok) ;;
  d <- elapsed_ms adduser_start ;;
  on_metrics (set_adduser_ms d) ;;;
  (if negb auth_ok then ret tt
   else set_state LOGGED_IN ;;; sleep 2000) ;;;
  set_state (if local_ok then LOCAL_AWAKE
             else if auth_ok then LOGGED_IN else DISCOVERED).

(** Phase 6, the loop [while time.time() < deadline]. Every round that
    does not find the device sleeps at least half a second. *)
Fixpoint poll_loop (fuel : nat) (target : target_ref) (deadline fast_until : Z)
  : M (option CloudDevice) :=
  t <- time_time ;;
  if t <? deadline then
    match fuel with
    | O => ret None
    | S fuel' =>
        found <- try_catch
                   (devices <- api_get_devices ;;
                    p <- gets (read_target target) ;;
                    reg <- gets registry ;;
                    match _pick_device reg devices (dp_name p) with
                    | Some cloud_device =>
                        learn target (cd_name cloud_device) ;;;
                        ret (Some cloud_device)
                    | None =>
                        t' <- time_time ;;
                        sleep (if t' <? fast_until then 500 else 1000) ;;;
                        ret None
                    end)
                   (fun _ => sleep 1000 ;;; ret None) ;;
        match found with
        | Some cloud_device => ret (Some cloud_device)
        | None => poll_loop fuel' target deadline fast_until
        end
    end
  else ret None.

Definition phase_cloud_poll (cfg : AlarmPlaybackConfig) (target : target_ref)
    (total_start_time : Z) : M (option CloudDevice) :=
  t <- time_time ;;
  let deadline := t + total_poll_deadline_ms (timings cfg) in
  t <- time_time ;;
  let fast_until := t + poll_fast_period_ms (timings cfg) in
  cloud_device <- poll_loop (S (Z.to_nat (total_poll_deadline_ms (timings cfg))))
                            target deadline fast_until ;;
  d <- elapsed_ms total_start_time ;;
  on_metrics (set_cloud_visible_ms d) ;;;
  ret cloud_device.

Definition bindF {A B} (m : M (flow A)) (k : A -> M (flow B)) : M (flow B) :=
  x <- m ;;
  match x with
  | Return_ => ret Return_
  | Next a => k a
  end.

Notation "x <-? m ;; k" := (bindF m (fun x => k))
  (at level 100, m at next level, right associativity).

(** The timeline from the start of the [try] block up to and including
    [start_play] on the main path: it leaves with [return metrics], or
    hands the cloud device on to the confirmation. *)
Definition timeline_to_play (cfg : AlarmPlaybackConfig) (target_name : string)
    (total_start_time : Z) : M (flow CloudDevice) :=
  _ <-? phase_webapi_check cfg target_name total_start_time ;;
  target <- resolve_target target_name ;;
  bypass <- _should_bypass_primary cfg target_name ;;
  if bypass then
    _failover cfg target_name "circuit_breaker_open" ;;;
    ret Return_
  else
    _ <-? phase_ip_wakeup cfg target_name target total_start_time ;;
    discovery_result <-? phase_discovery cfg target_name target ;;
    phase_activate discovery_result ;;;
    found <- phase_cloud_poll cfg target total_start_time ;;
    match found with
    | None =>
        _failover cfg target_name "not_in_devices_by_deadline" ;;;
        ret Return_
    | Some cloud_device =>
        set_state CLOUD_VISIBLE ;;;
        sleep (debounce_after_seen_ms (timings cfg)) ;;;
        p <- gets (read_target target) ;;
        stage_device (cd_id cloud_device) (Some (dp_volume_preset p)) ;;;
        set_state STAGED ;;;
        play_start <- time_time ;;
        start_play cfg (cd_id cloud_device) ;;;
        d <- elapsed_ms play_start ;;
        on_metrics (set_play_ms d) ;;;
        ret (Next cloud_device)
    end.

(** The confirmation of the main path and what follows it. *)
Definition confirm_or_failover (cfg : AlarmPlaybackConfig) (target_name : string)
    (cloud_device : CloudDevice) : M unit :=
  confirmed <- confirm cfg (cd_id cloud_device) ;;
  if confirmed then
    set_state PLAYING ;;;
    on_metrics (set_branch "primary") ;;;
    _record_success target_name
  else
    _failover cfg target_name "play_not_confirmed_t2".

(** The [try] block of [play_alarm]. *)
Definition timeline (cfg : AlarmPlaybackConfig) (target_name : string)
    (total_start_time : Z) : M unit :=
  x <- timeline_to_play cfg target_name total_start_time ;;
  match x with
  | Return_ => ret tt
  | Next cloud_device => confirm_or_failover cfg target_name cloud_device
  end.

(** The [except Exception as e] block of [play_alarm]. *)
Definition on_exception (cfg : AlarmPlaybackConfig) (target_name : string)
    (e : exn) : M unit :=
  _record_failure cfg target_name ;;;
  if PyStr.contains fallback_exhausted (exn_msg e) then raise e
  else _failover cfg target_name (exn_msg e).

(** [try: ... except Exception: ... finally: metrics.total_duration_ms = ...] *)
Definition guarded (cfg : AlarmPlaybackConfig) (target_name : string)
    (total_start_time : Z) (block : M unit) : M unit :=
  finally (try_catch block (on_exception cfg target_name))
          (d <- elapsed_ms total_start_time ;;
           on_metrics (set_total_duration_ms d)).

(** [AlarmPlaybackEngine.play_alarm] *)
Definition play_alarm (cfg : AlarmPlaybackConfig) (target_name : string)
  : M PhaseMetrics :=
  modify (with_metrics new_metrics) ;;;
  set_state UNKNOWN ;;;
  total_start_time <- time_time ;;
  guarded cfg target_name total_start_time
          (timeline cfg target_name total_start_time) ;;;
  gets metrics.

(** ** Assertions on runs *)

(** What a run may change in a profile: it may append to
    [spotify_device_names], and it may fill in an [instance_name] that was
    unset or empty; the other fields stay. *)
Definition profile_frame (p p' : DeviceProfile) : Prop :=
  dp_name p' = dp_name p
  /\ dp_ip p' = dp_ip p
  /\ dp_port p' = dp_port p
  /\ dp_cpath p' = dp_cpath p
  /\ dp_volume_preset p' = dp_volume_preset p
  /\ dp_max_wake_wait_s p' = dp_max_wake_wait_s p
  /\ (exists learned, dp_spotify_device_names p'
                      = dp_spotify_device_names p ++ learned)
  /\ (dp_instance_name p' = dp_instance_name p
      \/ truthy_opt (dp_instance_name p) = false).

(** The same, for every key of the registry; no key comes or goes. *)
Definition registry_frame (r r' : gmap string DeviceProfile) : Prop :=
  forall k,
    match r !! k, r' !! k with
    | Some p, Some p' => profile_frame p p'
    | None, None => True
    | _, _ => False
    end.

(** A recorded value lies between 0 and [lim]. *)
Definition field_ok (lim : Z) (f : option Z) : Prop :=
  match f with
  | Some v => 0 <= v <= lim
  | None => True
  end.

Definition bounded (lim : Z) (m : PhaseMetrics) : Prop :=
  field_ok lim (discovered_ms m) /\ field_ok lim (getinfo_ms m)
  /\ field_ok lim (adduser_ms m) /\ field_ok lim (cloud_visible_ms m)
  /\ field_ok lim (play_ms m) /\ field_ok lim (total_duration_ms m).

Definition errors_of_fallback (m : PhaseMetrics) : Prop :=
  Forall (fun e => snd e = "fallback") (errors m).

Section RunInvariant.

(** The time the run started at and the registry it started with. *)
Variable t0 : Z.
Variable reg0 : gmap string DeviceProfile.

(** What holds at every point of a run. *)
Definition Inv (s : St) : Prop :=
  t0 <= now s
  /\ bounded (now s - t0) (metrics s)
  /\ registry_frame reg0 (registry s)
  /\ errors_of_fallback (metrics s).

(** [x] is a time read during the run. *)
Definition early (x : Z) (s : St) : Prop := t0 <= x <= now s.

(** [d] is a duration measured during the run. *)
Definition short (d : Z) (s : St) : Prop := 0 <= d <= now s - t0.

(** [F] keeps holding as the clock advances. *)
Definition stable (F : St -> Prop) : Prop :=
  forall s s', now s <= now s' -> F s -> F s'.

(** From a state where the invariant and [F] hold, [m] keeps the
    invariant, does not turn the clock back, and returns values that
    satisfy [Q]. *)
Definition keeps {A} (F : St -> Prop) (m : M A) (Q : A -> St -> Prop) : Prop :=
  forall s, Inv s -> F s ->
    match m s with
    | (r, s') =>
        Inv s' /\ now s <= now s' /\
        match r with
        | Returned a => Q a s'
        | Raised _ => True
        end
    end.

End RunInvariant.

(** The postcondition that asks nothing. *)
Definition top {A} : A -> St -> Prop := fun _ _ => True.

(** The selection rule as C1 words it: the first element of the cloud's list
    whose normalised name is one of the target's normalised names. *)
Definition first_normalized_match (registry : gmap string DeviceProfile)
    (devices : list CloudDevice) (target_name : string) (d : CloudDevice) : Prop :=
  first_such (fun x => normalize (cd_name x) ∈ normalized_names registry target_name)
             devices d.

(** The state [play_alarm] starts its [try] block in. *)
Definition start_state (s : St) : St :=
  with_state UNKNOWN (with_metrics new_metrics s).

(** ** Worlds for the examples *)

Definition alarm_config : AlarmPlaybackConfig :=
  {| context_uri := "spotify:playlist:X"; shuffle := false;
     timings := {| retry_404_delay_ms := 700; total_poll_deadline_ms := 20000;
                   poll_fast_period_ms := 5000; debounce_after_seen_ms := 500;
                   failover_fire_after_ms := 2000 |};
     breaker := {| failure_threshold := 3; cooldown_ms := 300000 |} |}.

(** A profile without a known address, and one with. *)
Definition kitchen : DeviceProfile :=
  {| dp_name := "Kitchen"; dp_instance_name := None;
     dp_spotify_device_names := []; dp_ip := None; dp_port := None;
     dp_cpath := None; dp_volume_preset := 30; dp_max_wake_wait_s := 22 |}.

Definition kitchen_at_address : DeviceProfile :=
  {| dp_name := "Kitchen"; dp_instance_name := None;
     dp_spotify_device_names := []; dp_ip := Some "10.0.0.5";
     dp_port := Some 8080; dp_cpath := Some "/zc"; dp_volume_preset := 30;
     dp_max_wake_wait_s := 22 |}.

Definition engine (reg : gmap string DeviceProfile) (answers : list Response) : St :=
  {| now := 1000; script := answers; calls := []; registry := reg;
     circuit_breakers := ∅; metrics := new_metrics;
     minimal_profile := minimal_device_profile ""; state := UNKNOWN |}.

Definition answer (latency : N) (v : Value) : Response := (latency, Returned v).

Definition kitchen_found : DiscoveryResult :=
  {| dr_ip := Some "10.0.0.5"; dr_port := Some 8080; dr_cpath := Some "/zc";
     dr_instance_name := Some "kitchen-inst"; dr_txt_records := [] |}.

(** S1: the device is in the cloud's list at once; the world would also
    answer a playback query. *)
Definition fast_path_world : St :=
  engine {["Kitchen" := kitchen]}
    [answer 100 (VDevices [cloud_device "D1" "Kitchen"]);
     answer 50 VNone; answer 30 VNone; answer 80 VNone;
     answer 10 (VPlayback (Some "D1") true)].

(** S2: a cold wake that ends in confirmed playback. *)
Definition cold_wake_world : St :=
  engine {["Kitchen" := kitchen]}
    [answer 100 (VDevices []);
     answer 1500 (VDiscovery kitchen_found);
     answer 50 (VBool true);
     answer 10 (VStr "token");
     answer 60 (VBool true);
     answer 100 (VDevices [cloud_device "D1" "Kitchen"]);
     answer 50 VNone; answer 30 VNone; answer 80 VNone;
     answer 10 (VPlayback (Some "D1") true)].

(** The same, but the first cloud query fails. *)
Definition webapi_error_world : St :=
  engine {["Kitchen" := kitchen]}
    [(100%N, Raised {| exn_type := "ConnectionError"; exn_msg := "cloud unreachable" |});
     answer 1500 (VDiscovery kitchen_found);
     answer 50 (VBool true);
     answer 10 (VStr "token");
     answer 60 (VBool true);
     answer 100 (VDevices [cloud_device "D1" "Kitchen"]);
     answer 50 VNone; answer 30 VNone; answer 80 VNone;
     answer 10 (VPlayback (Some "D1") true)].

(** S6: playback starts but is never confirmed; the fallback then works. *)
Definition unconfirmed_world : St :=
  engine {["Kitchen" := kitchen_at_address]}
    [answer 100 (VDevices []);
     answer 40 (VBool false);
     answer 1500 (VDiscovery kitchen_found);
     answer 50 (VBool true);
     answer 10 (VStr "token");
     answer 60 (VBool true);
     answer 100 (VDevices [cloud_device "D1" "Kitchen"]);
     answer 50 VNone; answer 30 VNone; answer 80 VNone;
     answer 10 VNone; answer 10 (VPlayback (Some "D9") true); answer 10 VNone;
     answer 900 VNone].

(** The failure count the engine holds for a device; no breaker yet counts
    as none. *)
Definition breaker_failures (target_name : string) (s : St) : Z :=
  match circuit_breakers s !! target_name with
  | Some cb => failure_count cb
  | None => 0
  end.

(** The volume the fast path stages with. *)
Definition fast_path_volume (reg : gmap string DeviceProfile) (t : string) : Z :=
  match reg !! t with
  | Some p => dp_volume_preset p
  | None => 30
  end.

(** An answer that does not report [device_id] as the playing device. *)
Definition no_report (device_id : string) (r : Response) : Prop :=
  match snd r with
  | Returned v => reports_device device_id v = false
  | Raised _ => True
  end.

(** Two states hold the same failure counts. *)
Definition same_failures (s s' : St) : Prop :=
  forall k, breaker_failures k s' = breaker_failures k s.

(** The body goes on after this step. *)
Definition goes_on {A} (x : flow A) : Prop :=
  match x with
  | Return_ => False
  | Next _ => True
  end.

Definition always {A} : A -> Prop := fun _ => True.

(** [m] leaves the failure counts alone, whenever it raises or returns a
    value that satisfies [ok]. *)
Definition quiet {A} (ok : A -> Prop) (m : M A) : Prop :=
  forall s,
    match m s with
    | (Returned a, s') => ok a -> same_failures s s'
    | (Raised _, s') => same_failures s s'
    end.

(** The order C8 states among the six recorded values. *)
Definition timestamps_in_order (m : PhaseMetrics) : Prop :=
  match discovered_ms m, getinfo_ms m, adduser_ms m,
        cloud_visible_ms m, play_ms m, total_duration_ms m with
  | Some d, Some g, Some a, Some c, Some p, Some t =>
      d <= g /\ g <= a /\ a <= c /\ c <= p /\ p <= t
  | _, _, _, _, _, _ => True
  end.

(** The first cloud query of a run does not yield the target: it raises,
    or returns a list in which [_pick_device] finds nothing. *)
Definition misses (reg : gmap string DeviceProfile) (t : string)
    (r : outcome Value) : Prop :=
  match r with
  | Returned (VDevices L) => _pick_device reg L t = None
  | _ => True
  end.

(** A world in which the breaker of "Kitchen" is open: three failures, the
    last one 100 ms ago, and a cloud that lists no device. *)
Definition open_breaker_world : St :=
  with_breakers
    {["Kitchen" := {| cb_device_name := "Kitchen"; failure_count := 3;
                      last_failure_time := Some 900; is_open := true |}]}
    (engine {["Kitchen" := kitchen_at_address]}
       [answer 100 (VDevices []); answer 400 VNone]).

(** ** [playback.py], the helpers around the run *)

(** [prepare_device_for_playback]: the preset, or without one the volume
    the cloud reports for the device, is what [stage_device] gets; then
    0.5 s of settling. Errors are logged and raised again. *)
Definition prepare_device_for_playback (device : CloudDevice)
    (volume_preset : option Z) : M unit :=
  let target_volume :=
    match volume_preset with
    | Some v => Some v
    | None => cd_volume_percent device
    end in
  stage_device (cd_id device) target_volume ;;;
  sleep 500.

(** [get_device_playback_state]: the playback information when it names
    the device; [None] otherwise, and on any error. *)
Definition get_device_playback_state (device_id : string) : M (option Value) :=
  try_catch
    (playback_info <- call CallCurrentPlayback ;;
     if reports_device device_id playback_info then ret (Some playback_info)
     else ret None)
    (fun _ => ret None).

(** [playback_info and playback_info.get('is_playing', False)] *)
Definition says_playing (playback_info : option Value) : bool :=
  match playback_info with
  | Some (VPlayback _ is_playing) => is_playing
  | _ => false
  end.

(** The loop of [wait_for_playback_to_start]; [fuel] as in [verify_loop]. *)
Fixpoint wait_loop (fuel : nat) (device_id : string) (start_time timeout : Z)
  : M bool :=
  t <- time_time ;;
  if t - start_time <? timeout then
    match fuel with
    | O => ret false
    | S fuel' =>
        playback_info <- get_device_playback_state device_id ;;
        if says_playing playback_info then ret true
        else sleep 500 ;;; wait_loop fuel' device_id start_time timeout
    end
  else ret false.

(** [wait_for_playback_to_start(api, device_id, context_uri, timeout_s)]:
    [start_play] with its defaults (retry after 0.7 s, no shuffle), then the
    loop; any error gives [False]. *)
Definition wait_for_playback_to_start (device_id context_uri : string)
    (timeout : Z) : M bool :=
  try_catch
    (call (CallPlay device_id context_uri 700 false) ;;;
     start_time <- time_time ;;
     wait_loop (S (Z.to_nat timeout)) device_id start_time timeout)
    (fun _ => ret false).

(** The world answers, at some point, that [device_id] is the device of
    the current playback and that it is playing. *)
Definition answers_playing (device_id : string) (sc : list Response) : Prop :=
  exists lat, In (lat, Returned (VPlayback (Some device_id) true)) sc.

(** The string of [n] slashes. *)
Fixpoint slashes (n : nat) : string :=
  match n with
  | O => ""
  | S k => String "/" (slashes k)
  end.

(** ** Tokens and the device cache of the web interface ([spotify_client.py]) *)

(** A token dictionary as [json.load] gives it. The keys the code reads
    are fields, absent when [None]; a key that is present holds text or a
    number, not [null]. [tk_other] holds the remaining keys. *)
Record Token := {
  tk_access_token : option string;
  tk_refresh_token : option string;
  tk_expires_at : option Z;
  tk_expires_in : option Z;
  tk_other : gmap string string
}.

(** [bool(token)] for a dictionary: it has a key. *)
Definition token_truthy (token : Token) : bool :=
  bool_decide (is_Some (tk_access_token token))
  || bool_decide (is_Some (tk_refresh_token token))
  || bool_decide (is_Some (tk_expires_at token))
  || bool_decide (is_Some (tk_expires_in token))
  || negb (bool_decide (tk_other token = ∅)).

(** [time.time() <= token.get("expires_at", 0) - 60], the clock in
    milliseconds and [expires_at] in seconds. *)
Definition still_valid (current_time : Z) (token : Token) : bool :=
  current_time <=? (default 0 (tk_expires_at token) - 60) * 1000.

(** [SPOTIFY_CLIENT_ID], [SPOTIFY_CLIENT_SECRET] and
    [SPOTIFY_REDIRECT_URI] of the environment. *)
Record SpotifyEnv := {
  env_client_id : option string;
  env_client_secret : option string;
  env_redirect_uri : option string
}.

(** [refresh_token_simple]. [refresh_access_token] is spotipy's request,
    with the import and the [SpotifyOAuth] constructor: whatever raises
    there is caught all the same. The result is what the function returns
    and what it hands to [save_token_simple], if anything;
    [save_token_simple] never raises. *)
Definition refresh_token_simple (current_time : Z) (env : SpotifyEnv)
    (refresh_access_token : string -> outcome Token) (token : option Token)
  : option Token * option Token :=
  match token with
  | None => (None, None)
  | Some token =>
      if negb (token_truthy token) then (None, None) else
      match tk_refresh_token token with
      | None => (None, None)
      | Some refresh_token =>
          if still_valid current_time token then (Some token, None) else
          if negb (truthy_opt (env_client_id env) && truthy_opt (env_client_secret env)
                   && truthy_opt (env_redirect_uri env))
          then (None, None) else
          match refresh_access_token refresh_token with
          | Returned new_token => (Some new_token, Some new_token)
          | Raised _ => (None, None)
          end
      end
  end.

(** [fresh_token = token.copy(); fresh_token.update(response.json())] *)
Definition token_update (token response : Token) : Token :=
  {| tk_access_token := tk_access_token response ∪ tk_access_token token;
     tk_refresh_token := tk_refresh_token response ∪ tk_refresh_token token;
     tk_expires_at := tk_expires_at response ∪ tk_expires_at token;
     tk_expires_in := tk_expires_in response ∪ tk_expires_in token;
     tk_other := tk_other response ∪ tk_other token |}.

Definition set_expires_at (v : Z) (token : Token) : Token :=
  {| tk_access_token := tk_access_token token;
     tk_refresh_token := tk_refresh_token token;
     tk_expires_at := Some v;
     tk_expires_in := tk_expires_in token;
     tk_other := tk_other token |}.

(** [refresh_token_legacy]. [post_token] is the POST to the accounts
    service with [raise_for_status] and [response.json()]; [write_ok] says
    whether the token file could be written. The result is what the
    function returns and the token it wrote, if any. *)
Definition refresh_token_legacy (current_time : Z) (env : SpotifyEnv)
    (post_token : string -> outcome Token) (write_ok : bool) (token : option Token)
  : option Token * option Token :=
  match token with
  | None => (None, None)
  | Some token =>
      if negb (token_truthy token) then (None, None) else
      if still_valid current_time token then (Some token, None) else
      match tk_refresh_token token with
      | None => (None, None)
      | Some refresh_token =>
          if negb (PyStr.truthy refresh_token) then (None, None) else
          if negb (truthy_opt (env_client_id env))
             || negb (truthy_opt (env_client_secret env))
          then (None, None) else
          match post_token refresh_token with
          | Raised _ => (None, None)
          | Returned response =>
              let fresh_token := token_update token response in
              match tk_expires_in fresh_token with
              | None => (None, None)
              | Some expires_in =>
                  let fresh_token :=
                    set_expires_at (current_time / 1000 + expires_in) fresh_token in
                  if write_ok then (Some fresh_token, Some fresh_token)
                  else (None, None)
              end
          end
      end
  end.

(** One entry of [sp.devices()['devices']]; a key that is absent is
    [None]. *)
Record RawDevice := {
  rd_id : option string;
  rd_name : option string;
  rd_type : option string;
  rd_is_active : option bool;
  rd_is_private_session : option bool;
  rd_is_restricted : option bool;
  rd_volume_percent : option Z
}.

(** The dictionary [get_devices] builds from an entry; [None] is the
    [KeyError] of a missing [id], [name], [type] or [is_active]. *)
Definition device_dict (device_data : RawDevice) : option WebDevice :=
  match rd_id device_data, rd_name device_data, rd_type device_data,
        rd_is_active device_data with
  | Some id, Some name, Some type, Some is_active =>
      Some {| wd_id := id; wd_name := name; wd_type := type;
              wd_is_active := is_active;
              wd_is_private_session := default false (rd_is_private_session device_data);
              wd_is_restricted := default false (rd_is_restricted device_data);
              wd_volume_percent := default 0 (rd_volume_percent device_data) |}
  | _, _, _, _ => None
  end.

(** The loop of [get_devices] over the entries; the first [KeyError] ends
    it. *)
Fixpoint device_dicts (devices_data : list RawDevice) : option (list WebDevice) :=
  match devices_data with
  | [] => Some []
  | device_data :: rest =>
      match device_dict device_data with
      | None => None
      | Some device_dict =>
          match device_dicts rest with
          | None => None
          | Some devices => Some (device_dict :: devices)
          end
      end
  end.

(** [self._device_cache] *)
Record DeviceCache := {
  dc_devices : list WebDevice;
  dc_timestamp : Z;
  dc_ttl : Z
}.

(** [AlarmSpotifyClient.__init__]: an empty list, dated 0, kept 30 s. *)
Definition new_device_cache : DeviceCache :=
  {| dc_devices := []; dc_timestamp := 0; dc_ttl := 30 |}.

(** The part of [get_devices] that goes to Spotify: the token of the file
    ([load_token_simple], [None] when the file is missing or unreadable),
    its refresh, and [sp.devices()], where [None] stands for a result
    without the key [devices]. The result is [None] where the code returns
    the empty list without touching the cache. *)
Definition fetch_devices (current_time : Z) (env : SpotifyEnv)
    (refresh_access_token : string -> outcome Token)
    (token_file : option Token)
    (sp_devices : string -> outcome (option (list RawDevice)))
  : option (list WebDevice) :=
  match token_file with
  | None => None
  | Some token =>
      if negb (token_truthy token) then None else
      match fst (refresh_token_simple current_time env refresh_access_token
                   (Some token)) with
      | None => None
      | Some token =>
          if negb (token_truthy token) then None else
          match tk_access_token token with
          | None => None
          | Some access_token =>
              match sp_devices access_token with
              | Raised _ => None
              | Returned devices_data => device_dicts (default [] devices_data)
              end
          end
      end
  end.

(** [AlarmSpotifyClient.get_devices(use_cache)], given what a fetch would
    give: the list returned and the cache afterwards. The cache's dates are
    in milliseconds, its [ttl] in seconds. *)
Definition get_devices (use_cache : bool) (current_time : Z) (cache : DeviceCache)
    (fetched : option (list WebDevice)) : list WebDevice * DeviceCache :=
  if use_cache && (current_time <? dc_timestamp cache + dc_ttl cache * 1000)
  then (dc_devices cache, cache)
  else match fetched with
       | None => ([], cache)
       | Some devices =>
           (devices,
            {| dc_devices := devices; dc_timestamp := current_time; dc_ttl := 30 |})
       end.

(** [AlarmSpotifyClient.invalidate_cache] *)
Definition invalidate_cache (cache : DeviceCache) : DeviceCache :=
  {| dc_devices := dc_devices cache; dc_timestamp := 0; dc_ttl := dc_ttl cache |}.

Definition attribute_error (name : string) : exn :=
  {| exn_type := "AttributeError";
     exn_msg := "'dict' object has no attribute '" +:+ name +:+ "'" |}.

(** [AlarmSpotifyClient.is_device_online], on the list [get_devices()]
    returned. The devices are dictionaries: reading the attribute
    [is_active] of one raises. *)
Definition is_device_online (devices : list WebDevice) (device_name : string)
  : outcome bool :=
  match get_device_by_name devices device_name with
  | None => Returned false
  | Some device => Raised (attribute_error "is_active")
  end.

(** What [get_device_health] returns. *)
Record DeviceHealth := {
  dh_found : bool;
  dh_online : bool;
  dh_error : option string
}.

(** [AlarmSpotifyClient.get_device_health], on the list [get_devices()]
    returned; the dictionary of a device that was found is never empty. *)
Definition get_device_health (devices : list WebDevice) (device_name : string)
  : outcome DeviceHealth :=
  match get_device_by_name devices device_name with
  | None => Returned {| dh_found := false; dh_online := false;
                        dh_error := Some "Device not found in Spotify API" |}
  | Some device => Raised (attribute_error "is_active")
  end.

(** The client, its clock and what the fetches to come will give: how
    long each takes and its result. *)
Record Client := {
  cl_now : Z;
  cl_cache : DeviceCache;
  cl_fetches : list (N * option (list WebDevice))
}.

(** [get_devices] run by the client; a fetch that never gets an answer
    counts as failed. *)
Definition client_get_devices (use_cache : bool) (c : Client)
  : list WebDevice * Client :=
  let current_time := cl_now c in
  if use_cache && (current_time <? dc_timestamp (cl_cache c) + dc_ttl (cl_cache c) * 1000)
  then (fst (get_devices use_cache current_time (cl_cache c) None), c)
  else match cl_fetches c with
       | [] => ([], c)
       | (latency, fetched) :: rest =>
           let '(devices, cache) :=
             get_devices use_cache current_time (cl_cache c) fetched in
           (devices, {| cl_now := current_time + Z.of_N latency;
                        cl_cache := cache; cl_fetches := rest |})
       end.

(** The loop of [wait_for_device]; [fuel] as in [verify_loop]. *)
Fixpoint wait_for_device_loop (fuel : nat) (device_name : string)
    (start_time timeout : Z) (c : Client) : option WebDevice * Client :=
  if cl_now c - start_time <? timeout then
    match fuel with
    | O => (None, c)
    | S fuel' =>
        let '(devices, c) := client_get_devices true c in
        match get_device_by_name devices device_name with
        | Some device => (Some device, c)
        | None =>
            wait_for_device_loop fuel' device_name start_time timeout
              {| cl_now := cl_now c + 500; cl_cache := cl_cache c;
                 cl_fetches := cl_fetches c |}
        end
    end
  else (None, c).

(** [AlarmSpotifyClient.wait_for_device(device_name, timeout_s)] *)
Definition wait_for_device (device_name : string) (timeout : Z) (c : Client)
  : option WebDevice * Client :=
  wait_for_device_loop (S (Z.to_nat timeout)) device_name (cl_now c) timeout c.

(** Examples: a token that lasts until second 5000, with and without a
    refresh token, and a Spotify that answers every refresh with the
    same new token. *)
Definition token_without_refresh : Token :=
  {| tk_access_token := Some "AT"; tk_refresh_token := None;
     tk_expires_at := Some 5000; tk_expires_in := Some 3600; tk_other := ∅ |}.

Definition token_with_refresh : Token :=
  {| tk_access_token := Some "AT"; tk_refresh_token := Some "RT";
     tk_expires_at := Some 5000; tk_expires_in := Some 3600; tk_other := ∅ |}.

Definition spotify_env : SpotifyEnv :=
  {| env_client_id := Some "id"; env_client_secret := Some "secret";
     env_redirect_uri := Some "http://localhost/callback" |}.

Definition new_access_token : Token :=
  {| tk_access_token := Some "AT2"; tk_refresh_token := None;
     tk_expires_at := None; tk_expires_in := Some 3600; tk_other := ∅ |}.

(** A cache filled at second 100, and two listings. *)
Definition old_cache : DeviceCache :=
  {| dc_devices := [kitchen_speaker]; dc_timestamp := 100000; dc_ttl := 30 |}.

Definition bedroom_speaker : WebDevice :=
  {| wd_id := "D2"; wd_name := "Bedroom"; wd_type := "Speaker";
     wd_is_active := true; wd_is_private_session := false;
     wd_is_restricted := false; wd_volume_percent := 40 |}.

(** A client whose cache is stale, and to whom Spotify lists first the
    bedroom speaker alone and from then on the kitchen speaker as well. *)
Definition waiting_client : Client :=
  {| cl_now := 200000; cl_cache := old_cache;
     cl_fetches := [(300%N, Some [bedroom_speaker]);
                    (300%N, Some [bedroom_speaker; kitchen_speaker])] |}.

(** ** Friendly names and profiles ([device_registry.py]) *)

(** A value of the getInfo answer: [null], a boolean, an integer or
    text. *)
Inductive JVal :=
| JNull
| JBool (b : bool)
| JNum (n : Z)
| JStr (s : string).

(** [bool(v)] *)
Definition jtruthy (v : JVal) : bool :=
  match v with
  | JNull => false
  | JBool b => b
  | JNum n => negb (n =? 0)
  | JStr s => PyStr.truthy s
  end.

(** [str(n)] for an integer. *)
Definition str_of_Z (n : Z) : string := NilZero.string_of_int (Z.to_int n).

(** [str(v)] *)
Definition jstr (v : JVal) : string :=
  match v with
  | JNull => "None"
  | JBool true => "True"
  | JBool false => "False"
  | JNum n => str_of_Z n
  | JStr s => s
  end.

(** What [requests.get(url, timeout=3.0)] gives: an exception, or a
    response with its status code and, if the body is a JSON object, its
    fields. *)
Inductive HttpResult :=
| HttpFailed (e : exn)
| HttpResponse (status_code : Z) (json : option (gmap string JVal)).

(** The URL of the getInfo request. *)
Definition getinfo_url (ip : string) (port : Z) (discovery_cpath : option string)
  : string :=
  "http://" +:+ ip +:+ ":" +:+ str_of_Z port +:+ getinfo_cpath discovery_cpath
  +:+ "/?action=getInfo".

Definition getinfo_name_fields : list string :=
  ["remoteName"; "displayName"; "name"; "deviceName"; "modelDisplayName"].

(** The loop of [_get_friendly_name_from_device_info] over the fields. *)
Fixpoint first_json_name (fields : list string) (data : gmap string JVal)
  : option string :=
  match fields with
  | [] => None
  | field :: rest =>
      match data !! field with
      | Some v =>
          if jtruthy v then
            let friendly_name := PyStr.strip (jstr v) in
            if PyStr.truthy friendly_name then Some friendly_name
            else first_json_name rest data
          else first_json_name rest data
      | None => first_json_name rest data
      end
  end.

(** [DeviceRegistry._get_friendly_name_from_device_info]; [requests_get]
    is the network. *)
Definition _get_friendly_name_from_device_info (requests_get : string -> HttpResult)
    (discovery_result : DiscoveryResult) : option string :=
  match dr_ip discovery_result, dr_port discovery_result with
  | Some ip, Some port =>
      if negb (PyStr.truthy ip) || (port =? 0) then None else
      match requests_get (getinfo_url ip port (dr_cpath discovery_result)) with
      | HttpFailed _ => None
      | HttpResponse status_code json =>
          if status_code =? 200 then
            match json with
            | Some data => first_json_name getinfo_name_fields data
            | None => None
            end
          else None
      end
  | _, _ => None
  end.

(** [txt_records.get(field)] on the TXT records in the order received. *)
Fixpoint txt_get (field : string) (txt_records : list (string * string))
  : option string :=
  match txt_records with
  | [] => None
  | (k, v) :: rest => if String.eqb k field then Some v else txt_get field rest
  end.

Definition txt_name_fields : list string :=
  ["CN"; "Name"; "DisplayName"; "FriendlyName"].

(** The loop of [_extract_friendly_name] over the TXT fields. *)
Fixpoint first_txt_name (fields : list string) (txt_records : list (string * string))
  : option string :=
  match fields with
  | [] => None
  | field :: rest =>
      match txt_get field txt_records with
      | Some v =>
          if PyStr.truthy v then
            let friendly_name := PyStr.strip v in
            if PyStr.truthy friendly_name then Some friendly_name
            else first_txt_name rest txt_records
          else first_txt_name rest txt_records
      | None => first_txt_name rest txt_records
      end
  end.

(** Matching a literal at the start of a text, letter case apart; what
    follows the match is returned. *)
Fixpoint drop_prefix_ci (literal text : list ascii) : option (list ascii) :=
  match literal, text with
  | [], _ => Some text
  | a :: literal', b :: text' =>
      if Ascii.eqb (PyStr.lower_char a) (PyStr.lower_char b)
      then drop_prefix_ci literal' text' else None
  | _ :: _, [] => None
  end.

(** Matching a literal at the end of a text, letter case apart; what
    precedes the match is returned. *)
Definition drop_suffix_ci (literal text : string) : option string :=
  match drop_prefix_ci (rev (list_ascii_of_string literal))
          (rev (list_ascii_of_string text)) with
  | Some r => Some (string_of_list_ascii (rev r))
  | None => None
  end.

Definition newline : ascii := "010"%char.

(** [re.sub(literal + r'\.?$', '', text, flags=re.IGNORECASE)], and with
    [dot = false] the same without [\.?], for a literal that does not end
    with a dot or a newline. [$] matches at the end and before a newline
    that ends the text; the leftmost match is the one with the dot. *)
Definition sub_suffix (literal : string) (dot : bool) (text : string) : string :=
  let '(body, tail) :=
    if PyStr.endswith_char text newline
    then (substring 0 (String.length text - 1) text, String newline "")
    else (text, "") in
  match (if dot then drop_suffix_ci (literal +:+ ".") body else None) with
  | Some p => p +:+ tail
  | None =>
      match drop_suffix_ci literal body with
      | Some p => p +:+ tail
      | None => text
      end
  end.

(** [DeviceRegistry._clean_technical_name_to_friendly] *)
Definition _clean_technical_name_to_friendly (technical_name : string)
  : option string :=
  if negb (PyStr.truthy technical_name) then None else
  let name := PyStr.strip technical_name in
  let original_name := name in
  let cleaned := sub_suffix "_spotify-connect._tcp.local" true name in
  let cleaned := sub_suffix ".spotify-connect._tcp.local" true cleaned in
  let cleaned := sub_suffix "_spotify-connect" false cleaned in
  let cleaned := sub_suffix ".spotify-connect" false cleaned in
  let cleaned := PyStr.strip cleaned in
  if PyStr.truthy cleaned && (3 <=? String.length cleaned)%nat
     && negb (String.eqb cleaned original_name)
  then Some cleaned
  else None.

(** [DeviceRegistry._extract_friendly_name]: the getInfo name, else a TXT
    name, else the cleaned instance name, else the instance name. *)
Definition _extract_friendly_name (requests_get : string -> HttpResult)
    (discovery_result : DiscoveryResult) : option string :=
  let from_device :=
    match _get_friendly_name_from_device_info requests_get discovery_result with
    | Some friendly_name =>
        if PyStr.truthy friendly_name
           && (0 <? String.length (PyStr.strip friendly_name))%nat
        then Some (PyStr.strip friendly_name)
        else None
    | None => None
    end in
  match from_device with
  | Some friendly_name => Some friendly_name
  | None =>
  match first_txt_name txt_name_fields (dr_txt_records discovery_result) with
  | Some friendly_name => Some friendly_name
  | None =>
      match dr_instance_name discovery_result with
      | Some instance_name =>
          if PyStr.truthy instance_name then
            match _clean_technical_name_to_friendly instance_name with
            | Some cleaned_name =>
                if PyStr.truthy cleaned_name
                   && negb (String.eqb cleaned_name instance_name)
                then Some cleaned_name else Some instance_name
            | None => Some instance_name
            end
          else None
      | None => None
      end
  end
  end.

(** [DeviceRegistry._create_device_profile]. The constructor gets the
    friendly name, the instance name, no cloud names, the address found,
    [cpath or "/"], the configured default volume and 22 s of wake wait;
    [auth_mode_for_adduser], always "access_token", is not a field of this
    model. *)
Definition _create_device_profile (requests_get : string -> HttpResult)
    (default_volume : Z) (discovery_result : DiscoveryResult)
  : option DeviceProfile :=
  if negb (is_complete discovery_result) then None else
  match _extract_friendly_name requests_get discovery_result with
  | None => None
  | Some device_name =>
      if negb (PyStr.truthy device_name) then None else
      Some {| dp_name := device_name;
              dp_instance_name := dr_instance_name discovery_result;
              dp_spotify_device_names := [];
              dp_ip := dr_ip discovery_result;
              dp_port := dr_port discovery_result;
              dp_cpath := Some (or_default (dr_cpath discovery_result) "/");
              dp_volume_preset := default_volume;
              dp_max_wake_wait_s := 22 |}
  end.

(** [DeviceStatus] *)
Record DeviceStatus := {
  ds_name : string;
  ds_ip : option string;
  ds_port : option Z;
  ds_cpath : option string;
  ds_is_online : bool;
  ds_last_seen : Z;
  ds_response_time_ms : option Z;
  ds_health_error : option string
}.

(** What [check_device_health] returns: [responding], and the keys
    [response_time_ms] and [error] where present. *)
Record HealthInfo := {
  hi_responding : bool;
  hi_response_time_ms : option Z;
  hi_error : option string
}.

(** [d[key] = value] on a dictionary kept in insertion order: a key that
    is there keeps its place. *)
Fixpoint dict_set {V} (key : string) (value : V) (d : list (string * V))
  : list (string * V) :=
  match d with
  | [] => [(key, value)]
  | (k, v) :: rest =>
      if String.eqb k key then (k, value) :: rest
      else (k, v) :: dict_set key value rest
  end.

(** [d.get(key)] *)
Fixpoint dict_get {V} (key : string) (d : list (string * V)) : option V :=
  match d with
  | [] => None
  | (k, v) :: rest => if String.eqb k key then Some v else dict_get key rest
  end.

(** [DeviceRegistry._update_device_status]: one health check per profile,
    in order; a check that raises ends the loop with the statuses written
    so far. *)
Fixpoint _update_device_status
    (check_device_health : DeviceProfile -> outcome HealthInfo) (current_time : Z)
    (device_profiles : list DeviceProfile)
    (device_status : list (string * DeviceStatus))
  : outcome unit * list (string * DeviceStatus) :=
  match device_profiles with
  | [] => (Returned tt, device_status)
  | profile :: rest =>
      match check_device_health profile with
      | Raised e => (Raised e, device_status)
      | Returned health_info =>
          let status :=
            {| ds_name := dp_name profile; ds_ip := dp_ip profile;
               ds_port := dp_port profile; ds_cpath := dp_cpath profile;
               ds_is_online := hi_responding health_info;
               ds_last_seen := current_time;
               ds_response_time_ms := hi_response_time_ms health_info;
               ds_health_error := hi_error health_info |} in
          _update_device_status check_device_health current_time rest
            (dict_set (dp_name profile) status device_status)
      end
  end.

(** The registry object: [device_status] and [discovery_cache], the
    latter [None] while it is the empty dictionary. *)
Record Registry := {
  device_status : list (string * DeviceStatus);
  discovery_cache : option (list DeviceProfile * Z)
}.

(** [DeviceRegistry.__init__] *)
Definition new_registry : Registry :=
  {| device_status := []; discovery_cache := None |}.

(** [self.cache_ttl], in seconds. *)
Definition cache_ttl : Z := 300.

(** The profiles of the devices found, in order. *)
Fixpoint create_profiles (requests_get : string -> HttpResult) (default_volume : Z)
    (discovered_devices : list DiscoveryResult) : list DeviceProfile :=
  match discovered_devices with
  | [] => []
  | device :: rest =>
      match _create_device_profile requests_get default_volume device with
      | Some profile =>
          profile :: create_profiles requests_get default_volume rest
      | None => create_profiles requests_get default_volume rest
      end
  end.

(** [DeviceRegistry.discover_devices(force_refresh)]. [current_time] is
    the clock at the call and [status_time] the clock when the statuses are
    written, both in milliseconds; [discover_all_connect_devices] is what
    the mDNS browse gives. The cache is written before the statuses are, so
    a health check that raises leaves the new cache behind. *)
Definition discover_devices (requests_get : string -> HttpResult)
    (check_device_health : DeviceProfile -> outcome HealthInfo)
    (default_volume : Z)
    (discover_all_connect_devices : outcome (list DiscoveryResult))
    (current_time status_time : Z) (force_refresh : bool) (self : Registry)
  : list DeviceProfile * Registry :=
  let cached :=
    if force_refresh then None else
    match discovery_cache self with
    | Some (devices, last_discovery) =>
        if current_time - last_discovery <? cache_ttl * 1000 then Some devices
        else None
    | None => None
    end in
  match cached with
  | Some devices => (devices, self)
  | None =>
      match discover_all_connect_devices with
      | Raised _ => ([], self)
      | Returned discovered_devices =>
          let device_profiles :=
            create_profiles requests_get default_volume discovered_devices in
          let '(r, status) :=
            _update_device_status check_device_health status_time device_profiles
              (device_status self) in
          let self := {| device_status := status;
                         discovery_cache := Some (device_profiles, current_time) |} in
          match r with
          | Returned _ => (device_profiles, self)
          | Raised _ => ([], self)
          end
      end
  end.

(** [DeviceRegistry.get_device_status] *)
Definition registry_get_device_status (device_name : string) (self : Registry)
  : option DeviceStatus :=
  dict_get device_name (device_status self).

(** Examples: a speaker that answers getInfo with its name, one that
    does not answer, and health checks that succeed or fail. *)
Definition den_found : DiscoveryResult :=
  {| dr_ip := Some "10.0.0.9"; dr_port := Some 1400; dr_cpath := Some "/zc";
     dr_instance_name := Some "den._spotify-connect._tcp.local.";
     dr_txt_records := [("CN", "Den TXT")] |}.

Definition getinfo_named (name : string) : string -> HttpResult :=
  fun _ => HttpResponse 200 (Some {["remoteName" := JStr name]}).

Definition no_getinfo : string -> HttpResult :=
  fun _ => HttpFailed {| exn_type := "ConnectionError"; exn_msg := "refused" |}.

Definition healthy : DeviceProfile -> outcome HealthInfo :=
  fun _ => Returned {| hi_responding := true; hi_response_time_ms := Some 12;
                       hi_error := None |}.

Definition health_check_fails : DeviceProfile -> outcome HealthInfo :=
  fun _ => Raised {| exn_type := "KeyError"; exn_msg := "responding" |}.

(** ** The engine as an object *)

(** [AlarmPlaybackEngine.__init__]: the registry and the breakers, filled
    from [cfg.targets] in order; a later target of the same name replaces
    the earlier one. *)
Fixpoint register_targets (targets : list DeviceProfile)
    (reg : gmap string DeviceProfile) (cb : gmap string CircuitBreakerState)
  : gmap string DeviceProfile * gmap string CircuitBreakerState :=
  match targets with
  | [] => (reg, cb)
  | device :: rest =>
      register_targets rest (<[dp_name device := device]> reg)
        (<[dp_name device := new_breaker (dp_name device)]> cb)
  end.

(** The engine [__init__] leaves, in a world at time [t] that will answer
    with [sc]. *)
Definition new_engine (targets : list DeviceProfile) (t : Z) (sc : list Response)
  : St :=
  let '(reg, cb) := register_targets targets ∅ ∅ in
  {| now := t; script := sc; calls := []; registry := reg; circuit_breakers := cb;
     metrics := new_metrics; minimal_profile := minimal_device_profile "";
     state := UNKNOWN |}.

Definition key_error (key : string) : exn :=
  {| exn_type := "KeyError"; exn_msg := key |}.

(** [AlarmPlaybackEngine.get_device_status]: the profile and the breaker
    the status is built from. *)
Definition get_device_status (target_name : string) (s : St)
  : outcome (DeviceProfile * CircuitBreakerState) :=
  match registry s !! target_name with
  | None => Raised (value_error ("Target device '" +:+ target_name +:+ "' not found"))
  | Some target =>
      match circuit_breakers s !! target_name with
      | None => Raised (key_error target_name)
      | Some cb_state => Returned (target, cb_state)
      end
  end.

(** One alarm after the other, whatever each run returns or raises. *)
Fixpoint play_alarms (cfg : AlarmPlaybackConfig) (target_names : list string) (s : St)
  : St :=
  match target_names with
  | [] => s
  | target_name :: rest => play_alarms cfg rest (snd (play_alarm cfg target_name s))
  end.

(** From [s] to [s'] only the profile and the breaker of [t] may have
    changed; no profile has come, gone or changed its name, and no breaker
    has gone. *)
Definition touches_only (t : string) (s s' : St) : Prop :=
  forall k,
    (k <> t -> registry s' !! k = registry s !! k
               /\ circuit_breakers s' !! k = circuit_breakers s !! k)
    /\ dp_name <$> (registry s' !! k) = dp_name <$> (registry s !! k)
    /\ (is_Some (circuit_breakers s !! k) -> is_Some (circuit_breakers s' !! k)).

(** [target] stands for the profile of [t]. *)
Definition target_of (t : string) (target : target_ref) : Prop :=
  target = Registered t \/ target = Minimal.

(** [m] is confined to the target [t]. *)
Definition confined {A} (t : string) (m : M A) : Prop :=
  forall s, touches_only t s (snd (m s)).

(** Two registered devices in a world that answers nothing. *)
Definition office : DeviceProfile :=
  {| dp_name := "Office"; dp_instance_name := None;
     dp_spotify_device_names := ["Office Play:5"]; dp_ip := Some "10.0.0.7";
     dp_port := Some 1400; dp_cpath := Some "/zc"; dp_volume_preset := 20;
     dp_max_wake_wait_s := 22 |}.

Definition two_targets : St := new_engine [kitchen_at_address; office] 1000 [].

(* ================================================================== *)
(** * Properties *)

(** ** Strings *)

Lemma append_nil_l (q : string) : "" +:+ q = q.
Proof. reflexivity. Qed.

Lemma append_cons (c : ascii) (a q : string) :
  String c a +:+ q = String c (a +:+ q).
Proof. reflexivity. Qed.

Lemma prefix_true_iff (a b : string) :
  String.prefix a b = true <-> exists q, b = a +:+ q.
Proof.
  revert b. induction a as [|c a IH]; intros b.
  - split; [intros _; exists b; reflexivity | intros _; destruct b; reflexivity].
  - destruct b as [|c' b]; simpl.
    + split; [discriminate | intros [q Hq]; discriminate].
    + destruct (ascii_dec c c') as [->|Hne].
      * rewrite IH. split; intros [q Hq]; exists q;
          rewrite append_cons in *; congruence.
      * split; [discriminate | intros [q Hq]; rewrite append_cons in Hq; congruence].
Qed.

Lemma contains_nil (a : string) :
  PyStr.contains a "" = String.prefix a "" || false.
Proof. reflexivity. Qed.

Lemma contains_cons (a : string) (c : ascii) (b : string) :
  PyStr.contains a (String c b) = String.prefix a (String c b) || PyStr.contains a b.
Proof. reflexivity. Qed.

Lemma contains_true_iff (a b : string) :
  PyStr.contains a b = true <-> is_substring a b.
Proof.
  unfold is_substring. induction b as [|c b IH].
  - rewrite contains_nil, orb_false_r, prefix_true_iff. split.
    + intros [q Hq]. exists "", q. exact Hq.
    + intros [p [q Hq]]. destruct p; [eauto | discriminate].
  - rewrite contains_cons, orb_true_iff, IH, prefix_true_iff. split.
    + intros [[q Hq] | [p [q Hq]]].
      * exists "", q. exact Hq.
      * exists (String c p), q. rewrite append_cons. congruence.
    + intros [p [q Hq]]. destruct p as [|c' p].
      * left. eauto.
      * right. exists p, q. rewrite append_cons in Hq. congruence.
Qed.

(** ** Loops that return the first hit *)

Lemma first_where_Some {A} (p : A -> bool) l d :
  first_where p l = Some d -> first_such (fun x => p x = true) l d.
Proof.
  induction l as [|x r IH]; simpl; [discriminate|].
  destruct (p x) eqn:Hx.
  - intros [= ->]. exists [], r. auto.
  - intros H. destruct (IH H) as (l1 & l2 & -> & Hd & Hall).
    exists (x :: l1), l2. repeat split; auto.
    constructor; [congruence | exact Hall].
Qed.

Lemma first_where_None {A} (p : A -> bool) l :
  first_where p l = None -> Forall (fun x => p x = false) l.
Proof.
  induction l as [|x r IH]; simpl; [constructor|].
  destruct (p x) eqn:Hx; [discriminate|]. auto.
Qed.

Lemma first_such_impl {A} (P Q : A -> Prop) l d :
  (forall x, P x <-> Q x) -> first_such P l d -> first_such Q l d.
Proof.
  intros HPQ (l1 & l2 & -> & Hd & Hall). exists l1, l2. repeat split.
  - apply HPQ, Hd.
  - eapply Forall_impl; [exact Hall|]. intros x Hx HQ. apply Hx, HPQ, HQ.
Qed.

(** ** The web interface's lookup is not exact-match *)

(** C10. [get_device_by_name] runs three passes over the device list: an
    exact comparison of names, then a comparison of the lowercased names,
    then a test that the lowercased request occurs anywhere inside the
    lowercased device name; each pass returns its first hit, [None] is
    returned only when no device name contains the request, and a partial
    name such as "kitch" selects "Kitchen Speaker". *)
Theorem get_device_by_name_three_passes (devices : list WebDevice) (n : string) :
  match get_device_by_name devices n with
  | Some d =>
      first_such (fun x => wd_name x = n) devices d
      \/ (Forall (fun x => wd_name x <> n) devices /\
          first_such (fun x => PyStr.lower (wd_name x) = PyStr.lower n) devices d)
      \/ (Forall (fun x => wd_name x <> n) devices /\
          Forall (fun x => PyStr.lower (wd_name x) <> PyStr.lower n) devices /\
          first_such (fun x => is_substring (PyStr.lower n) (PyStr.lower (wd_name x)))
                     devices d)
  | None =>
      Forall (fun x => ~ is_substring (PyStr.lower n) (PyStr.lower (wd_name x))) devices
  end
  /\ get_device_by_name [kitchen_speaker] "kitch" = Some kitchen_speaker.
Proof.
  split; [|reflexivity].
  unfold get_device_by_name.
  destruct (first_where _ devices) as [d|] eqn:H1.
  { left. apply first_where_Some in H1.
    eapply first_such_impl; [|exact H1]. intros x. apply String.eqb_eq. }
  apply first_where_None in H1.
  assert (Hne : Forall (fun x => wd_name x <> n) devices).
  { eapply Forall_impl; [exact H1|]. intros x Hx. apply String.eqb_neq, Hx. }
  destruct (first_where _ devices) as [d|] eqn:H2.
  { right; left. split; [exact Hne|]. apply first_where_Some in H2.
    eapply first_such_impl; [|exact H2]. intros x. apply String.eqb_eq. }
  apply first_where_None in H2.
  assert (Hnl : Forall (fun x => PyStr.lower (wd_name x) <> PyStr.lower n) devices).
  { eapply Forall_impl; [exact H2|]. intros x Hx. apply String.eqb_neq, Hx. }
  destruct (first_where _ devices) as [d|] eqn:H3.
  - right; right. repeat split; auto. apply first_where_Some in H3.
    eapply first_such_impl; [|exact H3]. intros x. apply contains_true_iff.
  - apply first_where_None in H3.
    eapply Forall_impl; [exact H3|]. intros x Hx Hs.
    apply contains_true_iff in Hs. congruence.
Qed.

(** ** Device matching is exact *)

Lemma filter_truthy_idemp (l : list string) :
  List.filter PyStr.truthy (List.filter PyStr.truthy l) = List.filter PyStr.truthy l.
Proof.
  induction l as [|x l IH]; simpl; [reflexivity|].
  destruct (PyStr.truthy x) eqn:Hx; simpl; rewrite ?Hx, IH; reflexivity.
Qed.

Lemma truthy_true_iff (s : string) : PyStr.truthy s = true <-> s <> "".
Proof. destruct s; simpl; split; congruence. Qed.

Lemma pick_loop_Some (S : gset string) l d :
  pick_loop S l = Some d ->
  first_such (fun x => cd_name x <> "" /\ normalize (cd_name x) ∈ S) l d.
Proof.
  induction l as [|x r IH]; simpl; [discriminate|].
  destruct (PyStr.truthy (cd_name x)) eqn:Hx; simpl.
  - case_bool_decide as Hin.
    + intros [= ->]. exists [], r. repeat split; auto.
      apply truthy_true_iff, Hx.
    + intros H. destruct (IH H) as (l1 & l2 & -> & Hd & Hall).
      exists (x :: l1), l2. repeat split; try apply Hd.
      constructor; [tauto | exact Hall].
  - intros H. destruct (IH H) as (l1 & l2 & -> & Hd & Hall).
    exists (x :: l1), l2. repeat split; try apply Hd.
    constructor; [|exact Hall].
    intros [Hne _]. apply truthy_true_iff in Hne. congruence.
Qed.

Lemma pick_loop_None (S : gset string) l :
  pick_loop S l = None ->
  Forall (fun x => cd_name x = "" \/ normalize (cd_name x) ∉ S) l.
Proof.
  induction l as [|x r IH]; simpl; [constructor|].
  destruct (PyStr.truthy (cd_name x)) eqn:Hx; simpl.
  - case_bool_decide as Hin; [discriminate|]. intros H. constructor; auto.
  - intros H. constructor; auto. left. destruct (cd_name x); [reflexivity|discriminate].
Qed.

Lemma pick_device_set (registry : gmap string DeviceProfile) (t : string) :
  t <> "" ->
  list_to_set (normalize <$> List.filter PyStr.truthy
     match _get_target_profile registry t with
     | Some target_profile => get_all_matching_names target_profile
     | None => [t]
     end) = normalized_names registry t.
Proof.
  intros Ht. unfold normalized_names, _get_target_profile.
  destruct (registry !! t) as [p|].
  - unfold get_all_matching_names. rewrite filter_truthy_idemp. reflexivity.
  - simpl. apply truthy_true_iff in Ht. rewrite Ht. reflexivity.
Qed.

(** C1, as stated, fails: a cloud device without a name is skipped by the
    guard [if not device.name: continue] even when the empty string is among
    the normalised names (a target made of blanks). The device returned is
    then not the first one whose normalised name is in the set. *)
Lemma pick_device_skips_unnamed :
  _pick_device ∅ [cloud_device "A" ""; cloud_device "B" " "] " "
    = Some (cloud_device "B" " ")
  /\ ~ first_normalized_match ∅ [cloud_device "A" ""; cloud_device "B" " "] " "
        (cloud_device "B" " ").
Proof.
  split; [reflexivity|].
  intros (l1 & l2 & Heq & _ & Hall).
  destruct l1 as [|x l1]; [discriminate|].
  injection Heq as <- _. inversion Hall as [|? ? Hx _]; subst.
  apply Hx. vm_compute. reflexivity.
Qed.

(** C1 (amended). Whenever [_pick_device] returns a device, its name is not
    empty, its trimmed and lowercased name is one of the target's trimmed
    and lowercased matching names (those of the profile, or the target name
    alone when there is no profile), and it is the first device of the
    cloud's list with a non-empty name for which this holds. When nothing is
    returned, the list or the target name is empty or no named device
    matches. A name that only contains or extends a stored name selects
    nothing: "Kitchen Speaker" is not picked for "Kitchen". *)
Theorem pick_device_exact_match (registry : gmap string DeviceProfile)
    (devices : list CloudDevice) (target_name : string) :
  match _pick_device registry devices target_name with
  | Some d =>
      normalize (cd_name d) ∈ normalized_names registry target_name
      /\ first_such (fun x => cd_name x <> "" /\
             normalize (cd_name x) ∈ normalized_names registry target_name)
           devices d
  | None =>
      devices = [] \/ target_name = "" \/
      Forall (fun x => cd_name x = "" \/
                normalize (cd_name x) ∉ normalized_names registry target_name)
             devices
  end
  /\ _pick_device ∅ [cloud_device "D1" "Kitchen Speaker"] "Kitchen" = None
  /\ _pick_device ∅ [cloud_device "D1" "Kitchen Speaker"; cloud_device "D2" " KITCHEN "]
        "Kitchen" = Some (cloud_device "D2" " KITCHEN ").
Proof.
  split; [|split; reflexivity].
  unfold _pick_device.
  destruct devices as [|d0 rest]; [left; reflexivity|].
  destruct (PyStr.truthy target_name) eqn:Ht; simpl negb; cbv iota.
  2:{ right; left. destruct target_name; [reflexivity|discriminate]. }
  apply truthy_true_iff in Ht.
  cbv zeta. rewrite (pick_device_set registry target_name Ht).
  destruct (pick_loop _ (d0 :: rest)) as [d|] eqn:Hp.
  - apply pick_loop_Some in Hp. split; [|exact Hp].
    destruct Hp as (? & ? & _ & [_ Hin] & _). exact Hin.
  - right; right. apply pick_loop_None, Hp.
Qed.

(** ** cpath normalisation *)

Lemma rstrip_by_last (p : ascii -> bool) (s : string) (c : ascii) :
  PyStr.endswith_char (PyStr.rstrip_by p s) c = true -> p c = false.
Proof.
  induction s as [|a r IH]; simpl; [discriminate|].
  destruct (PyStr.rstrip_by p r) as [|b r'] eqn:Hr.
  - destruct (p a) eqn:Ha; simpl; [discriminate|].
    intros H. apply Ascii.eqb_eq in H. congruence.
  - intros H. apply IH. exact H.
Qed.

Lemma rstrip_by_head (p : ascii -> bool) (c : ascii) (r : string) :
  PyStr.rstrip_by p (String c r) = "" \/
  exists r', PyStr.rstrip_by p (String c r) = String c r'.
Proof.
  simpl. destruct (PyStr.rstrip_by p r).
  - destruct (p c); eauto.
  - eauto.
Qed.

Lemma startswith_slash (s : string) :
  PyStr.startswith s "/" = true -> exists r, s = String "/" r.
Proof.
  unfold PyStr.startswith. intros H. apply prefix_true_iff in H as [q ->].
  exists q. reflexivity.
Qed.

(** Where the normalisation does what it is meant to: unless everything is
    stripped away, the result starts with a slash and does not end with
    one; unset, empty, blank and "/" inputs give the default path. *)
Lemma getinfo_cpath_shape (c : option string) :
  getinfo_cpath c = ""
  \/ (PyStr.startswith (getinfo_cpath c) "/" = true
      /\ PyStr.endswith_char (getinfo_cpath c) "/" = false).
Proof.
  unfold getinfo_cpath.
  set (c1 := or_default c default_cpath).
  match goal with |- context [if ?b then default_cpath else c1] =>
    set (c2 := if b then default_cpath else c1) end.
  set (c3 := if negb (PyStr.startswith c2 "/") then "/" +:+ c2 else c2).
  assert (H3 : exists r, c3 = String "/" r).
  { subst c3. destruct (PyStr.startswith c2 "/") eqn:Hs; simpl.
    - apply startswith_slash, Hs.
    - exists c2. reflexivity. }
  destruct H3 as [r Hr]. rewrite Hr.
  destruct (rstrip_by_head PyStr.is_slash "/" r) as [He | [r' He]]; [left; exact He|].
  right. split.
  - rewrite He. destruct r'; reflexivity.
  - destruct (PyStr.endswith_char _ "/") eqn:Hend; [|reflexivity].
    apply rstrip_by_last in Hend. discriminate.
Qed.

Lemma getinfo_cpath_defaults :
  getinfo_cpath None = default_cpath
  /\ getinfo_cpath (Some "") = default_cpath
  /\ getinfo_cpath (Some "/") = default_cpath
  /\ getinfo_cpath (Some "zc/") = "/zc".
Proof. repeat split. Qed.

(** C5, where the code departs from it. The input "//" is neither empty nor
    "/" and already starts with a slash, so nothing is prepended;
    [rstrip("/")] then removes every character. The result is the empty
    string: it does not start with a slash, and the getInfo URL is built on
    the device's root instead of the default path. *)
Theorem getinfo_cpath_double_slash :
  getinfo_cpath (Some "//") = ""
  /\ PyStr.startswith (getinfo_cpath (Some "//")) "/" = false
  /\ getinfo_cpath (Some "///") = "".
Proof. repeat split. Qed.

(** ** Base64 *)

Lemma b64_index_char (s : sextet) : b64_index (b64_char s) = Some s.
Proof. destruct s as [[] [] [] [] [] []]; reflexivity. Qed.

Lemma b64_char_not_pad (s : sextet) : Ascii.eqb (b64_char s) pad = false.
Proof. destruct s as [[] [] [] [] [] []]; reflexivity. Qed.

Lemma list_ind3 {A} (P : list A -> Prop) :
  P [] -> (forall a, P [a]) -> (forall a b, P [a; b]) ->
  (forall a b c r, P r -> P (a :: b :: c :: r)) ->
  forall l, P l.
Proof.
  intros H0 H1 H2 H3 l.
  enough (H : P l /\ (forall a, P (a :: l)) /\ (forall a b, P (a :: b :: l)))
    by apply H.
  induction l as [|x l (IHa & IHb & IHc)]; repeat split; auto.
Qed.

Lemma b64encode_3 (a b c : ascii) (r : bytes) :
  b64encode (a :: b :: c :: r) =
  let 'Ascii a0 a1 a2 a3 a4 a5 a6 a7 := a in
  let 'Ascii b0 b1 b2 b3 b4 b5 b6 b7 := b in
  let 'Ascii c0 c1 c2 c3 c4 c5 c6 c7 := c in
  b64_char (Sextet a7 a6 a5 a4 a3 a2)
  :: b64_char (Sextet a1 a0 b7 b6 b5 b4)
  :: b64_char (Sextet b3 b2 b1 b0 c7 c6)
  :: b64_char (Sextet c5 c4 c3 c2 c1 c0)
  :: b64encode r.
Proof. destruct a, b, c. reflexivity. Qed.

#[local] Arguments b64_char : simpl never.
#[local] Arguments b64_index : simpl never.

(** Decoding undoes encoding. *)
Lemma b64decode_encode (l : bytes) : b64decode (b64encode l) = Some l.
Proof.
  induction l as [|a|a b|a b c r IH] using list_ind3.
  - reflexivity.
  - destruct a. simpl. rewrite !b64_index_char. reflexivity.
  - destruct a, b. simpl. rewrite !b64_index_char, b64_char_not_pad. reflexivity.
  - rewrite b64encode_3. destruct a, b, c. simpl.
    rewrite !b64_index_char, b64_char_not_pad, IH. reflexivity.
Qed.

(** ** Counter mode *)

Lemma xorb_twice (a k : bool) : xorb (xorb a k) k = a.
Proof. destruct a, k; reflexivity. Qed.

Lemma xor_byte_involutive (a k : ascii) : xor_byte (xor_byte a k) k = a.
Proof. destruct a, k. simpl. rewrite !xorb_twice. reflexivity. Qed.

Lemma ctr_from_involutive (aes : bytes -> bytes -> bytes) (key iv : bytes)
    (j : nat) (data : bytes) :
  ctr_from aes key iv j (ctr_from aes key iv j data) = data.
Proof.
  revert j. induction data as [|b r IH]; intros j; simpl; [reflexivity|].
  rewrite xor_byte_involutive, IH. reflexivity.
Qed.

Lemma ctr_from_length (aes : bytes -> bytes -> bytes) (key iv : bytes)
    (j : nat) (data : bytes) :
  length (ctr_from aes key iv j data) = length data.
Proof.
  revert j. induction data as [|b r IH]; intros j; simpl; [reflexivity|].
  rewrite IH. reflexivity.
Qed.

(** ** The encrypted blob *)



Example b64encode_hello :
  string_of_list_ascii (b64encode (list_ascii_of_string "hello world")) = "aGVsbG8gd29ybGQ=".
Proof. reflexivity. Qed.

(** ** The simple blob *)

(** C9, as stated, fails: a token dictionary without [access_token], or
    with an empty one, makes [generate_spotify_blob_simple] return
    "username:password", not the token's [access_token]. *)
Lemma simple_blob_without_access_token :
  generate_spotify_blob_simple "user" "pw" ∅ = "user:pw"
  /\ ({["access_token" := ""]} : gmap string string) !! "access_token" = Some ""
  /\ generate_spotify_blob_simple "user" "pw" {["access_token" := ""]} = "user:pw"
  /\ generate_spotify_blob_simple "user" "pw" {["access_token" := ""]} <> "".
Proof. repeat split. discriminate. Qed.

(** C9 (amended). When the encrypted blob cannot be produced,
    [generate_spotify_blob] returns the simple blob paired with an empty
    client key; the simple blob is the token's [access_token] when the
    dictionary has a non-empty one, and "username:password" otherwise. *)
Theorem simple_blob_fallback
    (hmac_sha1 aes_encrypt_block : bytes -> bytes -> bytes)
    (dh_exchange : bytes -> bytes -> outcome bytes)
    (username password : string) (token : gmap string string)
    (device_name : string) (keypair : outcome (bytes * bytes))
    (device_public_key iv : bytes) (e : exn) :
  generate_encrypted_blob hmac_sha1 aes_encrypt_block dh_exchange
    username password token keypair device_public_key iv = Raised e ->
  generate_spotify_blob hmac_sha1 aes_encrypt_block dh_exchange
    username password token device_name keypair device_public_key iv
  = (generate_spotify_blob_simple username password token, "")
  /\ (forall a, token !! "access_token" = Some a -> a <> "" ->
        generate_spotify_blob_simple username password token = a)
  /\ (token !! "access_token" = None \/ token !! "access_token" = Some "" ->
        generate_spotify_blob_simple username password token
        = username +:+ ":" +:+ password).
Proof.
  intros He. unfold generate_spotify_blob. rewrite He.
  split; [reflexivity|]. unfold generate_spotify_blob_simple. split.
  - intros a -> Ha. destruct a; [congruence | reflexivity].
  - intros [-> | ->]; reflexivity.
Qed.

Lemma simple_blob_fallback_witness :
  generate_spotify_blob toy_hmac toy_block toy_exchange
    "user" "pw" {["access_token" := "BQDtoken"]} "Kitchen"
    (Returned (["a"%char], ["b"%char])) [] (repeat "i"%char 16)
  = (generate_spotify_blob_simple "user" "pw" {["access_token" := "BQDtoken"]}, "")
  /\ (forall a, ({["access_token" := "BQDtoken"]} : gmap string string)
                  !! "access_token" = Some a -> a <> "" ->
        generate_spotify_blob_simple "user" "pw" {["access_token" := "BQDtoken"]} = a)
  /\ (({["access_token" := "BQDtoken"]} : gmap string string) !! "access_token" = None
      \/ ({["access_token" := "BQDtoken"]} : gmap string string) !! "access_token"
         = Some "" ->
        generate_spotify_blob_simple "user" "pw" {["access_token" := "BQDtoken"]}
        = "user" +:+ ":" +:+ "pw").
Proof.
  apply (simple_blob_fallback toy_hmac toy_block toy_exchange
           "user" "pw" {["access_token" := "BQDtoken"]} "Kitchen"
           (Returned (["a"%char], ["b"%char])) [] (repeat "i"%char 16)
           {| exn_type := "ValueError"; exn_msg := "invalid public key" |}).
  reflexivity.
Defined.

(** ** A logic of runs *)

Section RunLogic.

Variable t0 : Z.
Variable reg0 : gmap string DeviceProfile.

#[local] Abbreviation inv := (Inv t0 reg0).
#[local] Abbreviation kp := (keeps t0 reg0).
#[local] Abbreviation is_early := (early t0).
#[local] Abbreviation is_short := (short t0).

Ltac fin3 := split; [ | split; [ | ]].

Lemma stable_true : stable (fun _ => True).
Proof. intros s s' _ _. exact I. Qed.

Lemma stable_and (F G : St -> Prop) : stable F -> stable G -> stable (fun s => F s /\ G s).
Proof. intros HF HG s s' Hle [HFs HGs]. split; eauto. Qed.

Lemma stable_early (x : Z) : stable (is_early x).
Proof. unfold stable, early. intros. lia. Qed.

Lemma stable_short (d : Z) : stable (is_short d).
Proof. unfold stable, short. intros. lia. Qed.

Lemma stable_top {A} (a : A) : stable (top a).
Proof. intros s s' _ _. exact I. Qed.

Lemma kp_weaken {A} (F F' : St -> Prop) (m : M A) (Q Q' : A -> St -> Prop) :
  kp F m Q -> (forall s, F' s -> F s) -> (forall a s, Q a s -> Q' a s) ->
  kp F' m Q'.
Proof.
  intros H HF HQ s HI HFs. specialize (H s HI (HF s HFs)).
  destruct (m s) as [[a|e] s']; intuition.
Qed.

Lemma kp_ret {A} (F : St -> Prop) (a : A) (Q : A -> St -> Prop) :
  (forall s, F s -> Q a s) -> kp F (ret a) Q.
Proof. intros HQ s HI HF. simpl. fin3; auto; lia. Qed.

Lemma kp_raise {A} (F : St -> Prop) (e : exn) (Q : A -> St -> Prop) :
  kp F (raise e) Q.
Proof. intros s HI HF. simpl. fin3; auto; lia. Qed.

Lemma kp_bind {A B} (F : St -> Prop) (m : M A) (k : A -> M B)
    (Q : A -> St -> Prop) (Q' : B -> St -> Prop) :
  stable F ->
  kp F m Q ->
  (forall a, kp (fun s => F s /\ Q a s) (k a) Q') ->
  kp F (bind m k) Q'.
Proof.
  intros HS Hm Hk s HI HF. unfold bind. specialize (Hm s HI HF).
  destruct (m s) as [[a|e] s1]; destruct Hm as (HI1 & Hle & HQ).
  - specialize (Hk a s1 HI1 (conj (HS _ _ Hle HF) HQ)).
    destruct (k a s1) as [r s2]. destruct Hk as (HI2 & Hle2 & HQ2).
    fin3; auto; lia.
  - fin3; auto.
Qed.

Lemma kp_try_catch {A} (F : St -> Prop) (m : M A) (h : exn -> M A)
    (Q : A -> St -> Prop) :
  stable F ->
  kp F m Q -> (forall e, kp F (h e) Q) -> kp F (try_catch m h) Q.
Proof.
  intros HS Hm Hh s HI HF. unfold try_catch. specialize (Hm s HI HF).
  destruct (m s) as [[a|e] s1]; destruct Hm as (HI1 & Hle & HQ).
  - fin3; auto.
  - specialize (Hh e s1 HI1 (HS _ _ Hle HF)).
    destruct (h e s1) as [r s2]. destruct Hh as (HI2 & Hle2 & HQ2).
    fin3; auto; lia.
Qed.

Lemma kp_gets {A} (F : St -> Prop) (f : St -> A) (Q : A -> St -> Prop) :
  (forall s, inv s -> F s -> Q (f s) s) -> kp F (gets f) Q.
Proof. intros HQ s HI HF. simpl. fin3; auto; lia. Qed.

Lemma kp_time_time (F : St -> Prop) : kp F time_time is_early.
Proof.
  apply kp_gets. intros s (H0 & _) _. unfold early. lia.
Qed.

Lemma kp_elapsed_ms (F : St -> Prop) (x : Z) :
  (forall s, F s -> is_early x s) -> kp F (elapsed_ms x) is_short.
Proof.
  intros Hx. apply kp_gets. intros s (H0 & _) HF.
  specialize (Hx s HF). unfold early, short in *. lia.
Qed.

Lemma kp_elapsed_ms_t0 (F : St -> Prop) : kp F (elapsed_ms t0) is_short.
Proof.
  apply kp_gets. intros s (H0 & _) HF. unfold short. lia.
Qed.

Lemma kp_modify (F : St -> Prop) (f : St -> St) :
  (forall s, inv s -> F s -> inv (f s) /\ now s <= now (f s)) ->
  kp F (modify f) top.
Proof.
  intros Hf s HI HF. simpl. destruct (Hf s HI HF). fin3; auto. exact I.
Qed.

Lemma field_ok_mono (a b : Z) (f : option Z) : a <= b -> field_ok a f -> field_ok b f.
Proof. destruct f; simpl; intros; lia || auto. Qed.

Lemma bounded_mono (a b : Z) (m : PhaseMetrics) : a <= b -> bounded a m -> bounded b m.
Proof.
  unfold bounded. intros Hle H. decompose [and] H.
  repeat split; eapply field_ok_mono; eauto.
Qed.

(** The world moves: the clock advances, answers are consumed, calls are
    recorded. *)
Lemma inv_with_world (s : St) (t : Z) (sc : list Response) (cs : list Call) :
  now s <= t -> inv s -> inv (with_world t sc cs s).
Proof.
  intros Hle (H0 & Hb & Hr & He). repeat split; simpl; auto; try lia.
  all: try (eapply field_ok_mono; [|apply Hb]; lia).
Qed.

Lemma kp_sleep (F : St -> Prop) (d : Z) : kp F (sleep d) top.
Proof.
  unfold sleep. destruct (d <? 0) eqn:Hd; [apply kp_raise|].
  apply kp_modify. intros s HI _. apply Z.ltb_ge in Hd.
  split; [apply inv_with_world; [lia|exact HI] | simpl; lia].
Qed.

Lemma kp_log (F : St -> Prop) (c : Call) : kp F (log c) top.
Proof.
  apply kp_modify. intros s HI _.
  split; [apply inv_with_world; [lia|exact HI] | simpl; lia].
Qed.

Lemma kp_call (F : St -> Prop) (c : Call) : kp F (call c) top.
Proof.
  intros s HI _. unfold call. destruct (script s) as [|[lat r] rest].
  - fin3; [apply inv_with_world; [lia|exact HI] | simpl; lia | exact I].
  - fin3; [apply inv_with_world; [lia|exact HI] | simpl; lia |].
    destruct r; exact I.
Qed.

Lemma kp_set_state (F : St -> Prop) (x : State) : kp F (set_state x) top.
Proof.
  apply kp_modify. intros s HI _. split; [exact HI | simpl; lia].
Qed.

(** Writes on the metrics object. *)
Lemma kp_on_metrics (F : St -> Prop) (f : PhaseMetrics -> PhaseMetrics) :
  (forall s, inv s -> F s ->
     bounded (now s - t0) (f (metrics s)) /\ errors_of_fallback (f (metrics s))) ->
  kp F (on_metrics f) top.
Proof.
  intros Hf. apply kp_modify. intros s HI HF.
  destruct (Hf s HI HF) as [Hb He]. destruct HI as (H0 & _ & Hr & _).
  split; [repeat split; auto; apply Hb | simpl; lia].
Qed.

Ltac metrics_write :=
  let s := fresh "s" in let HI := fresh "HI" in let HF := fresh "HF" in
  let Hd := fresh "Hd" in
  intros Hd; apply kp_on_metrics; intros s HI HF; specialize (Hd s HF);
  destruct HI as (? & Hb & ? & He); unfold bounded, short in *;
  simpl; intuition.

Lemma kp_set_discovered_ms F d :
  (forall s, F s -> is_short d s) -> kp F (on_metrics (set_discovered_ms d)) top.
Proof. metrics_write. Qed.
Lemma kp_set_getinfo_ms F d :
  (forall s, F s -> is_short d s) -> kp F (on_metrics (set_getinfo_ms d)) top.
Proof. metrics_write. Qed.
Lemma kp_set_adduser_ms F d :
  (forall s, F s -> is_short d s) -> kp F (on_metrics (set_adduser_ms d)) top.
Proof. metrics_write. Qed.
Lemma kp_set_cloud_visible_ms F d :
  (forall s, F s -> is_short d s) -> kp F (on_metrics (set_cloud_visible_ms d)) top.
Proof. metrics_write. Qed.
Lemma kp_set_play_ms F d :
  (forall s, F s -> is_short d s) -> kp F (on_metrics (set_play_ms d)) top.
Proof. metrics_write. Qed.
Lemma kp_set_total_duration_ms F d :
  (forall s, F s -> is_short d s) -> kp F (on_metrics (set_total_duration_ms d)) top.
Proof. metrics_write. Qed.

Lemma kp_set_branch (F : St -> Prop) (b : string) :
  kp F (on_metrics (set_branch b)) top.
Proof.
  apply kp_on_metrics. intros s (? & Hb & ? & He) _. split; [exact Hb | exact He].
Qed.

Lemma kp_add_error (F : St -> Prop) (msg : string) :
  kp F (on_metrics (add_error msg "fallback")) top.
Proof.
  apply kp_on_metrics. intros s (? & Hb & ? & He) _. split; [exact Hb|].
  unfold errors_of_fallback in *. simpl. apply Forall_app. split; [exact He|].
  repeat constructor.
Qed.



(** Profiles and the registry. *)
Lemma profile_frame_refl (p : DeviceProfile) : profile_frame p p.
Proof. unfold profile_frame. repeat split; auto. exists []. symmetry. apply app_nil_r. Qed.

Lemma profile_frame_trans (p q r : DeviceProfile) :
  profile_frame p q -> profile_frame q r -> profile_frame p r.
Proof.
  unfold profile_frame.
  intros (A1 & A2 & A3 & A4 & A5 & A6 & [l1 A7] & A8)
         (B1 & B2 & B3 & B4 & B5 & B6 & [l2 B7] & B8).
  repeat split; try congruence.
  - exists (l1 ++ l2). rewrite B7, A7. symmetry. apply app_assoc.
  - destruct A8 as [A8|A8]; [|right; exact A8].
    destruct B8 as [B8|B8]; [left; congruence | right; congruence].
Qed.

Lemma profile_frame_learn_name (n : string) (p : DeviceProfile) :
  profile_frame p (learn_name n p).
Proof.
  unfold learn_name. case_bool_decide; [apply profile_frame_refl|].
  unfold profile_frame. simpl. repeat split; auto. exists [n]. reflexivity.
Qed.

Lemma profile_frame_store_instance_name (x : option string) (p : DeviceProfile) :
  profile_frame p (store_instance_name x p).
Proof.
  unfold store_instance_name.
  destruct (truthy_opt (dp_instance_name p)) eqn:Ht; simpl;
    [apply profile_frame_refl|].
  unfold profile_frame. simpl. repeat split; auto. exists []. symmetry. apply app_nil_r.
Qed.

Lemma registry_frame_refl (r : gmap string DeviceProfile) : registry_frame r r.
Proof. intros k. destruct (r !! k); [apply profile_frame_refl | exact I]. Qed.

Lemma registry_frame_trans (a b c : gmap string DeviceProfile) :
  registry_frame a b -> registry_frame b c -> registry_frame a c.
Proof.
  intros Hab Hbc k. specialize (Hab k). specialize (Hbc k).
  destruct (a !! k), (b !! k), (c !! k); try tauto.
  eapply profile_frame_trans; eauto.
Qed.

Lemma registry_frame_alter (f : DeviceProfile -> DeviceProfile) (k : string)
    (r : gmap string DeviceProfile) :
  (forall p, profile_frame p (f p)) -> registry_frame r (alter f k r).
Proof.
  intros Hf j. rewrite lookup_alter. case_decide as Hjk.
  - subst j. destruct (r !! k); simpl; [apply Hf | exact I].
  - destruct (r !! j); [apply profile_frame_refl | exact I].
Qed.

Lemma kp_write_target (F : St -> Prop) (t : target_ref)
    (f : DeviceProfile -> DeviceProfile) :
  (forall p, profile_frame p (f p)) -> kp F (write_target t f) top.
Proof.
  intros Hf. apply kp_modify. intros s (H0 & Hb & Hr & He) _.
  destruct t as [k|]; simpl; (split; [|lia]);
    (split; [exact H0 | split; [exact Hb | split; [|exact He]]]); simpl.
  - eapply registry_frame_trans; [exact Hr|]. apply registry_frame_alter, Hf.
  - exact Hr.
Qed.

Lemma kp_learn (F : St -> Prop) (t : target_ref) (n : string) :
  kp F (learn t n) top.
Proof. apply kp_write_target, profile_frame_learn_name. Qed.

Lemma kp_with_breakers (F : St -> Prop) (f : St -> gmap string CircuitBreakerState) :
  kp F (modify (fun s => with_breakers (f s) s)) top.
Proof. apply kp_modify. intros s HI _. split; [exact HI | simpl; lia]. Qed.

Lemma kp_ensure_breaker (F : St -> Prop) (t : string) : kp F (ensure_breaker t) top.
Proof.
  apply kp_modify. intros s HI _.
  destruct (circuit_breakers s !! t); (split; [exact HI | simpl; lia]).
Qed.

Lemma kp_gets_top {A} (F : St -> Prop) (f : St -> A) : kp F (gets f) top.
Proof. apply kp_gets. intros. exact I. Qed.

Create HintDb run.

Ltac stab :=
  repeat first [ assumption | apply stable_early | apply stable_short
               | apply stable_top | apply stable_true | apply stable_and ].

Ltac side :=
  let s := fresh "s" in
  intros s ?;
  repeat match goal with H : _ /\ _ |- _ => destruct H end;
  first [assumption | exact I].

(** One step that is a primitive. *)
Ltac prim :=
  first
    [ apply kp_time_time
    | apply kp_elapsed_ms_t0
    | apply kp_elapsed_ms; side
    | apply kp_sleep
    | apply kp_log
    | apply kp_call
    | apply kp_set_state
    | apply kp_set_discovered_ms; side
    | apply kp_set_getinfo_ms; side
    | apply kp_set_adduser_ms; side
    | apply kp_set_cloud_visible_ms; side
    | apply kp_set_play_ms; side
    | apply kp_set_total_duration_ms; side
    | apply kp_set_branch
    | apply kp_add_error
    | apply kp_learn
    | apply kp_write_target; apply profile_frame_store_instance_name
    | apply kp_ensure_breaker
    | apply kp_with_breakers
    | apply kp_raise
    | apply kp_ret; side
    | apply kp_gets_top ].


#[local] Hint Extern 1 (stable _) => stab : run.

Ltac walk :=
  lazymatch goal with
  | |- keeps _ _ _ (bind ?m _) _ =>
      first
        [ eapply kp_bind; [ stab | prim | intros ?; walk ]
        | eapply kp_bind with (Q := top); [ stab | walk | intros ?; walk ] ]
  | |- keeps _ _ _ (bindF ?m _) _ =>
      unfold bindF at 1; walk
  | |- keeps _ _ _ (try_catch _ _) _ =>
      apply kp_try_catch; [ stab | walk | intros ?; walk ]
  | |- keeps _ _ _ (if ?b then _ else _) _ => destruct b; walk
  | |- keeps _ _ _ (match ?x with _ => _ end) _ => destruct x; walk
  | |- keeps _ _ _ (let _ := _ in _) _ => cbv zeta; walk
  | |- _ =>
      first
        [ prim
        | eapply kp_weaken; [ prim | auto | intros; exact I ]
        | solve [ eauto 4 with run ] ]
  end.


Lemma kp_as_devices F v : kp F (as_devices v) top.
Proof. unfold as_devices. walk. Qed.
Lemma kp_as_bool F v : kp F (as_bool v) top.
Proof. unfold as_bool. walk. Qed.
Lemma kp_as_str F v : kp F (as_str v) top.
Proof. unfold as_str. walk. Qed.
Lemma kp_as_discovery F v : kp F (as_discovery v) top.
Proof. unfold as_discovery. walk. Qed.
Lemma kp_as_creds F v : kp F (as_creds v) top.
Proof. unfold as_creds. walk. Qed.
#[local] Hint Resolve kp_as_devices kp_as_bool kp_as_str kp_as_discovery kp_as_creds : run.

Lemma kp_api_get_devices F : stable F -> kp F api_get_devices top.
Proof. intros HS. unfold api_get_devices. walk. Qed.
#[local] Hint Resolve kp_api_get_devices : run.

Lemma kp_stage_device F id v : stable F -> kp F (stage_device id v) top.
Proof. intros HS. unfold stage_device. walk. Qed.
#[local] Hint Resolve kp_stage_device : run.

Lemma kp_start_play F cfg id : stable F -> kp F (start_play cfg id) top.
Proof. intros HS. unfold start_play. walk. Qed.
#[local] Hint Resolve kp_start_play : run.

Lemma kp_verify_loop F fuel id start timeout :
  stable F -> kp F (verify_loop fuel id start timeout) top.
Proof.
  intros HS. revert F HS. induction fuel as [|fuel IH]; intros F HS; simpl; walk.
Qed.
#[local] Hint Resolve kp_verify_loop : run.

Lemma kp_verify_device_ready F id timeout :
  stable F -> kp F (verify_device_ready id timeout) top.
Proof. intros HS. unfold verify_device_ready. walk. Qed.
#[local] Hint Resolve kp_verify_device_ready : run.

Lemma kp_confirm_loop F fuel id deadline :
  stable F -> kp F (confirm_loop fuel id deadline) top.
Proof.
  intros HS. revert F HS. induction fuel as [|fuel IH]; intros F HS; simpl; walk.
Qed.
#[local] Hint Resolve kp_confirm_loop : run.

Lemma kp_confirm F cfg id : stable F -> kp F (confirm cfg id) top.
Proof. intros HS. unfold confirm. walk. Qed.
#[local] Hint Resolve kp_confirm : run.

Lemma kp_failover F cfg t reason : stable F -> kp F (_failover cfg t reason) top.
Proof. intros HS. unfold _failover. walk. Qed.
#[local] Hint Resolve kp_failover : run.

Lemma kp_should_bypass_primary F cfg t :
  stable F -> kp F (_should_bypass_primary cfg t) top.
Proof. intros HS. unfold _should_bypass_primary. walk. Qed.
Lemma kp_record_failure F cfg t : stable F -> kp F (_record_failure cfg t) top.
Proof. intros HS. unfold _record_failure. walk. Qed.
Lemma kp_record_success F t : stable F -> kp F (_record_success t) top.
Proof. intros HS. unfold _record_success. walk. Qed.
#[local] Hint Resolve kp_should_bypass_primary kp_record_failure kp_record_success : run.

Lemma kp_resolve_target F t : stable F -> kp F (resolve_target t) top.
Proof.
  intros HS. unfold resolve_target. walk.
Qed.
#[local] Hint Resolve kp_resolve_target : run.

Lemma kp_phase_webapi_check F cfg t :
  stable F -> kp F (phase_webapi_check cfg t t0) top.
Proof. intros HS. unfold phase_webapi_check. walk. Qed.

Lemma kp_phase_ip_wakeup F cfg t target :
  stable F -> kp F (phase_ip_wakeup cfg t target t0) top.
Proof. intros HS. unfold phase_ip_wakeup. walk. Qed.

Lemma kp_phase_discovery F cfg t target :
  stable F -> kp F (phase_discovery cfg t target) top.
Proof. intros HS. unfold phase_discovery. walk. Qed.

Lemma kp_phase_activate F d : stable F -> kp F (phase_activate d) top.
Proof. intros HS. unfold phase_activate. walk. Qed.

Lemma kp_poll_loop F fuel target deadline fast_until :
  stable F -> kp F (poll_loop fuel target deadline fast_until) top.
Proof.
  intros HS. revert F HS. induction fuel as [|fuel IH]; intros F HS; simpl; walk.
Qed.
#[local] Hint Resolve kp_poll_loop : run.

Lemma kp_phase_cloud_poll F cfg target :
  stable F -> kp F (phase_cloud_poll cfg target t0) top.
Proof. intros HS. unfold phase_cloud_poll. walk. Qed.
#[local] Hint Resolve kp_phase_webapi_check kp_phase_ip_wakeup kp_phase_discovery
  kp_phase_activate kp_phase_cloud_poll : run.

Lemma kp_timeline_to_play F cfg t :
  stable F -> kp F (timeline_to_play cfg t t0) top.
Proof. intros HS. unfold timeline_to_play. walk. Qed.
#[local] Hint Resolve kp_timeline_to_play : run.

Lemma kp_confirm_or_failover F cfg t d :
  stable F -> kp F (confirm_or_failover cfg t d) top.
Proof. intros HS. unfold confirm_or_failover. walk. Qed.
#[local] Hint Resolve kp_confirm_or_failover : run.

Lemma kp_timeline F cfg t : stable F -> kp F (timeline cfg t t0) top.
Proof. intros HS. unfold timeline. walk. Qed.

Lemma kp_on_exception F cfg t e : stable F -> kp F (on_exception cfg t e) top.
Proof. intros HS. unfold on_exception. walk. Qed.

End RunLogic.

(** ** Whole runs *)

Lemma play_alarm_unfold (cfg : AlarmPlaybackConfig) (t : string) (s : St) :
  play_alarm cfg t s =
  match guarded cfg t (now s) (timeline cfg t (now s)) (start_state s) with
  | (Returned _, s') => (Returned (metrics s'), s')
  | (Raised e, s') => (Raised e, s')
  end.
Proof.
  unfold play_alarm, bind, modify, set_state, time_time, gets, start_state. simpl.
  destruct (guarded _ _ _ _ _) as [[[]|e] s']; reflexivity.
Qed.

Lemma Inv_start_state (s : St) : Inv (now s) (registry s) (start_state s).
Proof.
  unfold Inv, start_state, bounded, errors_of_fallback. simpl.
  repeat split; try lia; auto using registry_frame_refl.
Qed.

Lemma stable_always : stable (fun _ => True).
Proof. intros ? ? _ _. exact I. Qed.

(** The invariant through [try], [except] and [finally]. *)
Lemma guarded_Inv (t0 : Z) (reg0 : gmap string DeviceProfile)
    (cfg : AlarmPlaybackConfig) (t : string) (s : St) :
  Inv t0 reg0 s ->
  match guarded cfg t t0 (timeline cfg t t0) s with
  | (r, s') =>
      registry_frame reg0 (registry s')
      /\ errors_of_fallback (metrics s')
      /\ exists total, total_duration_ms (metrics s') = Some total
                       /\ bounded total (metrics s')
  end.
Proof.
  intros HI. unfold guarded, finally.
  pose proof (kp_try_catch t0 reg0 (fun _ => True) (timeline cfg t t0)
                (on_exception cfg t) top stable_always
                (kp_timeline t0 reg0 _ cfg t stable_always)
                (fun e => kp_on_exception t0 reg0 _ cfg t e stable_always) s HI I) as H.
  destruct (try_catch _ _ s) as [r s1]. destruct H as ((H0 & Hb & Hr & He) & _ & _).
  simpl. repeat split; auto.
  exists (now s1 - t0). split; [reflexivity|].
  destruct Hb as (b1 & b2 & b3 & b4 & b5 & b6).
  unfold bounded. simpl. repeat split; auto; lia.
Qed.

(** ** Phase timings *)



(** ** What a run writes on profiles *)

(** C4, as stated, fails: when mDNS discovery answers and the profile has
    no [instance_name] yet, the run stores the discovered one. *)
Lemma run_stores_instance_name :
  dp_instance_name <$> (registry cold_wake_world !! "Kitchen") = Some None
  /\ dp_instance_name <$>
       (registry (snd (play_alarm alarm_config "Kitchen" cold_wake_world)) !! "Kitchen")
     = Some (Some "kitchen-inst").
Proof. split; vm_compute; reflexivity. Qed.

(** C4 (amended). During [play_alarm] no profile enters or leaves the
    registry, and for every profile the fields [name], [ip], [port],
    [cpath], [volume_preset] and [max_wake_wait_s] are after the run what
    they were before; [spotify_device_names] only grows at its end; and
    [instance_name] is either unchanged or was unset or empty before. *)
Theorem play_alarm_profile_frame (cfg : AlarmPlaybackConfig) (t : string) (s : St) :
  registry_frame (registry s) (registry (snd (play_alarm cfg t s))).
Proof.
  rewrite play_alarm_unfold.
  pose proof (guarded_Inv _ _ cfg t _ (Inv_start_state s)) as H.
  destruct (guarded _ _ _ _ _) as [[[]|e] s']; simpl; apply H.
Qed.

(** ** What escapes a run *)

Lemma contains_prefix (a b : string) : PyStr.contains a (a +:+ b) = true.
Proof. apply contains_true_iff. exists "", b. reflexivity. Qed.

(** [_failover] returns, or raises its [RuntimeError]. *)
Lemma failover_outcome (cfg : AlarmPlaybackConfig) (t reason : string) (s : St) :
  match _failover cfg t reason s with
  | (Returned _, _) => True
  | (Raised e, _) =>
      e = runtime_error (fallback_exhausted +:+ ": " +:+ reason)
  end.
Proof.
  unfold _failover, bind at 1, log, modify.
  unfold bind at 1, try_catch.
  match goal with |- context [bind (gets registry) ?k ?s1] =>
    destruct (bind (gets registry) k s1) as [[[]|e] s2] end; simpl; auto.
Qed.

Lemma on_exception_outcome (cfg : AlarmPlaybackConfig) (t : string) (e0 : exn) (s : St) :
  match on_exception cfg t e0 s with
  | (Returned _, _) => True
  | (Raised e, _) => PyStr.contains fallback_exhausted (exn_msg e) = true
  end.
Proof.
  unfold on_exception, bind at 1.
  destruct (_record_failure cfg t s) as [[[]|e1] s1] eqn:Hrf.
  - destruct (PyStr.contains fallback_exhausted (exn_msg e0)) eqn:Hc.
    + simpl. exact Hc.
    + pose proof (failover_outcome cfg t (exn_msg e0) s1) as H.
      destruct (_failover _ _ _ s1) as [[[]|e] s2]; [exact I|].
      subst e. apply contains_prefix.
  - unfold _record_failure, bind, ensure_breaker, modify in Hrf. discriminate.
Qed.



(** ** The fast path *)

(** C7, as stated, fails: on the fast path the run returns right after
    [start_play]; it never asks for the current playback, although the world
    here would have answered. *)
Lemma fast_path_without_confirmation :
  exists m s',
    play_alarm alarm_config "Kitchen" fast_path_world = (Returned m, s')
    /\ branch m = Some "webapi_direct"
    /\ calls s' = [CallDevices; CallTransfer "D1" false; CallVolume "D1" 30;
                   CallPlay "D1" "spotify:playlist:X" 700 false]
    /\ ~ In CallCurrentPlayback (calls s').
Proof.
  eexists _, _. split; [vm_compute; reflexivity|].
  repeat split. simpl. intros H. decompose [or] H; discriminate || contradiction.
Qed.

Lemma volume_after_learn (reg : gmap string DeviceProfile) (t n : string) :
  match _get_target_profile (alter (learn_name n) t reg) t with
  | Some target => dp_volume_preset target
  | None => 30
  end = fast_path_volume reg t.
Proof.
  unfold _get_target_profile, fast_path_volume. rewrite lookup_alter_eq.
  destruct (reg !! t) as [p|]; simpl; [|reflexivity].
  unfold learn_name. case_bool_decide; reflexivity.
Qed.

(** C7 (amended). When the first [Devices] call returns a list in which
    [_pick_device] finds the target, and [Transfer] and [Play] succeed, the
    run returns with branch [webapi_direct] after exactly four calls: one
    [Devices], one [Transfer(device, play=false)], one [Volume] with the
    profile's preset (30 without a profile; its failure is ignored) and one
    [Play]. There is no confirmation: [CurrentPlayback] is not called. *)
Theorem fast_path_calls (cfg : AlarmPlaybackConfig) (t : string) (s : St)
    (l1 l2 l3 l4 : N) (L : list CloudDevice) (d : CloudDevice) (v2 v4 : Value)
    (r3 : outcome Value) (rest : list Response) :
  script s = (l1, Returned (VDevices L)) :: (l2, Returned v2) :: (l3, r3)
             :: (l4, Returned v4) :: rest ->
  _pick_device (registry s) L t = Some d ->
  exists m s',
    play_alarm cfg t s = (Returned m, s')
    /\ branch m = Some "webapi_direct"
    /\ calls s' = calls s ++
         [CallDevices; CallTransfer (cd_id d) false;
          CallVolume (cd_id d) (fast_path_volume (registry s) t);
          CallPlay (cd_id d) (context_uri cfg) (retry_404_delay_ms (timings cfg))
                   (shuffle cfg)]
    /\ script s' = rest.
Proof.
  intros Hs Hp. rewrite play_alarm_unfold.
  cbv beta delta [guarded finally try_catch timeline timeline_to_play bindF
    phase_webapi_check api_get_devices learn write_target stage_device
    start_play elapsed_ms on_metrics set_state sleep call bind modify
    gets ret time_time start_state].
  simpl. rewrite Hs. simpl. rewrite Hp. simpl.
  destruct r3 as [v3|e3]; simpl;
    eexists _, _; (split; [reflexivity|]); simpl;
    rewrite <- ?app_assoc; simpl; repeat split;
    rewrite volume_after_learn; reflexivity.
Qed.

Lemma fast_path_calls_witness :
  exists m s',
    play_alarm alarm_config "Kitchen" fast_path_world = (Returned m, s')
    /\ branch m = Some "webapi_direct"
    /\ calls s' = calls fast_path_world ++
         [CallDevices; CallTransfer (cd_id (cloud_device "D1" "Kitchen")) false;
          CallVolume (cd_id (cloud_device "D1" "Kitchen"))
                     (fast_path_volume (registry fast_path_world) "Kitchen");
          CallPlay (cd_id (cloud_device "D1" "Kitchen")) (context_uri alarm_config)
                   (retry_404_delay_ms (timings alarm_config))
                   (shuffle alarm_config)]
    /\ script s' = [answer 10 (VPlayback (Some "D1") true)].
Proof.
  apply (fast_path_calls alarm_config "Kitchen" fast_path_world
           100 50 30 80 [cloud_device "D1" "Kitchen"] (cloud_device "D1" "Kitchen")
           VNone VNone (Returned VNone)); reflexivity.
Defined.

(** ** Unconfirmed playback *)

Lemma sleep_500 (s : St) :
  sleep 500 s = (Returned tt, with_world (now s + 500) (script s) (calls s) s).
Proof. reflexivity. Qed.

Lemma sleep_200 (s : St) :
  sleep 200 s = (Returned tt, with_world (now s + 200) (script s) (calls s) s).
Proof. reflexivity. Qed.

(** One round of [verify_device_ready] in a world that never reports the
    device: it asks once, sleeps, and has nothing to show. *)
Lemma verify_round_unconfirmed (id : string) (s : St) :
  Forall (no_report id) (script s) ->
  exists s',
    try_catch
      (playback_info <- call CallCurrentPlayback ;;
       if reports_device id playback_info then ret true
       else sleep 500 ;;; ret false)
      (fun _ => sleep 500 ;;; ret false) s = (Returned false, s')
    /\ circuit_breakers s' = circuit_breakers s
    /\ Forall (no_report id) (script s').
Proof.
  intros Hs. unfold try_catch, bind, call.
  destruct (script s) as [|[lat r] rest] eqn:Hsc.
  - eexists. split; [reflexivity|]. simpl. split; [reflexivity | constructor].
  - inversion Hs as [|? ? Hr Hrest]; subst.
    destruct r as [v|e]; simpl in Hr.
    + unfold no_report in Hr. simpl in Hr. rewrite Hr.
      eexists. split; [reflexivity|]. simpl. split; [reflexivity | exact Hrest].
    + eexists. split; [reflexivity|]. simpl. split; [reflexivity | exact Hrest].
Qed.

Lemma verify_loop_unconfirmed (fuel : nat) (id : string) (start timeout : Z) (s : St) :
  Forall (no_report id) (script s) ->
  exists s',
    verify_loop fuel id start timeout s = (Returned false, s')
    /\ circuit_breakers s' = circuit_breakers s
    /\ Forall (no_report id) (script s').
Proof.
  revert s. induction fuel as [|fuel IH]; intros s Hs.
  - simpl. unfold bind, time_time, gets.
    destruct (now s - start <? timeout); eexists; (split; [reflexivity|]); auto.
  - simpl. unfold bind at 1. unfold time_time, gets.
    destruct (now s - start <? timeout).
    + destruct (verify_round_unconfirmed id s Hs) as (s1 & Heq & Hb & Hs1).
      unfold bind at 1. rewrite Heq.
      destruct (IH s1 Hs1) as (s2 & Heq2 & Hb2 & Hs2).
      exists s2. split; [exact Heq2|]. split; [congruence | exact Hs2].
    + eexists. split; [reflexivity|]. auto.
Qed.

Lemma confirm_loop_unconfirmed (fuel : nat) (id : string) (deadline : Z) (s : St) :
  Forall (no_report id) (script s) ->
  exists s',
    confirm_loop fuel id deadline s = (Returned false, s')
    /\ circuit_breakers s' = circuit_breakers s
    /\ Forall (no_report id) (script s').
Proof.
  revert s. induction fuel as [|fuel IH]; intros s Hs.
  - simpl. unfold bind, time_time, gets.
    destruct (now s <? deadline); eexists; (split; [reflexivity|]); auto.
  - simpl. unfold bind at 1. unfold time_time, gets.
    destruct (now s <? deadline).
    + unfold bind at 1. unfold try_catch, verify_device_ready.
      unfold bind at 1. unfold bind at 1. unfold time_time, gets.
      destruct (verify_loop_unconfirmed (S (Z.to_nat 500)) id (now s) 500 s Hs)
        as (s1 & Heq & Hb & Hs1).
      rewrite Heq. unfold bind at 1. rewrite sleep_200. unfold ret at 1.
      match goal with |- context [confirm_loop fuel id deadline ?s2] =>
        destruct (IH s2) as (s3 & Heq3 & Hb3 & Hs3); [exact Hs1|] end.
      exists s3. split; [exact Heq3|]. split; [|exact Hs3].
      rewrite Hb3. simpl. exact Hb.
    + eexists. split; [reflexivity|]. auto.
Qed.

Lemma confirm_unconfirmed (cfg : AlarmPlaybackConfig) (id : string) (s : St) :
  Forall (no_report id) (script s) ->
  exists s',
    confirm cfg id s = (Returned false, s')
    /\ circuit_breakers s' = circuit_breakers s.
Proof.
  intros Hs. unfold confirm, bind, time_time, gets.
  destruct (confirm_loop_unconfirmed
              (S (Z.to_nat (failover_fire_after_ms (timings cfg)))) id
              (now s + failover_fire_after_ms (timings cfg)) s Hs)
    as (s' & Heq & Hb & _).
  exists s'. split; [exact Heq | exact Hb].
Qed.

(** The two ways [_failover] ends. *)
Lemma failover_cases (cfg : AlarmPlaybackConfig) (t reason : string) (s : St) :
  exists s',
    (_failover cfg t reason s = (Returned tt, s')
     /\ branch (metrics s') = Some "fallback"
     \/ _failover cfg t reason s
        = (Raised (runtime_error (fallback_exhausted +:+ ": " +:+ reason)), s')
        /\ branch (metrics s') = Some ("failed:" +:+ reason))
    /\ circuit_breakers s' = circuit_breakers s
    /\ In (LogFallback t "primary" reason) (calls s').
Proof.
  cbv beta delta [_failover try_catch bind log modify gets on_metrics ret raise
                  call _get_target_profile].
  simpl.
  destruct (registry s !! t) as [p|]; simpl.
  2:{ eexists. split; [right; split; reflexivity|]. simpl.
      split; [reflexivity | apply in_or_app; right; left; reflexivity]. }
  destruct (truthy_opt (dp_ip p)); simpl.
  2:{ eexists. split; [right; split; reflexivity|]. simpl.
      split; [reflexivity | apply in_or_app; right; left; reflexivity]. }
  destruct (script s) as [|[lat [v|e]] rest]; simpl.
  - eexists. split; [right; split; reflexivity|]. simpl.
    split; [reflexivity|]. apply in_or_app; left. apply in_or_app; right; left; reflexivity.
  - eexists. split; [left; split; reflexivity|]. simpl.
    split; [reflexivity|]. apply in_or_app; left. apply in_or_app; right; left; reflexivity.
  - eexists. split; [right; split; reflexivity|]. simpl.
    split; [reflexivity|]. apply in_or_app; left. apply in_or_app; right; left; reflexivity.
Qed.

Lemma record_failure_counts (cfg : AlarmPlaybackConfig) (t : string) (s : St) :
  exists s',
    _record_failure cfg t s = (Returned tt, s')
    /\ breaker_failures t s' = breaker_failures t s + 1
    /\ calls s' = calls s
    /\ metrics s' = metrics s.
Proof.
  unfold _record_failure, bind, ensure_breaker, modify, breaker_failures.
  eexists. split; [reflexivity|].
  destruct (circuit_breakers s !! t) as [cb|] eqn:Hcb; simpl.
  - rewrite lookup_alter_eq, Hcb. simpl. auto.
  - rewrite lookup_alter_eq, lookup_insert_eq. simpl. auto.
Qed.


(** ** Failure counts before the confirmation *)

Lemma same_failures_refl (s : St) : same_failures s s.
Proof. intros k. reflexivity. Qed.

Lemma same_failures_trans (a b c : St) :
  same_failures a b -> same_failures b c -> same_failures a c.
Proof. intros H1 H2 k. rewrite H2, H1. reflexivity. Qed.

Lemma same_failures_breakers (s s' : St) :
  circuit_breakers s' = circuit_breakers s -> same_failures s s'.
Proof. intros H k. unfold breaker_failures. rewrite H. reflexivity. Qed.

Lemma quiet_weaken {A} (ok : A -> Prop) (m : M A) : quiet always m -> quiet ok m.
Proof.
  intros H s. specialize (H s). destruct (m s) as [[a|e] s']; auto.
  intros _. apply H. exact I.
Qed.

Lemma quiet_ret {A} (ok : A -> Prop) (a : A) : quiet ok (ret a).
Proof. intros s. simpl. intros _. apply same_failures_refl. Qed.

Lemma quiet_raise {A} (ok : A -> Prop) (e : exn) : quiet ok (@raise A e).
Proof. intros s. simpl. apply same_failures_refl. Qed.

Lemma quiet_gets {A} (ok : A -> Prop) (f : St -> A) : quiet ok (gets f).
Proof. intros s. simpl. intros _. apply same_failures_refl. Qed.

Lemma quiet_modify (ok : unit -> Prop) (f : St -> St) :
  (forall s, same_failures s (f s)) -> quiet ok (modify f).
Proof. intros H s. simpl. intros _. apply H. Qed.

Lemma quiet_bind {A B} (ok : B -> Prop) (m : M A) (k : A -> M B) :
  quiet always m -> (forall a, quiet ok (k a)) -> quiet ok (bind m k).
Proof.
  intros Hm Hk s. unfold bind. specialize (Hm s).
  destruct (m s) as [[a|e] s1]; [|exact Hm].
  specialize (Hk a s1). destruct (k a s1) as [[b|e] s2].
  - intros Hb. eapply same_failures_trans; [apply Hm; exact I | apply Hk, Hb].
  - eapply same_failures_trans; [apply Hm; exact I | apply Hk].
Qed.

Lemma quiet_try_catch {A} (ok : A -> Prop) (m : M A) (h : exn -> M A) :
  quiet ok m -> (forall e, quiet ok (h e)) -> quiet ok (try_catch m h).
Proof.
  intros Hm Hh s. unfold try_catch. specialize (Hm s).
  destruct (m s) as [[a|e] s1]; [exact Hm|].
  specialize (Hh e s1). destruct (h e s1) as [[b|e'] s2].
  - intros Hb. eapply same_failures_trans; [exact Hm | apply Hh, Hb].
  - eapply same_failures_trans; [exact Hm | exact Hh].
Qed.

Lemma quiet_bindF {A B} (m : M (flow A)) (k : A -> M (flow B)) :
  quiet goes_on m -> (forall a, quiet goes_on (k a)) -> quiet goes_on (bindF m k).
Proof.
  intros Hm Hk s. unfold bindF, bind. specialize (Hm s).
  destruct (m s) as [[[|a]|e] s1]; simpl.
  - intros [].
  - specialize (Hk a s1). destruct (k a s1) as [[b|e] s2].
    + intros Hb. eapply same_failures_trans; [apply Hm; exact I | apply Hk, Hb].
    + eapply same_failures_trans; [apply Hm; exact I | apply Hk].
  - exact Hm.
Qed.

Lemma quiet_call (ok : Value -> Prop) (c : Call) : quiet ok (call c).
Proof.
  intros s. unfold call. destruct (script s) as [|[lat [v|e]] rest];
    try intros _; apply same_failures_breakers; reflexivity.
Qed.

Lemma quiet_sleep (ok : unit -> Prop) (d : Z) : quiet ok (sleep d).
Proof.
  unfold sleep. destruct (d <? 0); [apply quiet_raise|].
  apply quiet_modify. intros s. apply same_failures_breakers. reflexivity.
Qed.

Lemma quiet_log (ok : unit -> Prop) (c : Call) : quiet ok (log c).
Proof. apply quiet_modify. intros s. apply same_failures_breakers. reflexivity. Qed.

Lemma quiet_set_state (ok : unit -> Prop) (x : State) : quiet ok (set_state x).
Proof. apply quiet_modify. intros s. apply same_failures_breakers. reflexivity. Qed.

Lemma quiet_on_metrics (ok : unit -> Prop) (f : PhaseMetrics -> PhaseMetrics) :
  quiet ok (on_metrics f).
Proof. apply quiet_modify. intros s. apply same_failures_breakers. reflexivity. Qed.

Lemma quiet_write_target (ok : unit -> Prop) (t : target_ref)
    (f : DeviceProfile -> DeviceProfile) : quiet ok (write_target t f).
Proof.
  apply quiet_modify. intros s. apply same_failures_breakers.
  destruct t; reflexivity.
Qed.

Lemma quiet_with_minimal (ok : unit -> Prop) (p : DeviceProfile) :
  quiet ok (modify (with_minimal p)).
Proof. apply quiet_modify. intros s. apply same_failures_breakers. reflexivity. Qed.

(** A breaker that is created counts no failure. *)
Lemma quiet_ensure_breaker (ok : unit -> Prop) (t : string) : quiet ok (ensure_breaker t).
Proof.
  apply quiet_modify. intros s k. unfold breaker_failures.
  destruct (circuit_breakers s !! t) eqn:Ht; [reflexivity|]. simpl.
  destruct (decide (t = k)) as [->|Hne].
  - rewrite lookup_insert_eq, Ht. reflexivity.
  - rewrite lookup_insert_ne by exact Hne. reflexivity.
Qed.

(** The one place of the timeline that resets a count is followed by
    [return metrics]. *)
Lemma quiet_record_success_return {A} (t : string) :
  quiet goes_on (_record_success t ;;; @ret (flow A) Return_).
Proof. intros s. simpl. intros []. Qed.

Create HintDb hush.

Ltac hush_prim :=
  first
    [ apply quiet_record_success_return
    | apply quiet_ret | apply quiet_raise | apply quiet_call | apply quiet_sleep
    | apply quiet_log | apply quiet_set_state | apply quiet_on_metrics
    | apply quiet_write_target | apply quiet_with_minimal
    | apply quiet_ensure_breaker | apply quiet_gets ].

Ltac hush :=
  lazymatch goal with
  | |- quiet _ (bind (_record_success _) (fun _ => ret Return_)) =>
      apply quiet_record_success_return
  | |- quiet _ (bind _ _) => apply quiet_bind; [ hush | intros ?; hush ]
  | |- quiet _ (bindF _ _) => apply quiet_bindF; [ hush | intros ?; hush ]
  | |- quiet _ (try_catch _ _) => apply quiet_try_catch; [ hush | intros ?; hush ]
  | |- quiet _ (if ?b then _ else _) => destruct b; hush
  | |- quiet _ (match ?x with _ => _ end) => destruct x; hush
  | |- quiet _ (let _ := _ in _) => cbv zeta; hush
  | |- _ =>
      first [ hush_prim
            | solve [ eauto 3 with hush ]
            | apply quiet_weaken; solve [ eauto 3 with hush ] ]
  end.

Lemma quiet_as_devices ok v : quiet ok (as_devices v).
Proof. unfold as_devices. hush. Qed.
Lemma quiet_as_bool ok v : quiet ok (as_bool v).
Proof. unfold as_bool. hush. Qed.
Lemma quiet_as_str ok v : quiet ok (as_str v).
Proof. unfold as_str. hush. Qed.
Lemma quiet_as_discovery ok v : quiet ok (as_discovery v).
Proof. unfold as_discovery. hush. Qed.
Lemma quiet_as_creds ok v : quiet ok (as_creds v).
Proof. unfold as_creds. hush. Qed.
#[local] Hint Resolve quiet_as_devices quiet_as_bool quiet_as_str quiet_as_discovery
  quiet_as_creds : hush.

Lemma quiet_api_get_devices ok : quiet ok api_get_devices.
Proof. unfold api_get_devices. hush. Qed.
Lemma quiet_learn ok t n : quiet ok (learn t n).
Proof. apply quiet_write_target. Qed.
Lemma quiet_time_time ok : quiet ok time_time.
Proof. apply quiet_gets. Qed.
Lemma quiet_elapsed_ms ok x : quiet ok (elapsed_ms x).
Proof. apply quiet_gets. Qed.
Lemma quiet_stage_device ok id v : quiet ok (stage_device id v).
Proof. unfold stage_device. hush. Qed.
Lemma quiet_start_play ok cfg id : quiet ok (start_play cfg id).
Proof. unfold start_play. hush. Qed.
#[local] Hint Resolve quiet_api_get_devices quiet_learn quiet_time_time
  quiet_elapsed_ms quiet_stage_device quiet_start_play : hush.

Lemma quiet_verify_loop ok fuel id start timeout :
  quiet ok (verify_loop fuel id start timeout).
Proof.
  revert ok. induction fuel as [|fuel IH]; intros ok; simpl; hush.
Qed.
#[local] Hint Resolve quiet_verify_loop : hush.

Lemma quiet_verify_device_ready ok id timeout : quiet ok (verify_device_ready id timeout).
Proof. unfold verify_device_ready. hush. Qed.
#[local] Hint Resolve quiet_verify_device_ready : hush.

Lemma quiet_confirm_loop ok fuel id deadline : quiet ok (confirm_loop fuel id deadline).
Proof.
  revert ok. induction fuel as [|fuel IH]; intros ok; simpl; hush.
Qed.
#[local] Hint Resolve quiet_confirm_loop : hush.

Lemma quiet_confirm ok cfg id : quiet ok (confirm cfg id).
Proof. unfold confirm. hush. Qed.
Lemma quiet_failover ok cfg t reason : quiet ok (_failover cfg t reason).
Proof. unfold _failover. hush. Qed.
Lemma quiet_should_bypass_primary ok cfg t : quiet ok (_should_bypass_primary cfg t).
Proof. unfold _should_bypass_primary. hush. Qed.
Lemma quiet_resolve_target ok t : quiet ok (resolve_target t).
Proof. unfold resolve_target. hush. Qed.
#[local] Hint Resolve quiet_confirm quiet_failover quiet_should_bypass_primary
  quiet_resolve_target : hush.

Lemma quiet_phase_webapi_check cfg t t0 : quiet goes_on (phase_webapi_check cfg t t0).
Proof. unfold phase_webapi_check. hush. Qed.

Lemma quiet_phase_ip_wakeup cfg t target t0 :
  quiet goes_on (phase_ip_wakeup cfg t target t0).
Proof. unfold phase_ip_wakeup. hush. Qed.

Lemma quiet_phase_discovery cfg t target : quiet goes_on (phase_discovery cfg t target).
Proof. unfold phase_discovery. hush. Qed.

Lemma quiet_phase_activate ok d : quiet ok (phase_activate d).
Proof. unfold phase_activate. hush. Qed.

Lemma quiet_poll_loop ok fuel target deadline fast_until :
  quiet ok (poll_loop fuel target deadline fast_until).
Proof.
  revert ok. induction fuel as [|fuel IH]; intros ok; simpl; hush.
Qed.
#[local] Hint Resolve quiet_poll_loop : hush.

Lemma quiet_phase_cloud_poll ok cfg target t0 : quiet ok (phase_cloud_poll cfg target t0).
Proof. unfold phase_cloud_poll. hush. Qed.
#[local] Hint Resolve quiet_phase_webapi_check quiet_phase_ip_wakeup
  quiet_phase_discovery quiet_phase_activate quiet_phase_cloud_poll : hush.

(** Up to [start_play] on the main path nothing is recorded against or
    for the breaker. *)
Lemma quiet_timeline_to_play cfg t t0 : quiet goes_on (timeline_to_play cfg t t0).
Proof. unfold timeline_to_play. hush. Qed.



(** ** The fuel of the loops is enough *)

(** A round of [verify_device_ready] returns; when it has nothing to show,
    half a second has passed. *)
Lemma verify_round_progress (id : string) (s : St) :
  exists hit s1,
    try_catch
      (playback_info <- call CallCurrentPlayback ;;
       if reports_device id playback_info then ret true
       else sleep 500 ;;; ret false)
      (fun _ => sleep 500 ;;; ret false) s = (Returned hit, s1)
    /\ now s <= now s1
    /\ (hit = false -> now s + 500 <= now s1).
Proof.
  unfold try_catch, bind, call.
  destruct (script s) as [|[lat [v|e]] rest].
  - eexists _, _. split; [reflexivity|]. simpl. lia.
  - destruct (reports_device id v).
    + eexists _, _. split; [reflexivity|]. simpl. split; [lia | discriminate].
    + eexists _, _. split; [reflexivity|]. simpl. lia.
  - eexists _, _. split; [reflexivity|]. simpl. lia.
Qed.

Lemma verify_loop_unfold (fuel : nat) (id : string) (start timeout : Z) (s : St) :
  verify_loop fuel id start timeout s =
  if now s - start <? timeout then
    match fuel with
    | O => (Returned false, s)
    | S fuel' =>
        match try_catch
                (playback_info <- call CallCurrentPlayback ;;
                 if reports_device id playback_info then ret true
                 else sleep 500 ;;; ret false)
                (fun _ => sleep 500 ;;; ret false) s with
        | (Returned true, s1) => (Returned true, s1)
        | (Returned false, s1) => verify_loop fuel' id start timeout s1
        | (Raised e, s1) => (Raised e, s1)
        end
    end
  else (Returned false, s).
Proof.
  destruct fuel; simpl; unfold bind at 1; unfold time_time, gets;
    destruct (now s - start <? timeout); try reflexivity.
  unfold bind at 1.
  destruct (try_catch _ _ s) as [[[|]|e] s1]; reflexivity.
Qed.

(** [verify_loop] always returns, and the clock does not go back. *)
Lemma verify_loop_returns (fuel : nat) (id : string) (start timeout : Z) (s : St) :
  exists b s', verify_loop fuel id start timeout s = (Returned b, s')
               /\ now s <= now s'.
Proof.
  revert s. induction fuel as [|fuel IH]; intros s; rewrite verify_loop_unfold;
    destruct (now s - start <? timeout); try (eexists _, _; split; [reflexivity | lia]).
  destruct (verify_round_progress id s) as ([|] & s1 & Heq & Hle & _); rewrite Heq.
  - eexists _, _; split; [reflexivity | lia].
  - destruct (IH s1) as (b & s' & Heq' & Hle'). rewrite Heq'.
    eexists _, _; split; [reflexivity | lia].
Qed.

(** Fuel beyond the time that is left changes nothing. *)
Lemma verify_loop_fuel (f1 f2 : nat) (id : string) (start timeout : Z) (s : St) :
  timeout - (now s - start) <= Z.of_nat f1 ->
  timeout - (now s - start) <= Z.of_nat f2 ->
  verify_loop f1 id start timeout s = verify_loop f2 id start timeout s.
Proof.
  revert f2 s. induction f1 as [|f1 IH]; intros f2 s H1 H2;
    rewrite (verify_loop_unfold _ id), (verify_loop_unfold f2 id);
    destruct (now s - start <? timeout) eqn:Hlt; try reflexivity;
    apply Z.ltb_lt in Hlt.
  - lia.
  - destruct f2 as [|f2]; [lia|].
    destruct (verify_round_progress id s) as ([|] & s1 & Heq & Hle & Hstep);
      rewrite Heq; [reflexivity|].
    specialize (Hstep eq_refl). apply IH; lia.
Qed.

Lemma verify_device_ready_fuel_enough (id : string) (timeout : Z) (s : St) (n : nat) :
  (Z.to_nat timeout < n)%nat ->
  (start_time <- time_time ;; verify_loop n id start_time timeout) s
  = verify_device_ready id timeout s.
Proof.
  intros Hn. unfold verify_device_ready, bind, time_time, gets.
  apply verify_loop_fuel; lia.
Qed.

(** A round of the confirmation loop returns; unconfirmed, it took at least
    0.2 s. *)
Lemma confirm_round_progress (id : string) (s : St) :
  exists c s1,
    try_catch
      (ready <- verify_device_ready id 500 ;;
       if ready then ret true else sleep 200 ;;; ret false)
      (fun _ => sleep 200 ;;; ret false) s = (Returned c, s1)
    /\ now s <= now s1
    /\ (c = false -> now s + 200 <= now s1).
Proof.
  unfold try_catch, verify_device_ready.
  unfold bind at 1. unfold bind at 1. unfold time_time, gets.
  destruct (verify_loop_returns (S (Z.to_nat 500)) id (now s) 500 s)
    as ([|] & s1 & Heq & Hle); rewrite Heq.
  - eexists _, _. split; [reflexivity|]. split; [lia | discriminate].
  - eexists _, _. split; [reflexivity|]. simpl. lia.
Qed.

Lemma confirm_loop_unfold (fuel : nat) (id : string) (deadline : Z) (s : St) :
  confirm_loop fuel id deadline s =
  if now s <? deadline then
    match fuel with
    | O => (Returned false, s)
    | S fuel' =>
        match try_catch
                (ready <- verify_device_ready id 500 ;;
                 if ready then ret true else sleep 200 ;;; ret false)
                (fun _ => sleep 200 ;;; ret false) s with
        | (Returned true, s1) => (Returned true, s1)
        | (Returned false, s1) => confirm_loop fuel' id deadline s1
        | (Raised e, s1) => (Raised e, s1)
        end
    end
  else (Returned false, s).
Proof.
  destruct fuel; simpl; unfold bind at 1; unfold time_time, gets;
    destruct (now s <? deadline); try reflexivity.
  unfold bind at 1.
  destruct (try_catch _ _ s) as [[[|]|e] s1]; reflexivity.
Qed.

Lemma confirm_loop_fuel (f1 f2 : nat) (id : string) (deadline : Z) (s : St) :
  deadline - now s <= Z.of_nat f1 ->
  deadline - now s <= Z.of_nat f2 ->
  confirm_loop f1 id deadline s = confirm_loop f2 id deadline s.
Proof.
  revert f2 s. induction f1 as [|f1 IH]; intros f2 s H1 H2;
    rewrite (confirm_loop_unfold _ id), (confirm_loop_unfold f2 id);
    destruct (now s <? deadline) eqn:Hlt; try reflexivity;
    apply Z.ltb_lt in Hlt.
  - lia.
  - destruct f2 as [|f2]; [lia|].
    destruct (confirm_round_progress id s) as ([|] & s1 & Heq & Hle & Hstep);
      rewrite Heq; [reflexivity|].
    specialize (Hstep eq_refl). apply IH; lia.
Qed.

Lemma confirm_fuel_enough (cfg : AlarmPlaybackConfig) (id : string) (s : St) (n : nat) :
  (Z.to_nat (failover_fire_after_ms (timings cfg)) < n)%nat ->
  (t <- time_time ;;
   confirm_loop n id (t + failover_fire_after_ms (timings cfg))) s
  = confirm cfg id s.
Proof.
  intros Hn. unfold confirm, bind, time_time, gets.
  apply confirm_loop_fuel; lia.
Qed.

(** A round of the cloud poll returns; without the device, it took at
    least half a second. *)
Lemma poll_round_progress (target : target_ref) (fast_until : Z) (s : St) :
  exists found s1,
    try_catch
      (devices <- api_get_devices ;;
       p <- gets (read_target target) ;;
       reg <- gets registry ;;
       match _pick_device reg devices (dp_name p) with
       | Some cloud_device =>
           learn target (cd_name cloud_device) ;;;
           ret (Some cloud_device)
       | None =>
           t' <- time_time ;;
           sleep (if t' <? fast_until then 500 else 1000) ;;;
           ret None
       end)
      (fun _ => sleep 1000 ;;; ret None) s = (Returned found, s1)
    /\ now s <= now s1
    /\ (found = None -> now s + 500 <= now s1).
Proof.
  unfold try_catch, api_get_devices.
  unfold bind at 1. unfold bind at 1. unfold call.
  destruct (script s) as [|[lat [v|e]] rest].
  - eexists _, _. split; [reflexivity|]. simpl. lia.
  - assert (Hd : (exists l, as_devices v = ret l) \/ as_devices v = raise type_error).
    { destruct v; simpl; eauto. }
    destruct Hd as [[l Hd] | Hd]; rewrite Hd.
    + unfold ret at 1. unfold bind at 1. unfold gets at 1.
      unfold bind at 1. unfold gets at 1.
      match goal with |- context [_pick_device ?r l ?n] =>
        destruct (_pick_device r l n) as [cd|] end.
      * unfold learn, write_target, bind, modify, ret.
        eexists _, _. split; [reflexivity|].
        destruct target; simpl; split; try lia; discriminate.
      * unfold bind at 1. unfold time_time at 1, gets at 1.
        match goal with |- context [if ?c then 500 else 1000] => destruct c end;
          eexists _, _; (split; [reflexivity|]); simpl; lia.
    + eexists _, _. split; [reflexivity|]. simpl. lia.
  - eexists _, _. split; [reflexivity|]. simpl. lia.
Qed.

Lemma poll_loop_unfold (fuel : nat) (target : target_ref) (deadline fast_until : Z)
    (s : St) :
  poll_loop fuel target deadline fast_until s =
  if now s <? deadline then
    match fuel with
    | O => (Returned None, s)
    | S fuel' =>
        match try_catch
                (devices <- api_get_devices ;;
                 p <- gets (read_target target) ;;
                 reg <- gets registry ;;
                 match _pick_device reg devices (dp_name p) with
                 | Some cloud_device =>
                     learn target (cd_name cloud_device) ;;;
                     ret (Some cloud_device)
                 | None =>
                     t' <- time_time ;;
                     sleep (if t' <? fast_until then 500 else 1000) ;;;
                     ret None
                 end)
                (fun _ => sleep 1000 ;;; ret None) s with
        | (Returned (Some cloud_device), s1) => (Returned (Some cloud_device), s1)
        | (Returned None, s1) => poll_loop fuel' target deadline fast_until s1
        | (Raised e, s1) => (Raised e, s1)
        end
    end
  else (Returned None, s).
Proof.
  destruct fuel; simpl; unfold bind at 1; unfold time_time, gets;
    destruct (now s <? deadline); try reflexivity.
  unfold bind at 1.
  destruct (try_catch _ _ s) as [[[cd|]|e] s1]; reflexivity.
Qed.

Lemma poll_loop_fuel (f1 f2 : nat) (target : target_ref) (deadline fast_until : Z)
    (s : St) :
  deadline - now s <= Z.of_nat f1 ->
  deadline - now s <= Z.of_nat f2 ->
  poll_loop f1 target deadline fast_until s
  = poll_loop f2 target deadline fast_until s.
Proof.
  revert f2 s. induction f1 as [|f1 IH]; intros f2 s H1 H2;
    rewrite (poll_loop_unfold _ target), (poll_loop_unfold f2 target);
    destruct (now s <? deadline) eqn:Hlt; try reflexivity;
    apply Z.ltb_lt in Hlt.
  - lia.
  - destruct f2 as [|f2]; [lia|].
    destruct (poll_round_progress target fast_until s)
      as ([cd|] & s1 & Heq & Hle & Hstep); rewrite Heq; [reflexivity|].
    specialize (Hstep eq_refl). apply IH; lia.
Qed.

Lemma poll_fuel_enough (cfg : AlarmPlaybackConfig) (target : target_ref)
    (fast_until : Z) (s : St) (n : nat) :
  (Z.to_nat (total_poll_deadline_ms (timings cfg)) < n)%nat ->
  poll_loop n target (now s + total_poll_deadline_ms (timings cfg)) fast_until s
  = poll_loop (S (Z.to_nat (total_poll_deadline_ms (timings cfg)))) target
      (now s + total_poll_deadline_ms (timings cfg)) fast_until s.
Proof. intros Hn. apply poll_loop_fuel; lia. Qed.

(** ** Learning cloud names *)

(** X1. Learning a cloud name twice is learning it once: afterwards the name
    is in [spotify_device_names], and the list is one longer exactly when
    the name was new. *)
Theorem learning_is_idempotent (n : string) (p : DeviceProfile) :
  learn_name n (learn_name n p) = learn_name n p
  /\ n ∈ dp_spotify_device_names (learn_name n p)
  /\ length (dp_spotify_device_names (learn_name n p))
     = (length (dp_spotify_device_names p)
        + (if bool_decide (n ∈ dp_spotify_device_names p) then 0 else 1))%nat.
Proof.
  unfold learn_name.
  destruct (decide (n ∈ dp_spotify_device_names p)) as [Hin|Hin].
  - rewrite !(bool_decide_eq_true_2 _ Hin). repeat split; auto; lia.
  - rewrite !(bool_decide_eq_false_2 _ Hin). simpl.
    rewrite bool_decide_eq_true_2 by set_solver.
    repeat split; [set_solver|]. rewrite length_app. reflexivity.
Qed.

Lemma learned_name_in_matching_names (n : string) (p : DeviceProfile) :
  n <> "" -> In n (get_all_matching_names (learn_name n p)).
Proof.
  intros Hn. unfold get_all_matching_names. apply filter_In. split.
  - right. right. apply list_elem_of_In.
    unfold learn_name. case_bool_decide; [assumption | simpl; set_solver].
  - apply truthy_true_iff, Hn.
Qed.

(** X2. What a run learns serves the next one: once the profile registered
    under the target has learned the name a cloud device presents,
    [_pick_device] finds a device in every cloud list that holds that
    device. *)
Theorem learned_name_is_matched (reg : gmap string DeviceProfile) (t : string)
    (p : DeviceProfile) (d : CloudDevice) (L1 L2 : list CloudDevice) :
  reg !! t = Some p -> t <> "" -> cd_name d <> "" ->
  exists d',
    _pick_device (alter (learn_name (cd_name d)) t reg) (L1 ++ d :: L2) t = Some d'.
Proof.
  intros Hp Ht Hd.
  set (reg' := alter (learn_name (cd_name d)) t reg).
  assert (Hin : normalize (cd_name d) ∈ normalized_names reg' t).
  { unfold normalized_names, reg'. rewrite lookup_alter_eq, Hp. simpl.
    apply elem_of_list_to_set, list_elem_of_fmap.
    exists (cd_name d). split; [reflexivity|].
    apply list_elem_of_In, learned_name_in_matching_names, Hd. }
  destruct (_pick_device reg' (L1 ++ d :: L2) t) as [d'|] eqn:Hpick; [eauto|].
  exfalso. unfold _pick_device in Hpick.
  destruct (L1 ++ d :: L2) as [|d0 rest] eqn:HL; [destruct L1; discriminate|].
  assert (Htr : PyStr.truthy t = true) by (apply truthy_true_iff, Ht).
  rewrite Htr in Hpick. simpl negb in Hpick. cbv iota zeta in Hpick.
  rewrite (pick_device_set reg' t Ht) in Hpick.
  apply pick_loop_None in Hpick. rewrite <- HL in Hpick.
  apply Forall_app in Hpick as [_ Hpick].
  inversion Hpick as [|? ? [Hempty | Hnot] _]; subst; [congruence | contradiction].
Qed.

Lemma learned_name_is_matched_witness :
  exists d',
    _pick_device (alter (learn_name (cd_name (cloud_device "D3" "Office Play:5")))
                        "Office" {["Office" := minimal_device_profile "Office"]})
                 ([cloud_device "D7" "Hall"]
                  ++ cloud_device "D3" "Office Play:5" :: [])
                 "Office" = Some d'.
Proof.
  apply (learned_name_is_matched {["Office" := minimal_device_profile "Office"]}
           "Office" (minimal_device_profile "Office")
           (cloud_device "D3" "Office Play:5") [cloud_device "D7" "Hall"] []).
  - reflexivity.
  - discriminate.
  - discriminate.
Defined.

(** ** [_failover] *)

(** X3. [_failover] touches neither the registry nor the breakers, logs
    the fallback event first, and ends in one of two ways: it returns with
    branch "fallback" and the entry ("Primary failed: reason", "fallback")
    added to [errors], or it raises the fallback-exhausted [RuntimeError]
    with branch "failed:reason" and the entry ("Fallback failed: reason",
    "fallback") added. *)
Theorem failover_effect (cfg : AlarmPlaybackConfig) (t reason : string) (s : St) :
  match _failover cfg t reason s with
  | (r, s') =>
      registry s' = registry s
      /\ circuit_breakers s' = circuit_breakers s
      /\ (exists tail, calls s' = calls s ++ LogFallback t "primary" reason :: tail)
      /\ match r with
         | Returned _ =>
             branch (metrics s') = Some "fallback"
             /\ errors (metrics s')
                = errors (metrics s) ++ [("Primary failed: " +:+ reason, "fallback")]
         | Raised e =>
             e = runtime_error (fallback_exhausted +:+ ": " +:+ reason)
             /\ branch (metrics s') = Some ("failed:" +:+ reason)
             /\ errors (metrics s')
                = errors (metrics s) ++ [("Fallback failed: " +:+ reason, "fallback")]
         end
  end.
Proof.
  cbv beta delta [_failover try_catch bind log modify gets on_metrics ret raise
                  call _get_target_profile].
  simpl.
  destruct (registry s !! t) as [p|]; simpl.
  2:{ repeat split; eauto. }
  destruct (truthy_opt (dp_ip p)); simpl.
  2:{ repeat split; eauto. }
  destruct (script s) as [|[lat [v|e]] rest]; simpl;
    repeat split; try (rewrite <- app_assoc; simpl; eauto).
Qed.

(** X4. Without a registered profile, or with a profile that has no IP
    address, the fallback has nothing to fall back on: [_failover] calls no
    transport, consumes no answer, and raises. *)
Theorem failover_needs_address (cfg : AlarmPlaybackConfig) (t reason : string) (s : St) :
  match registry s !! t with
  | Some p => truthy_opt (dp_ip p) = false
  | None => True
  end ->
  exists s',
    _failover cfg t reason s
    = (Raised (runtime_error (fallback_exhausted +:+ ": " +:+ reason)), s')
    /\ calls s' = calls s ++ [LogFallback t "primary" reason]
    /\ script s' = script s
    /\ now s' = now s.
Proof.
  intros H.
  cbv beta delta [_failover try_catch bind log modify gets on_metrics ret raise
                  call _get_target_profile].
  simpl. destruct (registry s !! t) as [p|]; simpl.
  - rewrite H. simpl. eexists. repeat split.
  - eexists. repeat split.
Qed.

Lemma failover_needs_address_witness :
  exists s',
    _failover alarm_config "Kitchen" "no_mdns" cold_wake_world
    = (Raised (runtime_error (fallback_exhausted +:+ ": " +:+ "no_mdns")), s')
    /\ calls s' = calls cold_wake_world ++ [LogFallback "Kitchen" "primary" "no_mdns"]
    /\ script s' = script cold_wake_world
    /\ now s' = now cold_wake_world.
Proof.
  apply (failover_needs_address alarm_config "Kitchen" "no_mdns" cold_wake_world).
  reflexivity.
Defined.

(** ** [stage_device] *)

(** X5. [stage_device]: when the transfer fails its error is raised
    again, and neither a volume call nor the settle sleep happen. When the
    transfer succeeds the call returns, 0.2 s after its last request,
    whatever the volume request does: with a volume it has made exactly
    [Transfer(id, play=false)] and [Volume(id, v)], without one the transfer
    alone and no volume call. *)
Theorem stage_device_cases (id : string) (volume : option Z) (s : St) :
  match script s with
  | [] =>
      exists s', stage_device id volume s = (Raised no_response, s')
                 /\ calls s' = calls s ++ [CallTransfer id false]
  | (l1, Raised e) :: rest =>
      exists s', stage_device id volume s = (Raised e, s')
                 /\ calls s' = calls s ++ [CallTransfer id false]
                 /\ script s' = rest
                 /\ now s' = now s + Z.of_N l1
  | (l1, Returned _) :: rest =>
      exists s',
        stage_device id volume s = (Returned tt, s')
        /\ match volume with
           | Some v =>
               calls s' = calls s ++ [CallTransfer id false; CallVolume id v]
               /\ script s' = tail rest
               /\ now s' = now s + Z.of_N l1
                           + match rest with
                             | [] => 0
                             | (l2, _) :: _ => Z.of_N l2
                             end + 200
           | None =>
               calls s' = calls s ++ [CallTransfer id false]
               /\ script s' = rest
               /\ now s' = now s + Z.of_N l1 + 200
           end
  end.
Proof.
  cbv beta delta [stage_device try_catch bind sleep modify ret raise call].
  destruct (script s) as [|[l1 [v1|e1]] rest]; simpl.
  - eexists. split; reflexivity.
  - destruct volume as [v|].
    + destruct rest as [|[l2 [v2|e2]] rest']; simpl;
        eexists; (split; [reflexivity|]); simpl;
        rewrite <- app_assoc; repeat split; lia.
    + simpl. eexists. repeat split.
  - eexists. repeat split.
Qed.

(** ** [verify_device_ready] *)

(** X6. [verify_device_ready] never raises: errors of the playback query
    are caught, the answer is a boolean, and the clock has not gone back. *)
Theorem verify_device_ready_never_raises (id : string) (timeout : Z) (s : St) :
  exists b s',
    verify_device_ready id timeout s = (Returned b, s')
    /\ now s <= now s'
    /\ (timeout <= 0 -> b = false /\ s' = s).
Proof.
  unfold verify_device_ready. unfold bind at 1. unfold time_time, gets.
  destruct (verify_loop_returns (S (Z.to_nat timeout)) id (now s) timeout s)
    as (b & s' & Heq & Hle).
  exists b, s'. split; [exact Heq|]. split; [exact Hle|].
  intros Ht. rewrite verify_loop_unfold in Heq.
  replace (now s - now s <? timeout) with false in Heq
    by (symmetry; apply Z.ltb_ge; lia).
  injection Heq as <- <-. auto.
Qed.

(** X7. With a timeout of at most half a second, as in the confirmation
    loop, [verify_device_ready] asks for the current playback exactly once;
    it answers [True] exactly when that one answer names the device, and
    then without sleeping. *)
Theorem verify_device_ready_one_poll (id : string) (timeout : Z) (s : St) :
  0 < timeout <= 500 ->
  exists b s',
    verify_device_ready id timeout s = (Returned b, s')
    /\ calls s' = calls s ++ [CallCurrentPlayback]
    /\ script s' = tail (script s)
    /\ b = match script s with
           | (_, Returned v) :: _ => reports_device id v
           | _ => false
           end
    /\ (b = false -> now s + 500 <= now s').
Proof.
  intros Ht. unfold verify_device_ready. unfold bind at 1. unfold time_time, gets.
  rewrite verify_loop_unfold.
  replace (now s - now s <? timeout) with true by (symmetry; apply Z.ltb_lt; lia).
  cbv beta delta [try_catch bind call sleep modify ret raise]. simpl.
  destruct (script s) as [|[lat [v|e]] rest]; simpl.
  - rewrite verify_loop_unfold. simpl.
    replace (now s + 500 - now s <? timeout) with false
      by (symmetry; apply Z.ltb_ge; lia).
    eexists _, _. repeat split. simpl. lia.
  - destruct (reports_device id v) eqn:Hr; simpl.
    + eexists _, _. repeat split. discriminate.
    + rewrite verify_loop_unfold. simpl.
      replace (now s + Z.of_N lat + 500 - now s <? timeout) with false
        by (symmetry; apply Z.ltb_ge; lia).
      eexists _, _. repeat split. simpl. lia.
  - rewrite verify_loop_unfold. simpl.
    replace (now s + Z.of_N lat + 500 - now s <? timeout) with false
      by (symmetry; apply Z.ltb_ge; lia).
    eexists _, _. repeat split. simpl. lia.
Qed.

Lemma verify_device_ready_one_poll_witness :
  exists b s',
    verify_device_ready "D1" 500 fast_path_world = (Returned b, s')
    /\ calls s' = calls fast_path_world ++ [CallCurrentPlayback]
    /\ script s' = tail (script fast_path_world)
    /\ b = match script fast_path_world with
           | (_, Returned v) :: _ => reports_device "D1" v
           | _ => false
           end
    /\ (b = false -> now fast_path_world + 500 <= now s').
Proof.
  apply (verify_device_ready_one_poll "D1" 500 fast_path_world). lia.
Defined.

(** ** The circuit breaker gate *)

Lemma phase_webapi_check_miss (cfg : AlarmPlaybackConfig) (t : string) (t0 : Z)
    (s : St) (lat : N) (r1 : outcome Value) (rest : list Response) :
  script s = (lat, r1) :: rest ->
  misses (registry s) t r1 ->
  phase_webapi_check cfg t t0 s
  = (Returned (Next tt),
     with_world (now s + Z.of_N lat) rest (calls s ++ [CallDevices]) s).
Proof.
  intros Hs Hm.
  cbv beta iota zeta delta [phase_webapi_check try_catch bind api_get_devices call
                  time_time gets ret raise].
  rewrite Hs. destruct r1 as [v|e]; [|reflexivity].
  destruct v; simpl in *; try reflexivity.
  rewrite Hm. reflexivity.
Qed.

(** After the log line, [_failover] makes at most one call, on the
    fallback transport; it leaves the breakers alone. *)
Lemma failover_calls (cfg : AlarmPlaybackConfig) (t reason : string) (s : St) :
  match _failover cfg t reason s with
  | (r, s') =>
      (exists tail,
         calls s' = calls s ++ LogFallback t "primary" reason :: tail
         /\ (tail = [] \/
             exists ips, tail = [CallAirplayFallback ips t (context_uri cfg)]))
      /\ circuit_breakers s' = circuit_breakers s
      /\ match r with
         | Returned _ => branch (metrics s') = Some "fallback"
         | Raised e => e = runtime_error (fallback_exhausted +:+ ": " +:+ reason)
         end
  end.
Proof.
  cbv beta delta [_failover try_catch bind log modify gets on_metrics ret raise
                  call _get_target_profile].
  simpl.
  destruct (registry s !! t) as [p|]; simpl; [|eauto 10].
  destruct (truthy_opt (dp_ip p)); simpl; [|eauto 10].
  destruct (script s) as [|[lat [v|e]] rest]; simpl;
    rewrite <- app_assoc; simpl; eauto 10.
Qed.

(** X8. An open breaker bypasses the primary path. When the first cloud
    query does not yield the target and the target's breaker says bypass,
    the run goes straight to the fallback with reason
    [circuit_breaker_open]: after [Devices] there is no wake-up, mDNS,
    getInfo, addUser, transfer or play call, only the fallback's log line
    and at most its one transport call. If the fallback works the run
    returns with branch "fallback"; if not, it raises and the failure count
    goes up by one. *)
Theorem open_breaker_skips_primary (cfg : AlarmPlaybackConfig) (t : string) (s : St)
    (lat : N) (r1 : outcome Value) (rest : list Response) (cb : CircuitBreakerState) :
  script s = (lat, r1) :: rest ->
  misses (registry s) t r1 ->
  circuit_breakers s !! t = Some cb ->
  cb_should_bypass_primary (breaker cfg) (now s + Z.of_N lat) cb = true ->
  match play_alarm cfg t s with
  | (r, s') =>
      (exists tail,
         calls s' = calls s ++ CallDevices
                      :: LogFallback t "primary" "circuit_breaker_open" :: tail
         /\ (tail = [] \/
             exists ips, tail = [CallAirplayFallback ips t (context_uri cfg)]))
      /\ match r with
         | Returned m => branch m = Some "fallback"
         | Raised e =>
             e = runtime_error (fallback_exhausted +:+ ": circuit_breaker_open")
             /\ breaker_failures t s' = failure_count cb + 1
         end
  end.
Proof.
  intros Hs Hm Hcb Hby. rewrite play_alarm_unfold.
  unfold guarded, finally, try_catch, timeline, timeline_to_play, bindF.
  unfold bind at 1. unfold bind at 1.
  rewrite (phase_webapi_check_miss cfg t (now s) (start_state s) lat r1 rest Hs Hm).
  set (s1 := with_world _ _ _ (start_state s)).
  assert (Hres : exists target s2,
             resolve_target t s1 = (Returned target, s2)
             /\ now s2 = now s1 /\ calls s2 = calls s1
             /\ circuit_breakers s2 = circuit_breakers s1).
  { unfold resolve_target, bind, gets, _get_target_profile, modify, ret.
    destruct (registry s1 !! t); eexists _, _; repeat split. }
  destruct Hres as (target & s2 & Hres & Hn2 & Hc2 & Hb2).
  unfold bind at 1. rewrite Hres.
  assert (Hgate : _should_bypass_primary cfg t s2 = (Returned true, s2)).
  { unfold _should_bypass_primary, bind, ensure_breaker, modify, gets.
    rewrite Hb2. subst s1. simpl. rewrite Hcb.
    rewrite Hb2. simpl. rewrite Hcb, Hn2. simpl. rewrite Hby. reflexivity. }
  unfold bind at 1. rewrite Hgate. unfold bind at 1.
  pose proof (failover_calls cfg t "circuit_breaker_open" s2) as He.
  destruct (_failover cfg t "circuit_breaker_open" s2) as [[[]|e] s3];
    destruct He as ((tail & Hcalls & Htail) & Hb3 & He).
  - simpl. split; [|exact He].
    exists tail. split; [|exact Htail]. rewrite Hcalls, Hc2. subst s1. simpl.
    rewrite <- app_assoc. reflexivity.
  - subst e.
    unfold on_exception. unfold bind at 1.
    destruct (record_failure_counts cfg t s3) as (s4 & Hr & Hcount & Hc4 & _).
    rewrite Hr.
    assert (Hmark : PyStr.contains fallback_exhausted
              (exn_msg (runtime_error
                 (fallback_exhausted +:+ ": " +:+ "circuit_breaker_open"))) = true)
      by apply contains_prefix.
    rewrite Hmark. simpl. split.
    + exists tail. split; [|exact Htail]. rewrite Hc4, Hcalls, Hc2. subst s1. simpl.
      rewrite <- app_assoc. reflexivity.
    + split; [reflexivity|].
      unfold breaker_failures in *. simpl. rewrite Hcount, Hb3, Hb2.
      subst s1. simpl. rewrite Hcb. reflexivity.
Qed.

Lemma open_breaker_skips_primary_witness :
  match play_alarm alarm_config "Kitchen" open_breaker_world with
  | (r, s') =>
      (exists tail,
         calls s' = calls open_breaker_world ++ CallDevices
                      :: LogFallback "Kitchen" "primary" "circuit_breaker_open" :: tail
         /\ (tail = [] \/
             exists ips,
               tail = [CallAirplayFallback ips "Kitchen" (context_uri alarm_config)]))
      /\ match r with
         | Returned m => branch m = Some "fallback"
         | Raised e =>
             e = runtime_error (fallback_exhausted +:+ ": circuit_breaker_open")
             /\ breaker_failures "Kitchen" s'
                = failure_count {| cb_device_name := "Kitchen"; failure_count := 3;
                                   last_failure_time := Some 900; is_open := true |} + 1
         end
  end.
Proof.
  apply (open_breaker_skips_primary alarm_config "Kitchen" open_breaker_world
           100 (Returned (VDevices [])) [answer 400 VNone]); reflexivity.
Defined.

(** ** The confirmation loop *)

Lemma confirm_loop_returns (fuel : nat) (id : string) (deadline : Z) (s : St) :
  exists b s', confirm_loop fuel id deadline s = (Returned b, s')
               /\ now s <= now s'.
Proof.
  revert s. induction fuel as [|fuel IH]; intros s; rewrite confirm_loop_unfold;
    destruct (now s <? deadline); try (eexists _, _; split; [reflexivity | lia]).
  destruct (confirm_round_progress id s) as ([|] & s1 & Heq & Hle & _); rewrite Heq.
  - eexists _, _; split; [reflexivity | lia].
  - destruct (IH s1) as (b & s' & Heq' & Hle'). rewrite Heq'.
    eexists _, _; split; [reflexivity | lia].
Qed.

(** X9. The confirmation never raises, and it is sound: it answers
    [True] only if some answer of the world names the device as the one
    playing. With a window that is not positive it asks nothing and
    answers [False]. *)
Theorem confirm_is_sound (cfg : AlarmPlaybackConfig) (id : string) (s : St) :
  exists b s',
    confirm cfg id s = (Returned b, s')
    /\ now s <= now s'
    /\ (b = true -> ~ Forall (no_report id) (script s))
    /\ (failover_fire_after_ms (timings cfg) <= 0 -> b = false /\ s' = s).
Proof.
  unfold confirm. unfold bind at 1. unfold time_time, gets.
  destruct (confirm_loop_returns
              (S (Z.to_nat (failover_fire_after_ms (timings cfg)))) id
              (now s + failover_fire_after_ms (timings cfg)) s)
    as (b & s' & Heq & Hle).
  exists b, s'. split; [exact Heq|]. split; [exact Hle|]. split.
  - intros -> Hall.
    destruct (confirm_loop_unconfirmed
                (S (Z.to_nat (failover_fire_after_ms (timings cfg)))) id
                (now s + failover_fire_after_ms (timings cfg)) s Hall)
      as (s2 & Heq2 & _).
    congruence.
  - intros Hw. rewrite confirm_loop_unfold in Heq.
    replace (now s <? now s + failover_fire_after_ms (timings cfg)) with false in Heq
      by (symmetry; apply Z.ltb_ge; lia).
    injection Heq as <- <-. auto.
Qed.

(** ** [prepare_device_for_playback] and [wait_for_playback_to_start] *)

Lemma call_effect (c : Call) (s : St) :
  match call c s with
  | (r, s') =>
      calls s' = calls s ++ [c] /\ now s <= now s'
      /\ registry s' = registry s /\ circuit_breakers s' = circuit_breakers s
      /\ match script s with
         | [] => r = Raised no_response /\ script s' = [] /\ now s' = now s
         | (lat, r0) :: rest =>
             r = r0 /\ script s' = rest /\ now s' = now s + Z.of_N lat
         end
  end.
Proof.
  unfold call. destruct (script s) as [|[lat r0] rest]; simpl;
    repeat split; lia.
Qed.

(** X10. [prepare_device_for_playback] sets no volume but the preset
    or, without a preset, the volume the cloud reports for the device. When
    it returns, it has made the transfer (with play=False) and then exactly
    one volume call with that value, or none when neither is known, and at
    least 0.7 s have passed; a preset wins over the reported volume, also
    when it is 0. When it raises, the transfer is the only call made, and
    the error is the transfer's. *)
Theorem prepare_device_volume (device : CloudDevice) (volume_preset : option Z)
    (s : St) :
  match prepare_device_for_playback device volume_preset s with
  | (Returned _, s') =>
      calls s' = calls s ++ CallTransfer (cd_id device) false
                   :: match volume_preset, cd_volume_percent device with
                      | Some v, _ => [CallVolume (cd_id device) v]
                      | None, Some v => [CallVolume (cd_id device) v]
                      | None, None => []
                      end
      /\ now s + 700 <= now s'
  | (Raised e, s') =>
      calls s' = calls s ++ [CallTransfer (cd_id device) false]
      /\ match script s with
         | [] => e = no_response
         | (_, r0) :: _ => r0 = Raised e
         end
  end.
Proof.
  unfold prepare_device_for_playback, stage_device.
  cbv beta iota zeta delta [bind try_catch ret sleep modify raise].
  pose proof (call_effect (CallTransfer (cd_id device) false) s) as H1.
  destruct (call (CallTransfer (cd_id device) false) s) as [[v1|e1] s1];
    destruct H1 as (Hc1 & Hn1 & _ & _ & Hs1).
  - assert (Hvol : forall v,
      match (let (r, s') := call (CallVolume (cd_id device) v) s1 in
             match r with
             | Returned _ => (Returned tt, s')
             | Raised _ => (Returned tt, s')
             end) with
      | (r, s2) => r = Returned tt /\ now s1 <= now s2
                   /\ calls s2 = calls s1 ++ [CallVolume (cd_id device) v]
      end).
    { intros v. pose proof (call_effect (CallVolume (cd_id device) v) s1) as H2.
      destruct (call (CallVolume (cd_id device) v) s1) as [[v2|e2] s2];
        destruct H2 as (Hc2 & Hn2 & _); auto. }
    destruct volume_preset as [v|]; [|destruct (cd_volume_percent device) as [v|]].
    + specialize (Hvol v).
      destruct (call (CallVolume (cd_id device) v) s1) as [[v2|e2] s2];
        destruct Hvol as (_ & Hn2 & Hc2); simpl; (split; [|lia]);
        rewrite Hc2, Hc1, <- app_assoc; auto.
    + specialize (Hvol v).
      destruct (call (CallVolume (cd_id device) v) s1) as [[v2|e2] s2];
        destruct Hvol as (_ & Hn2 & Hc2); simpl; (split; [|lia]);
        rewrite Hc2, Hc1, <- app_assoc; auto.
    + simpl. split; [|lia]. rewrite Hc1. auto.
  - split; [exact Hc1|].
    destruct (script s) as [|[lat r0] rest]; destruct Hs1 as (He & _); congruence.
Qed.

Lemma get_device_playback_state_effect (device_id : string) (s : St) :
  exists o s',
    get_device_playback_state device_id s = (Returned o, s')
    /\ calls s' = calls s ++ [CallCurrentPlayback]
    /\ now s <= now s'
    /\ (forall x, In x (script s') -> In x (script s))
    /\ (says_playing o = true -> answers_playing device_id (script s)).
Proof.
  unfold get_device_playback_state, try_catch, bind, ret.
  pose proof (call_effect CallCurrentPlayback s) as H.
  destruct (call CallCurrentPlayback s) as [[v|e] s1];
    destruct H as (Hc & Hn & _ & _ & Hs).
  - assert (Htail : forall x, In x (script s1) -> In x (script s)).
    { destruct (script s) as [|[lat r0] rest].
      - destruct Hs as (_ & -> & _). auto.
      - destruct Hs as (_ & -> & _). intros x Hx. right. exact Hx. }
    destruct (reports_device device_id v) eqn:Hrep.
    + exists (Some v), s1. repeat split; auto.
      intros Hp. destruct v as [| | | |[i|] p| |]; simpl in *; try discriminate.
      apply String.eqb_eq in Hrep. subst i p.
      destruct (script s) as [|[lat r0] rest].
      * destruct Hs as (Hr & _). discriminate.
      * destruct Hs as (Hr & _). subst r0. exists lat. left. reflexivity.
    + exists None, s1. repeat split; auto. discriminate.
  - exists None, s1. repeat split; auto; try discriminate.
    destruct (script s) as [|[lat r0] rest].
    + destruct Hs as (_ & -> & _). auto.
    + destruct Hs as (_ & -> & _). intros x Hx. right. exact Hx.
Qed.

Lemma wait_loop_returns (fuel : nat) (device_id : string) (start_time timeout : Z)
    (s : St) :
  exists b s' polls,
    wait_loop fuel device_id start_time timeout s = (Returned b, s')
    /\ calls s' = calls s ++ repeat CallCurrentPlayback polls
    /\ (b = true -> answers_playing device_id (script s)).
Proof.
  revert s. induction fuel as [|fuel IH]; intros s; simpl;
    unfold bind at 1; unfold time_time, gets;
    destruct (now s - start_time <? timeout);
    try (exists false, s, 0%nat; simpl; rewrite app_nil_r;
         repeat split; auto; discriminate).
  destruct (get_device_playback_state_effect device_id s)
    as (o & s1 & Heq & Hc & _ & Hsub & Hplay).
  unfold bind at 1. rewrite Heq.
  destruct (says_playing o) eqn:Ho.
  - exists true, s1, 1%nat. repeat split; auto.
  - unfold bind at 1. unfold sleep. simpl. unfold modify.
    set (s2 := with_world _ _ _ s1).
    destruct (IH s2) as (b & s' & n & Heq' & Hc' & Hplay').
    exists b, s', (S n). split; [exact Heq'|]. split.
    + rewrite Hc'. subst s2. simpl. rewrite Hc, <- app_assoc. reflexivity.
    + intros Hb. destruct (Hplay' Hb) as (lat & Hin).
      exists lat. apply Hsub. exact Hin.
Qed.

(** X11. [wait_for_playback_to_start] never raises. It asks for the
    playback once, with a retry delay of 0.7 s and without shuffle, and then
    only reads the playback state. It answers [True] only if the world has
    said that this very device is playing; an answer that names the device
    but is not playing, or plays on another device, does not count. If the
    play request fails it answers [False] without reading the state. *)
Theorem wait_for_playback_to_start_sound (device_id context_uri : string)
    (timeout : Z) (s : St) :
  exists b s' polls,
    wait_for_playback_to_start device_id context_uri timeout s = (Returned b, s')
    /\ calls s' = calls s ++ CallPlay device_id context_uri 700 false
                    :: repeat CallCurrentPlayback polls
    /\ (b = true -> answers_playing device_id (script s))
    /\ match script s with
       | (_, Returned _) :: _ => True
       | _ => b = false /\ polls = 0%nat
       end.
Proof.
  unfold wait_for_playback_to_start, try_catch. unfold bind at 1.
  pose proof (call_effect (CallPlay device_id context_uri 700 false) s) as H.
  destruct (call (CallPlay device_id context_uri 700 false) s) as [[v|e] s1];
    destruct H as (Hc & _ & _ & _ & Hs).
  - unfold bind at 1. unfold time_time, gets.
    destruct (wait_loop_returns (S (Z.to_nat timeout)) device_id (now s1) timeout s1)
      as (b & s' & n & Heq & Hc' & Hplay).
    rewrite Heq. exists b, s', n. split; [reflexivity|]. split.
    { rewrite Hc', Hc, <- app_assoc. reflexivity. }
    destruct (script s) as [|[lat r0] rest].
    + destruct Hs as (Hr & _). discriminate.
    + destruct Hs as (Hr & Hrest & _). subst r0. split; [|exact I].
      intros Hb. destruct (Hplay Hb) as (l & Hin). exists l. right.
      rewrite <- Hrest. exact Hin.
  - exists false, s1, 0%nat. split; [reflexivity|]. split; [exact Hc|].
    split; [discriminate|].
    destruct (script s) as [|[lat r0] rest]; [auto|].
    destruct Hs as (Hr & _). subst r0. auto.
Qed.

(** ** Key derivation *)

(** X12. With a 20-byte digest, which is what HMAC-SHA1 gives,
    [derive_encryption_keys] returns two keys of 16 bytes: the first 16
    bytes of the digest, and its last 4 bytes followed by 12 zero bytes. The
    first is a key AES accepts, so [encrypt_credentials] does not raise for
    a 16-byte nonce and its ciphertext is as long as the UTF-8 text
    [username:password]. *)
Theorem derived_keys_have_16_bytes
    (hmac_sha1 aes_encrypt_block : bytes -> bytes -> bytes)
    (shared_secret : bytes) (username password : string) (iv : bytes) :
  length (hmac_sha1 shared_secret (utf8 username)) = 20%nat ->
  length iv = 16%nat ->
  let digest := hmac_sha1 shared_secret (utf8 username) in
  let '(encryption_key, hmac_key) :=
    derive_encryption_keys hmac_sha1 shared_secret username in
  encryption_key = firstn 16 digest
  /\ length encryption_key = 16%nat
  /\ hmac_key = skipn 16 digest ++ repeat zero 12
  /\ length hmac_key = 16%nat
  /\ exists encrypted_data,
       encrypt_credentials aes_encrypt_block username password encryption_key iv
       = Returned (encrypted_data, iv)
       /\ length encrypted_data
          = length (utf8 (username +:+ ":" +:+ password)).
Proof.
  intros Hd Hiv. unfold derive_encryption_keys. cbv zeta.
  rewrite Hd. simpl Nat.leb. cbv iota. simpl Nat.sub.
  assert (H16 : length (firstn 16 (hmac_sha1 shared_secret (utf8 username))) = 16%nat)
    by (rewrite length_firstn, Hd; reflexivity).
  repeat split; auto.
  - rewrite length_app, length_skipn, repeat_length, Hd. reflexivity.
  - unfold encrypt_credentials, cipher_ok. rewrite H16, Hiv. simpl.
    eexists. split; [reflexivity|]. unfold aes_ctr_encrypt. apply ctr_from_length.
Qed.

Lemma derived_keys_have_16_bytes_witness :
  let digest := toy_hmac (list_ascii_of_string "secret") (utf8 "bob") in
  let '(encryption_key, hmac_key) :=
    derive_encryption_keys toy_hmac (list_ascii_of_string "secret") "bob" in
  encryption_key = firstn 16 digest
  /\ length encryption_key = 16%nat
  /\ hmac_key = skipn 16 digest ++ repeat zero 12
  /\ length hmac_key = 16%nat
  /\ exists encrypted_data,
       encrypt_credentials toy_block "bob" "pw" encryption_key (repeat "i"%char 16)
       = Returned (encrypted_data, repeat "i"%char 16)
       /\ length encrypted_data = length (utf8 ("bob" +:+ ":" +:+ "pw")).
Proof.
  apply (derived_keys_have_16_bytes toy_hmac toy_block
           (list_ascii_of_string "secret") "bob" "pw" (repeat "i"%char 16));
    reflexivity.
Defined.

(** ** cpath normalisation, continued *)

Lemma rstrip_by_nil_iff (p : ascii -> bool) (s : string) :
  PyStr.rstrip_by p s = "" <-> Forall (fun c => p c = true) (list_ascii_of_string s).
Proof.
  induction s as [|a r IH]; simpl.
  - split; auto.
  - destruct (PyStr.rstrip_by p r) as [|b r'] eqn:Hr.
    + destruct (p a) eqn:Ha; split; intros H; try discriminate.
      * constructor; [exact Ha | apply IH; reflexivity].
      * reflexivity.
      * inversion H; subst. congruence.
    + split; [discriminate|]. intros H. inversion H; subst.
      apply IH in H3. discriminate.
Qed.

Lemma all_slashes (s : string) :
  Forall (fun c => PyStr.is_slash c = true) (list_ascii_of_string s) ->
  s = slashes (String.length s).
Proof.
  induction s as [|a r IH]; simpl; intros H; [reflexivity|].
  inversion H; subst. apply Ascii.eqb_eq in H2. subst a. f_equal. auto.
Qed.

Lemma slashes_all (n : nat) :
  Forall (fun c => PyStr.is_slash c = true) (list_ascii_of_string (slashes n)).
Proof. induction n; simpl; constructor; auto. Qed.

Lemma rstrip_by_keeps (p : ascii -> bool) (s : string) :
  Forall (fun c => p c = false) (list_ascii_of_string s) -> PyStr.rstrip_by p s = s.
Proof.
  induction s as [|a r IH]; simpl; intros H; [reflexivity|].
  inversion H; subst. rewrite IH by assumption. rewrite H2. destruct r; reflexivity.
Qed.

Lemma strip_slashes (n : nat) : PyStr.strip (slashes (S n)) = slashes (S n).
Proof.
  unfold PyStr.strip. simpl PyStr.lstrip_by.
  apply rstrip_by_keeps. generalize (S n). intros k.
  induction k; simpl; constructor; auto.
Qed.

(** X13. The getInfo path comes out empty exactly when the
    advertised cpath consists of two or more slashes and nothing else; for
    every other input it starts with a slash and does not end with one. *)
Theorem getinfo_cpath_empty_iff (c : option string) :
  (getinfo_cpath c = "" <-> exists n, c = Some (slashes (S (S n))))
  /\ (getinfo_cpath c <> "" ->
      PyStr.startswith (getinfo_cpath c) "/" = true
      /\ PyStr.endswith_char (getinfo_cpath c) "/" = false).
Proof.
  split.
  2:{ intros Hne. destruct (getinfo_cpath_shape c) as [He|H]; [contradiction|exact H]. }
  split.
  - assert (Hc : (exists s, c = Some s /\ PyStr.truthy s = true)
                 \/ getinfo_cpath c = default_cpath).
    { destruct c as [[|a r]|]; [right; reflexivity | left; eauto | right; reflexivity]. }
    destruct Hc as [(c1 & -> & Htruthy) | ->]; [|discriminate].
    unfold getinfo_cpath.
    replace (or_default (Some c1) default_cpath) with c1
      by (simpl; rewrite Htruthy; reflexivity).
    destruct (String.eqb c1 "/" || negb (PyStr.truthy c1)
              || String.eqb (PyStr.strip c1) "") eqn:Hb.
    + intros H. discriminate H.
    + apply orb_false_iff in Hb as [Hb Hstrip].
      apply orb_false_iff in Hb as [Hone _].
      destruct (PyStr.startswith c1 "/") eqn:Hstart; simpl; intros H.
      * apply rstrip_by_nil_iff, all_slashes in H.
        destruct c1 as [|a [|b r]]; simpl in *; try discriminate.
        -- injection H as ->. discriminate Hone.
        -- exists (String.length r). rewrite H. reflexivity.
      * rewrite append_nil_l in H.
        destruct (PyStr.rstrip_by PyStr.is_slash c1) eqn:Hr; [|discriminate].
        apply rstrip_by_nil_iff in Hr.
        destruct c1 as [|a r]; simpl in *; [discriminate|].
        inversion Hr; subst. apply Ascii.eqb_eq in H2. subst a.
        unfold PyStr.startswith in Hstart. simpl in Hstart.
        destruct r; discriminate Hstart.
  - intros [n ->]. unfold getinfo_cpath.
    change (or_default (Some (slashes (S (S n)))) default_cpath)
      with (slashes (S (S n))).
    rewrite strip_slashes.
    change (String.eqb (slashes (S (S n))) "/") with (String.eqb (slashes (S n)) "").
    change (String.eqb (slashes (S n)) "") with false.
    change (negb (PyStr.truthy (slashes (S (S n))))) with false.
    change (String.eqb (slashes (S (S n))) "") with false.
    cbv iota. simpl orb. cbv iota.
    assert (Hs : PyStr.startswith (slashes (S (S n))) "/" = true).
    { unfold PyStr.startswith. simpl. destruct (slashes n); reflexivity. }
    rewrite Hs. simpl negb. cbv iota.
    apply rstrip_by_nil_iff, slashes_all.
Qed.

Lemma rstrip_by_fixed (p : ascii -> bool) (c : ascii) (s : string) :
  (forall a, p a = true -> a = c) ->
  s <> "" -> PyStr.endswith_char s c = false -> PyStr.rstrip_by p s = s.
Proof.
  intros Hp. induction s as [|a r IH]; intros Hne Hend; [contradiction|].
  destruct r as [|b r'].
  - simpl in *. destruct (p a) eqn:Ha; [|reflexivity].
    apply Hp in Ha. subst a. rewrite Ascii.eqb_refl in Hend. discriminate.
  - change (PyStr.rstrip_by p (String a (String b r')))
      with (match PyStr.rstrip_by p (String b r') with
            | "" => if p a then "" else String a ""
            | r0 => String a r0
            end).
    rewrite IH; [reflexivity | discriminate | exact Hend].
Qed.

(** X14. Normalising a second time changes nothing: a path the
    normalisation produced is a fixed point of it, the empty result apart,
    which a second pass turns into the default path. *)
Theorem getinfo_cpath_idempotent (c : option string) :
  getinfo_cpath (Some (getinfo_cpath c))
  = if String.eqb (getinfo_cpath c) "" then default_cpath else getinfo_cpath c.
Proof.
  destruct (getinfo_cpath_shape c) as [He | [Hstart Hend]].
  - rewrite He. reflexivity.
  - destruct (startswith_slash _ Hstart) as [r Hr].
    generalize dependent (getinfo_cpath c). intros R Hstart Hend Hr. subst R.
    destruct r as [|b r]; [discriminate Hend|].
    set (R := String "/" (String b r)) in *.
    assert (Hfix : PyStr.rstrip_by PyStr.is_slash R = R).
    { apply (rstrip_by_fixed PyStr.is_slash "/"); [|discriminate|exact Hend].
      intros a Ha. apply Ascii.eqb_eq in Ha. exact Ha. }
    assert (Hstrip : String.eqb (PyStr.strip R) "" = false).
    { unfold PyStr.strip. change (PyStr.lstrip_by PyStr.isspace R) with R.
      destruct (rstrip_by_head PyStr.isspace "/" (String b r)) as [He | [r' He]];
        fold R in He.
      - apply rstrip_by_nil_iff in He. inversion He; subst. discriminate.
      - rewrite He. reflexivity. }
    unfold getinfo_cpath.
    change (or_default (Some R) default_cpath) with R.
    change (String.eqb R "/") with (String.eqb (String b r) "").
    change (String.eqb (String b r) "") with false.
    change (negb (PyStr.truthy R)) with false.
    rewrite Hstrip. simpl orb. cbv iota. rewrite Hstart. simpl negb. cbv iota.
    rewrite Hfix. reflexivity.
Qed.

(** ** Tokens *)

(** X15. The two refresh functions disagree on a token that is still
    valid but has no [refresh_token] key: [refresh_token_legacy] returns it
    as it is, [refresh_token_simple] returns [None]. On a valid token with
    the key both return it unchanged. Neither asks Spotify nor writes the
    token file. *)
Theorem valid_token_without_refresh_key (current_time : Z) (env : SpotifyEnv)
    (refresh_access_token post_token : string -> outcome Token) (write_ok : bool)
    (token : Token) :
  token_truthy token = true ->
  still_valid current_time token = true ->
  refresh_token_legacy current_time env post_token write_ok (Some token)
  = (Some token, None)
  /\ refresh_token_simple current_time env refresh_access_token (Some token)
     = (match tk_refresh_token token with
        | Some _ => Some token
        | None => None
        end, None).
Proof.
  intros Ht Hv. unfold refresh_token_legacy, refresh_token_simple.
  rewrite Ht, Hv. simpl. destruct (tk_refresh_token token); auto.
Qed.

Lemma valid_token_without_refresh_key_witness :
  refresh_token_legacy 4000000 spotify_env (fun _ => Returned new_access_token) true
    (Some token_without_refresh)
  = (Some token_without_refresh, None)
  /\ refresh_token_simple 4000000 spotify_env (fun _ => Returned new_access_token)
       (Some token_without_refresh)
     = (match tk_refresh_token token_without_refresh with
        | Some _ => Some token_without_refresh
        | None => None
        end, None).
Proof.
  apply (valid_token_without_refresh_key 4000000 spotify_env
           (fun _ => Returned new_access_token) (fun _ => Returned new_access_token)
           true token_without_refresh); reflexivity.
Defined.

(** X16. What [refresh_token_simple] returns is either its argument,
    and then that token has a refresh token and at least 60 s left, or the
    token Spotify gave for the argument's refresh token, which is also the
    one it saves. It never returns a token within 60 s of its expiry
    unchanged, and it saves nothing else. *)
Theorem refresh_token_simple_result (current_time : Z) (env : SpotifyEnv)
    (refresh_access_token : string -> outcome Token) (token : option Token) :
  match refresh_token_simple current_time env refresh_access_token token with
  | (Some result, saved) =>
      exists old refresh_token,
        token = Some old /\ tk_refresh_token old = Some refresh_token
        /\ ((still_valid current_time old = true /\ result = old /\ saved = None)
            \/ (still_valid current_time old = false
                /\ refresh_access_token refresh_token = Returned result
                /\ saved = Some result))
  | (None, saved) => saved = None
  end.
Proof.
  unfold refresh_token_simple. destruct token as [old|]; [|reflexivity].
  destruct (token_truthy old); simpl; [|reflexivity].
  destruct (tk_refresh_token old) as [rt|] eqn:Hrt; [|reflexivity].
  destruct (still_valid current_time old) eqn:Hv.
  - exists old, rt. split; [reflexivity|]. split; [exact Hrt|]. left. auto.
  - destruct (negb _); [reflexivity|].
    destruct (refresh_access_token rt) as [new|e] eqn:Hr; [|reflexivity].
    exists old, rt. split; [reflexivity|]. split; [exact Hrt|]. right. auto.
Qed.

(** X17. A token [refresh_token_legacy] has refreshed expires
    [expires_in] seconds after the second of the refresh; it carries the
    response's refresh token if there is one and the old one otherwise, it
    is the token written to the file, and if it lasts more than 60 s a
    second refresh at the same time returns it as it is. *)
Theorem refresh_token_legacy_result (current_time : Z) (env : SpotifyEnv)
    (post_token : string -> outcome Token) (write_ok : bool) (token : option Token) :
  match refresh_token_legacy current_time env post_token write_ok token with
  | (Some result, saved) =>
      exists old,
        token = Some old
        /\ ((still_valid current_time old = true /\ result = old /\ saved = None)
            \/ (still_valid current_time old = false /\ saved = Some result
                /\ exists refresh_token response expires_in,
                     tk_refresh_token old = Some refresh_token
                     /\ post_token refresh_token = Returned response
                     /\ tk_expires_in result = Some expires_in
                     /\ tk_expires_at result = Some (current_time / 1000 + expires_in)
                     /\ tk_refresh_token result
                        = Some (default refresh_token (tk_refresh_token response))
                     /\ (60 < expires_in ->
                         forall post_token' write_ok',
                           refresh_token_legacy current_time env post_token' write_ok'
                             (Some result)
                           = (Some result, None))))
  | (None, saved) => saved = None
  end.
Proof.
  unfold refresh_token_legacy at 1. destruct token as [old|]; [|reflexivity].
  destruct (token_truthy old) eqn:Ht; cbn [negb]; [|reflexivity].
  destruct (still_valid current_time old) eqn:Hv.
  { exists old. split; [reflexivity|]. left. auto. }
  destruct (tk_refresh_token old) as [rt|] eqn:Hrt; [|reflexivity].
  destruct (PyStr.truthy rt); cbn [negb]; [|reflexivity].
  destruct (negb (truthy_opt (env_client_id env))
            || negb (truthy_opt (env_client_secret env))); [reflexivity|].
  destruct (post_token rt) as [response|e] eqn:Hp; [|reflexivity].
  destruct (tk_expires_in (token_update old response)) as [e|] eqn:He; [|reflexivity].
  destruct write_ok; [|reflexivity].
  exists old. split; [reflexivity|]. right. split; [exact Hv|].
  split; [reflexivity|]. exists rt, response, e.
  split; [exact Hrt|]. split; [exact Hp|]. split; [exact He|].
  split; [reflexivity|]. split.
  - simpl. rewrite Hrt. destruct (tk_refresh_token response); reflexivity.
  - intros H60 post' w'. unfold refresh_token_legacy.
    assert (Ht' : token_truthy
                    (set_expires_at (current_time / 1000 + e)
                       (token_update old response)) = true).
    { unfold token_truthy.
      change (tk_expires_at (set_expires_at (current_time / 1000 + e)
                               (token_update old response)))
        with (Some (current_time / 1000 + e)).
      rewrite (bool_decide_eq_true_2 (is_Some (Some (current_time / 1000 + e))))
        by eauto.
      rewrite !orb_true_r. reflexivity. }
    rewrite Ht'. simpl negb. cbv iota.
    assert (Hv' : still_valid current_time
                    (set_expires_at (current_time / 1000 + e)
                       (token_update old response)) = true).
    { unfold still_valid. simpl. apply Z.leb_le.
      pose proof (Z.mod_pos_bound current_time 1000 ltac:(lia)).
      pose proof (Z.div_mod current_time 1000 ltac:(lia)). lia. }
    rewrite Hv'. reflexivity.
Qed.

(** ** The device cache of the web interface *)

(** X18. A listing that [get_devices] fetched is served again, without
    a fetch, by every call with [use_cache] during the next 30 s, whatever
    Spotify would say then; the cache is not re-dated by these calls. *)
Theorem get_devices_serves_cache (use_cache : bool) (t t' : Z) (cache : DeviceCache)
    (devices : list WebDevice) (fetched' : option (list WebDevice)) :
  use_cache && (t <? dc_timestamp cache + dc_ttl cache * 1000) = false ->
  t <= t' < t + 30000 ->
  let cache' := snd (get_devices use_cache t cache (Some devices)) in
  fst (get_devices use_cache t cache (Some devices)) = devices
  /\ get_devices true t' cache' fetched' = (devices, cache').
Proof.
  intros Hstale Ht. unfold get_devices at 1 2 3. rewrite Hstale. simpl.
  split; [reflexivity|]. unfold get_devices. simpl.
  replace (t' <? t + 30 * 1000) with true by (symmetry; apply Z.ltb_lt; lia).
  reflexivity.
Qed.

Lemma get_devices_serves_cache_witness :
  let cache' := snd (get_devices true 200000 old_cache (Some [bedroom_speaker])) in
  fst (get_devices true 200000 old_cache (Some [bedroom_speaker])) = [bedroom_speaker]
  /\ get_devices true 229999 cache' None = ([bedroom_speaker], cache').
Proof.
  apply (get_devices_serves_cache true 200000 229999 old_cache [bedroom_speaker] None).
  - reflexivity.
  - lia.
Defined.

Lemma device_dicts_Forall2 (devices_data : list RawDevice) (devices : list WebDevice) :
  device_dicts devices_data = Some devices
  <-> Forall2 (fun device_data device => device_dict device_data = Some device)
        devices_data devices.
Proof.
  revert devices. induction devices_data as [|rd rest IH]; intros devices; simpl.
  - split.
    + intros [= <-]. constructor.
    + intros H. inversion H. reflexivity.
  - split.
    + destruct (device_dict rd) as [wd|] eqn:Hd; [|discriminate].
      destruct (device_dicts rest) as [ds|] eqn:Hr; [|discriminate].
      intros [= <-]. constructor; [exact Hd | apply IH; reflexivity].
    + intros H. inversion H as [|? wd ? ds Hd Hr]; subst.
      rewrite Hd. apply IH in Hr. rewrite Hr. reflexivity.
Qed.

(** X19. What [get_devices] fetches is Spotify's listing for the
    access token of the refreshed token, entry by entry and in the same
    order, with [False], [False] and 0 for a missing [is_private_session],
    [is_restricted] and [volume_percent]. A single entry without [id],
    [name], [type] or [is_active] makes the fetch fail as a whole, and so
    does a missing token file. *)
Theorem fetch_devices_sound (current_time : Z) (env : SpotifyEnv)
    (refresh_access_token : string -> outcome Token) (token_file : option Token)
    (sp_devices : string -> outcome (option (list RawDevice))) :
  match fetch_devices current_time env refresh_access_token token_file sp_devices with
  | Some devices =>
      exists token access_token devices_data,
        fst (refresh_token_simple current_time env refresh_access_token token_file)
        = Some token
        /\ tk_access_token token = Some access_token
        /\ sp_devices access_token = Returned devices_data
        /\ Forall2 (fun device_data device => device_dict device_data = Some device)
             (default [] devices_data) devices
  | None =>
      token_file = None
      \/ fst (refresh_token_simple current_time env refresh_access_token token_file)
         = None
      \/ exists token,
           fst (refresh_token_simple current_time env refresh_access_token token_file)
           = Some token
           /\ match tk_access_token token with
              | None => True
              | Some access_token =>
                  match sp_devices access_token with
                  | Raised _ => True
                  | Returned devices_data =>
                      Exists (fun device_data => device_dict device_data = None)
                        (default [] devices_data)
                  end
              end
  end.
Proof.
  unfold fetch_devices. destruct token_file as [tok|]; [|auto].
  destruct (token_truthy tok) eqn:Ht; cbn [negb].
  2:{ right. left. unfold refresh_token_simple. rewrite Ht. reflexivity. }
  destruct (fst (refresh_token_simple current_time env refresh_access_token (Some tok)))
    as [token|] eqn:Hr; [|auto].
  destruct (token_truthy token) eqn:Ht'; cbn [negb].
  2:{ right. right. exists token. split; [reflexivity|].
      unfold token_truthy in Ht'. destruct (tk_access_token token); [|exact I].
      rewrite bool_decide_eq_true_2 in Ht' by eauto. discriminate. }
  destruct (tk_access_token token) as [access|] eqn:Ha.
  2:{ right. right. exists token. rewrite Ha. auto. }
  destruct (sp_devices access) as [raw|e] eqn:Hs.
  2:{ right. right. exists token. rewrite Ha, Hs. auto. }
  destruct (device_dicts (default [] raw)) as [ds|] eqn:Hd.
  - exists token, access, raw. repeat split; auto.
    apply device_dicts_Forall2. exact Hd.
  - right. right. exists token. rewrite Ha, Hs. split; [reflexivity|].
    clear -Hd. induction (default [] raw) as [|rd rest IH]; simpl in Hd; [discriminate|].
    destruct (device_dict rd) eqn:Hrd; [|left; exact Hrd].
    right. apply IH. destruct (device_dicts rest); [discriminate | reflexivity].
Qed.

(** X20. After [invalidate_cache] the next call fetches, provided the
    clock is at least the cache's [ttl] past its origin (time 0): what it
    returns is what the fetch gives, the cached list plays no part. *)
Theorem invalidate_cache_forces_fetch (t : Z) (cache : DeviceCache)
    (fetched : option (list WebDevice)) :
  dc_ttl cache * 1000 <= t ->
  fst (get_devices true t (invalidate_cache cache) fetched) = default [] fetched
  /\ dc_devices (invalidate_cache cache) = dc_devices cache.
Proof.
  intros Ht. unfold get_devices, invalidate_cache. simpl.
  replace (t <? 0 + dc_ttl cache * 1000) with false
    by (symmetry; apply Z.ltb_ge; lia).
  destruct fetched; split; reflexivity.
Qed.

Lemma invalidate_cache_forces_fetch_witness :
  fst (get_devices true 100500 (invalidate_cache old_cache) (Some [bedroom_speaker]))
  = default [] (Some [bedroom_speaker])
  /\ dc_devices (invalidate_cache old_cache) = dc_devices old_cache.
Proof.
  apply (invalidate_cache_forces_fetch 100500 old_cache (Some [bedroom_speaker])).
  simpl. lia.
Defined.

(** ** [is_device_online], [get_device_health] and [wait_for_device] *)

Lemma contains_refl (a : string) : PyStr.contains a a = true.
Proof.
  apply contains_true_iff. exists "", "". rewrite append_nil_l.
  induction a as [|c a IH]; [reflexivity|]. rewrite append_cons, <- IH. reflexivity.
Qed.

Lemma get_device_by_name_None (devices : list WebDevice) (device_name : string) :
  get_device_by_name devices device_name = None
  <-> Forall (fun device =>
        PyStr.contains (PyStr.lower device_name) (PyStr.lower (wd_name device)) = false)
        devices.
Proof.
  unfold get_device_by_name. split.
  - destruct (first_where _ devices); [discriminate|].
    destruct (first_where _ devices); [discriminate|].
    apply first_where_None.
  - intros Hall.
    assert (H3 : first_where (fun device =>
                   PyStr.contains (PyStr.lower device_name)
                     (PyStr.lower (wd_name device))) devices = None).
    { induction Hall as [|d r Hd Hr IH]; simpl; [reflexivity|]. rewrite Hd. exact IH. }
    assert (H2 : first_where (fun device =>
                   String.eqb (PyStr.lower (wd_name device)) (PyStr.lower device_name))
                   devices = None).
    { induction Hall as [|d r Hd Hr IH]; simpl; [reflexivity|].
      destruct (String.eqb _ _) eqn:He.
      - apply String.eqb_eq in He. rewrite He, contains_refl in Hd. discriminate.
      - apply IH. simpl in H3. rewrite Hd in H3. exact H3. }
    assert (H1 : first_where (fun device => String.eqb (wd_name device) device_name)
                   devices = None).
    { clear H2 H3. induction Hall as [|d r Hd Hr IH]; simpl; [reflexivity|].
      destruct (String.eqb _ _) eqn:He.
      - apply String.eqb_eq in He. rewrite He, contains_refl in Hd. discriminate.
      - exact IH. }
    rewrite H1, H2. exact H3.
Qed.

Lemma none_or_some {A} (p : A -> bool) (l : list A) :
  Forall (fun x => p x = false) l \/ Exists (fun x => p x = true) l.
Proof.
  induction l as [|x r [IH|IH]].
  - left. constructor.
  - destruct (p x) eqn:Hx; [right; left; exact Hx | left; constructor; assumption].
  - right. right. exact IH.
Qed.

(** X21. [is_device_online] never answers [True]: it answers [False]
    when no device's name contains the requested name, letter case apart,
    and otherwise it raises [AttributeError], because the device found is a
    dictionary. [get_device_health] raises in exactly the same cases, and
    reports "not found" in the others. *)
Theorem is_device_online_never_true (devices : list WebDevice) (device_name : string) :
  is_device_online devices device_name <> Returned true
  /\ (is_device_online devices device_name = Returned false
      <-> Forall (fun device =>
            PyStr.contains (PyStr.lower device_name) (PyStr.lower (wd_name device))
            = false) devices)
  /\ (is_device_online devices device_name = Raised (attribute_error "is_active")
      <-> Exists (fun device =>
            PyStr.contains (PyStr.lower device_name) (PyStr.lower (wd_name device))
            = true) devices)
  /\ match get_device_health devices device_name with
     | Returned health =>
         dh_found health = false /\ dh_online health = false
         /\ is_device_online devices device_name = Returned false
     | Raised e =>
         e = attribute_error "is_active"
         /\ is_device_online devices device_name = Raised e
     end.
Proof.
  pose proof (get_device_by_name_None devices device_name) as Hnone.
  unfold is_device_online, get_device_health.
  destruct (get_device_by_name devices device_name) as [d|].
  - split; [discriminate|]. split; [|split; [|auto]].
    + split; [discriminate|]. intros H. apply Hnone in H. discriminate.
    + split; [|reflexivity]. intros _.
      destruct (none_or_some (fun device =>
                  PyStr.contains (PyStr.lower device_name)
                    (PyStr.lower (wd_name device))) devices) as [H|H]; [|exact H].
      apply Hnone in H. discriminate.
  - split; [discriminate|]. split; [|split; [|auto]].
    + split; [intros _; apply Hnone; reflexivity | reflexivity].
    + split; [discriminate|]. intros Hex.
      assert (Hall := proj1 Hnone eq_refl).
      apply Exists_exists in Hex as (x & Hin & Hx).
      rewrite Forall_forall in Hall.
      rewrite (Hall x Hin) in Hx. discriminate.
Qed.

(** Once the cache holds a listing dated [start_time], every poll of
    the loop is served from it. *)
Lemma wait_for_device_loop_cached (device_name : string) (start_time timeout : Z)
    (L : list WebDevice) (fuel : nat) (c : Client) :
  timeout <= 30000 ->
  get_device_by_name L device_name = None ->
  cl_cache c = {| dc_devices := L; dc_timestamp := start_time; dc_ttl := 30 |} ->
  start_time + timeout - cl_now c <= Z.of_nat fuel * 500 ->
  exists c',
    wait_for_device_loop fuel device_name start_time timeout c = (None, c')
    /\ cl_fetches c' = cl_fetches c
    /\ cl_cache c' = cl_cache c
    /\ start_time + timeout <= cl_now c'.
Proof.
  intros Hto Hmiss. revert c. induction fuel as [|fuel IH]; intros c Hcache Hfuel;
    simpl; destruct (cl_now c - start_time <? timeout) eqn:Hlt;
    try (apply Z.ltb_ge in Hlt; exists c; repeat split; auto; lia).
  - apply Z.ltb_lt in Hlt. lia.
  - apply Z.ltb_lt in Hlt. unfold client_get_devices, get_devices.
    rewrite Hcache. simpl.
    replace (cl_now c <? start_time + 30 * 1000) with true
      by (symmetry; apply Z.ltb_lt; lia).
    simpl. rewrite Hmiss.
    destruct (IH {| cl_now := cl_now c + 500; cl_cache := cl_cache c;
                    cl_fetches := cl_fetches c |}) as (c' & Heq & Hf & Hc & Hn).
    + simpl. exact Hcache.
    + simpl. lia.
    + exists c'. simpl in Hf, Hc. rewrite Hcache in Hc. auto.
Qed.

(** X22. [wait_for_device] looks at Spotify once. With a timeout of at
    most 30 s, if the first poll has to fetch, the fetch succeeds and the
    device is not in that listing, then every later poll is answered by the
    cache: no further fetch is made, a device that shows up in the meantime
    is not seen, and the call returns [None] when the timeout is over. *)
Theorem wait_for_device_sees_first_listing (device_name : string) (timeout : Z)
    (c : Client) (latency : N) (L : list WebDevice)
    (rest : list (N * option (list WebDevice))) :
  0 < timeout <= 30000 ->
  dc_timestamp (cl_cache c) + dc_ttl (cl_cache c) * 1000 <= cl_now c ->
  cl_fetches c = (latency, Some L) :: rest ->
  get_device_by_name L device_name = None ->
  exists c',
    wait_for_device device_name timeout c = (None, c')
    /\ cl_fetches c' = rest
    /\ dc_devices (cl_cache c') = L
    /\ cl_now c + timeout <= cl_now c'.
Proof.
  intros Hto Hstale Hf Hmiss. unfold wait_for_device.
  change (wait_for_device_loop (S (Z.to_nat timeout)) device_name (cl_now c) timeout c)
    with (if cl_now c - cl_now c <? timeout then
            let '(devices, c0) := client_get_devices true c in
            match get_device_by_name devices device_name with
            | Some device => (Some device, c0)
            | None =>
                wait_for_device_loop (Z.to_nat timeout) device_name (cl_now c) timeout
                  {| cl_now := cl_now c0 + 500; cl_cache := cl_cache c0;
                     cl_fetches := cl_fetches c0 |}
            end
          else (None, c)).
  replace (cl_now c - cl_now c <? timeout) with true
    by (symmetry; apply Z.ltb_lt; lia).
  unfold client_get_devices, get_devices.
  replace (cl_now c <? dc_timestamp (cl_cache c) + dc_ttl (cl_cache c) * 1000)
    with false by (symmetry; apply Z.ltb_ge; lia).
  rewrite Hf. simpl. rewrite Hmiss.
  destruct (wait_for_device_loop_cached device_name (cl_now c) timeout L
              (Z.to_nat timeout)
              {| cl_now := cl_now c + Z.of_N latency + 500;
                 cl_cache := {| dc_devices := L; dc_timestamp := cl_now c;
                                dc_ttl := 30 |};
                 cl_fetches := rest |})
    as (c' & Heq & Hf' & Hc' & Hn'); simpl; try lia; auto.
  exists c'. rewrite Heq. simpl in *. rewrite Hc'. repeat split; auto.
Qed.

Lemma wait_for_device_sees_first_listing_witness :
  exists c',
    wait_for_device "Kitchen" 20000 waiting_client = (None, c')
    /\ cl_fetches c' = [(300%N, Some [bedroom_speaker; kitchen_speaker])]
    /\ dc_devices (cl_cache c') = [bedroom_speaker]
    /\ cl_now waiting_client + 20000 <= cl_now c'.
Proof.
  apply (wait_for_device_sees_first_listing "Kitchen" 20000 waiting_client 300%N
           [bedroom_speaker] [(300%N, Some [bedroom_speaker; kitchen_speaker])]).
  - lia.
  - simpl. lia.
  - reflexivity.
  - reflexivity.
Defined.

(** ** What a run touches *)

Lemma touches_only_refl (t : string) (s : St) : touches_only t s s.
Proof. intros k. auto. Qed.

Lemma touches_only_trans (t : string) (a b c : St) :
  touches_only t a b -> touches_only t b c -> touches_only t a c.
Proof.
  intros H1 H2 k. destruct (H1 k) as (Ha & Hb & Hc). destruct (H2 k) as (Ha' & Hb' & Hc').
  split; [|split].
  - intros Hk. destruct (Ha Hk) as [Hr Hc0]. destruct (Ha' Hk) as [Hr' Hc0'].
    split; congruence.
  - congruence.
  - auto.
Qed.

(** A step that leaves the registry and the breakers alone. *)
Lemma touches_only_same (t : string) (s s' : St) :
  registry s' = registry s -> circuit_breakers s' = circuit_breakers s ->
  touches_only t s s'.
Proof. intros Hr Hc k. rewrite Hr, Hc. auto. Qed.

Lemma touches_only_alter_registry (t : string) (f : DeviceProfile -> DeviceProfile)
    (s : St) :
  (forall p, dp_name (f p) = dp_name p) ->
  touches_only t s (with_registry (alter f t (registry s)) s).
Proof.
  intros Hf k. simpl. split; [|split; [|auto]].
  - intros Hk. rewrite lookup_alter_ne by congruence. auto.
  - destruct (decide (t = k)) as [->|Hk].
    + rewrite lookup_alter_eq. destruct (registry s !! k); simpl; [|reflexivity].
      rewrite Hf. reflexivity.
    + rewrite lookup_alter_ne by exact Hk. reflexivity.
Qed.

Lemma touches_only_alter_breakers (t : string)
    (f : CircuitBreakerState -> CircuitBreakerState) (s : St) :
  touches_only t s (with_breakers (alter f t (circuit_breakers s)) s).
Proof.
  intros k. simpl. split; [|split; [reflexivity|]].
  - intros Hk. rewrite lookup_alter_ne by congruence. auto.
  - destruct (decide (t = k)) as [->|Hk].
    + rewrite lookup_alter_eq. intros [x ->]. simpl. eauto.
    + rewrite lookup_alter_ne by exact Hk. auto.
Qed.

Lemma confined_ret {A} (t : string) (a : A) : confined t (ret a).
Proof. intros s. apply touches_only_refl. Qed.

Lemma confined_raise {A} (t : string) (e : exn) : confined t (@raise A e).
Proof. intros s. apply touches_only_refl. Qed.

Lemma confined_gets {A} (t : string) (f : St -> A) : confined t (gets f).
Proof. intros s. apply touches_only_refl. Qed.

Lemma confined_modify (t : string) (f : St -> St) :
  (forall s, touches_only t s (f s)) -> confined t (modify f).
Proof. intros H s. apply H. Qed.

Lemma confined_bind {A B} (t : string) (m : M A) (k : A -> M B) :
  confined t m -> (forall a, confined t (k a)) -> confined t (bind m k).
Proof.
  intros Hm Hk s. unfold bind. specialize (Hm s).
  destruct (m s) as [[a|e] s1]; [|exact Hm].
  eapply touches_only_trans; [exact Hm | apply Hk].
Qed.

Lemma confined_bindF {A B} (t : string) (m : M (flow A)) (k : A -> M (flow B)) :
  confined t m -> (forall a, confined t (k a)) -> confined t (bindF m k).
Proof.
  intros Hm Hk. unfold bindF. apply confined_bind; [exact Hm|].
  intros [|a]; [apply confined_ret | apply Hk].
Qed.

Lemma confined_try_catch {A} (t : string) (m : M A) (h : exn -> M A) :
  confined t m -> (forall e, confined t (h e)) -> confined t (try_catch m h).
Proof.
  intros Hm Hh s. unfold try_catch. specialize (Hm s).
  destruct (m s) as [[a|e] s1]; [exact Hm|].
  eapply touches_only_trans; [exact Hm | apply Hh].
Qed.

Lemma confined_finally {A} (t : string) (m : M A) (f : M unit) :
  confined t m -> confined t f -> confined t (finally m f).
Proof.
  intros Hm Hf s. unfold finally. specialize (Hm s).
  destruct (m s) as [r s1]. eapply touches_only_trans; [exact Hm | apply Hf].
Qed.

Lemma confined_call (t : string) (c : Call) : confined t (call c).
Proof.
  intros s. unfold call. destruct (script s) as [|[lat r] rest];
    apply touches_only_same; reflexivity.
Qed.

Lemma confined_sleep (t : string) (d : Z) : confined t (sleep d).
Proof.
  unfold sleep. destruct (d <? 0); [apply confined_raise|].
  apply confined_modify. intros s. apply touches_only_same; reflexivity.
Qed.

Lemma confined_log (t : string) (c : Call) : confined t (log c).
Proof. apply confined_modify. intros s. apply touches_only_same; reflexivity. Qed.

Lemma confined_set_state (t : string) (x : State) : confined t (set_state x).
Proof. apply confined_modify. intros s. apply touches_only_same; reflexivity. Qed.

Lemma confined_on_metrics (t : string) (f : PhaseMetrics -> PhaseMetrics) :
  confined t (on_metrics f).
Proof. apply confined_modify. intros s. apply touches_only_same; reflexivity. Qed.

Lemma confined_with_minimal (t : string) (p : DeviceProfile) :
  confined t (modify (with_minimal p)).
Proof. apply confined_modify. intros s. apply touches_only_same; reflexivity. Qed.

Lemma confined_with_metrics (t : string) (m : PhaseMetrics) :
  confined t (modify (with_metrics m)).
Proof. apply confined_modify. intros s. apply touches_only_same; reflexivity. Qed.

Lemma learn_name_name (n : string) (p : DeviceProfile) :
  dp_name (learn_name n p) = dp_name p.
Proof. unfold learn_name. case_bool_decide; reflexivity. Qed.

Lemma store_instance_name_name (n : option string) (p : DeviceProfile) :
  dp_name (store_instance_name n p) = dp_name p.
Proof. unfold store_instance_name. destruct (negb _); reflexivity. Qed.

Lemma confined_write_target (t : string) (target : target_ref)
    (f : DeviceProfile -> DeviceProfile) :
  target_of t target -> (forall p, dp_name (f p) = dp_name p) ->
  confined t (write_target target f).
Proof.
  intros [-> | ->] Hf; apply confined_modify; intros s.
  - apply touches_only_alter_registry, Hf.
  - apply touches_only_same; reflexivity.
Qed.

Lemma confined_learn (t : string) (target : target_ref) (n : string) :
  target_of t target -> confined t (learn target n).
Proof. intros H. apply confined_write_target; [exact H | apply learn_name_name]. Qed.

Lemma confined_store_instance_name (t : string) (target : target_ref)
    (n : option string) :
  target_of t target -> confined t (write_target target (store_instance_name n)).
Proof.
  intros H. apply confined_write_target; [exact H | apply store_instance_name_name].
Qed.

Lemma confined_ensure_breaker (t : string) : confined t (ensure_breaker t).
Proof.
  apply confined_modify. intros s.
  destruct (circuit_breakers s !! t) eqn:Ht; [apply touches_only_refl|].
  intros k. simpl. split; [|split; [reflexivity|]].
  - intros Hk. rewrite lookup_insert_ne by congruence. auto.
  - destruct (decide (t = k)) as [->|Hk].
    + rewrite lookup_insert_eq. eauto.
    + rewrite lookup_insert_ne by exact Hk. auto.
Qed.

Lemma confined_alter_breakers (t : string)
    (f : St -> CircuitBreakerState -> CircuitBreakerState) :
  confined t (modify (fun s =>
    with_breakers (alter (f s) t (circuit_breakers s)) s)).
Proof. apply confined_modify. intros s. apply touches_only_alter_breakers. Qed.

Lemma target_of_registered (t : string) : target_of t (Registered t).
Proof. left. reflexivity. Qed.

Lemma target_of_minimal (t : string) : target_of t Minimal.
Proof. right. reflexivity. Qed.

Create HintDb pen.
#[local] Hint Resolve target_of_registered target_of_minimal : pen.

Ltac pen_prim :=
  first
    [ apply confined_ret | apply confined_raise | apply confined_call
    | apply confined_sleep | apply confined_log | apply confined_set_state
    | apply confined_on_metrics | apply confined_with_minimal
    | apply confined_with_metrics
    | apply confined_ensure_breaker | apply confined_alter_breakers
    | apply confined_gets
    | apply confined_learn; solve [ eauto with pen ]
    | apply confined_store_instance_name; solve [ eauto with pen ] ].

Ltac pen :=
  lazymatch goal with
  | |- confined _ (bind _ _) => apply confined_bind; [ pen | intros ?; pen ]
  | |- confined _ (bindF _ _) => apply confined_bindF; [ pen | intros ?; pen ]
  | |- confined _ (try_catch _ _) => apply confined_try_catch; [ pen | intros ?; pen ]
  | |- confined _ (finally _ _) => apply confined_finally; [ pen | pen ]
  | |- confined _ (if ?b then _ else _) => destruct b; pen
  | |- confined _ (match ?x with _ => _ end) => destruct x; pen
  | |- confined _ (let _ := _ in _) => cbv zeta; pen
  | |- _ => first [ pen_prim | solve [ eauto 3 with pen ] ]
  end.

Lemma confined_as_devices t v : confined t (as_devices v).
Proof. unfold as_devices. pen. Qed.
Lemma confined_as_bool t v : confined t (as_bool v).
Proof. unfold as_bool. pen. Qed.
Lemma confined_as_str t v : confined t (as_str v).
Proof. unfold as_str. pen. Qed.
Lemma confined_as_discovery t v : confined t (as_discovery v).
Proof. unfold as_discovery. pen. Qed.
Lemma confined_as_creds t v : confined t (as_creds v).
Proof. unfold as_creds. pen. Qed.
#[local] Hint Resolve confined_as_devices confined_as_bool confined_as_str
  confined_as_discovery confined_as_creds : pen.

Lemma confined_api_get_devices t : confined t api_get_devices.
Proof. unfold api_get_devices. pen. Qed.
Lemma confined_time_time t : confined t time_time.
Proof. apply confined_gets. Qed.
Lemma confined_elapsed_ms t x : confined t (elapsed_ms x).
Proof. apply confined_gets. Qed.
Lemma confined_stage_device t id v : confined t (stage_device id v).
Proof. unfold stage_device. pen. Qed.
Lemma confined_start_play t cfg id : confined t (start_play cfg id).
Proof. unfold start_play. pen. Qed.
#[local] Hint Resolve confined_api_get_devices confined_time_time
  confined_elapsed_ms confined_stage_device confined_start_play : pen.

Lemma confined_verify_loop t fuel id start timeout :
  confined t (verify_loop fuel id start timeout).
Proof. induction fuel as [|fuel IH]; simpl; pen. Qed.
#[local] Hint Resolve confined_verify_loop : pen.

Lemma confined_verify_device_ready t id timeout :
  confined t (verify_device_ready id timeout).
Proof. unfold verify_device_ready. pen. Qed.
#[local] Hint Resolve confined_verify_device_ready : pen.

Lemma confined_confirm_loop t fuel id deadline :
  confined t (confirm_loop fuel id deadline).
Proof. induction fuel as [|fuel IH]; simpl; pen. Qed.
#[local] Hint Resolve confined_confirm_loop : pen.

Lemma confined_confirm t cfg id : confined t (confirm cfg id).
Proof. unfold confirm. pen. Qed.
Lemma confined_failover t cfg reason : confined t (_failover cfg t reason).
Proof. unfold _failover. pen. Qed.
Lemma confined_should_bypass_primary t cfg : confined t (_should_bypass_primary cfg t).
Proof. unfold _should_bypass_primary. pen. Qed.
Lemma confined_record_failure t cfg : confined t (_record_failure cfg t).
Proof.
  unfold _record_failure. apply confined_bind; [apply confined_ensure_breaker|].
  intros _. apply (confined_alter_breakers t
                     (fun s => cb_record_failure (breaker cfg) (now s))).
Qed.
Lemma confined_record_success t : confined t (_record_success t).
Proof.
  unfold _record_success. apply confined_bind; [apply confined_ensure_breaker|].
  intros _. apply (confined_alter_breakers t (fun _ => cb_record_success)).
Qed.
#[local] Hint Resolve confined_confirm confined_failover
  confined_should_bypass_primary confined_record_failure
  confined_record_success : pen.

Lemma confined_phase_webapi_check t cfg t0 : confined t (phase_webapi_check cfg t t0).
Proof. unfold phase_webapi_check. pen. Qed.

Lemma confined_phase_ip_wakeup t cfg target t0 :
  target_of t target -> confined t (phase_ip_wakeup cfg t target t0).
Proof. intros H. unfold phase_ip_wakeup. pen. Qed.

Lemma confined_phase_discovery t cfg target :
  target_of t target -> confined t (phase_discovery cfg t target).
Proof. intros H. unfold phase_discovery. pen. Qed.

Lemma confined_phase_activate t d : confined t (phase_activate d).
Proof. unfold phase_activate. pen. Qed.

Lemma confined_poll_loop t fuel target deadline fast_until :
  target_of t target -> confined t (poll_loop fuel target deadline fast_until).
Proof. intros H. induction fuel as [|fuel IH]; simpl; pen. Qed.
#[local] Hint Resolve confined_poll_loop : pen.

Lemma confined_phase_cloud_poll t cfg target t0 :
  target_of t target -> confined t (phase_cloud_poll cfg target t0).
Proof. intros H. unfold phase_cloud_poll. pen. Qed.
#[local] Hint Resolve confined_phase_webapi_check confined_phase_ip_wakeup
  confined_phase_discovery confined_phase_activate confined_phase_cloud_poll : pen.

Lemma confined_resolve_target_bind {B} (t : string) (k : target_ref -> M B) :
  (forall target, target_of t target -> confined t (k target)) ->
  confined t (bind (resolve_target t) k).
Proof.
  intros Hk s. unfold bind at 1. unfold resolve_target, bind, gets, modify, ret.
  destruct (_get_target_profile (registry s) t).
  - apply Hk. left. reflexivity.
  - eapply touches_only_trans; [|apply Hk; right; reflexivity].
    apply touches_only_same; reflexivity.
Qed.

Lemma confined_timeline_to_play t cfg t0 : confined t (timeline_to_play cfg t t0).
Proof.
  unfold timeline_to_play. apply confined_bindF; [pen|]. intros _.
  apply confined_resolve_target_bind. intros target Htarget. pen.
Qed.
#[local] Hint Resolve confined_timeline_to_play : pen.

Lemma confined_play_alarm t cfg : confined t (play_alarm cfg t).
Proof.
  unfold play_alarm, guarded, timeline, confirm_or_failover, on_exception. pen.
Qed.

(** X23. A run of [play_alarm] is confined to its target: the profile
    and the circuit breaker of every other name are after the run exactly
    what they were before it, whatever the world answered and however the
    run ended. *)
Theorem play_alarm_touches_only_target (cfg : AlarmPlaybackConfig) (t k : string)
    (s : St) :
  k <> t ->
  registry (snd (play_alarm cfg t s)) !! k = registry s !! k
  /\ circuit_breakers (snd (play_alarm cfg t s)) !! k = circuit_breakers s !! k.
Proof. intros Hk. apply (confined_play_alarm t cfg s k), Hk. Qed.

Lemma play_alarm_touches_only_target_witness :
  registry (snd (play_alarm alarm_config "Kitchen" two_targets)) !! "Office"
  = registry two_targets !! "Office"
  /\ circuit_breakers (snd (play_alarm alarm_config "Kitchen" two_targets)) !! "Office"
     = circuit_breakers two_targets !! "Office".
Proof.
  apply (play_alarm_touches_only_target alarm_config "Kitchen" "Office" two_targets).
  discriminate.
Defined.

Lemma register_targets_spec (targets : list DeviceProfile)
    (reg : gmap string DeviceProfile) (cb : gmap string CircuitBreakerState) :
  (forall k p, reg !! k = Some p -> dp_name p = k /\ is_Some (cb !! k)) ->
  forall k,
    match fst (register_targets targets reg cb) !! k with
    | Some p =>
        dp_name p = k
        /\ is_Some (snd (register_targets targets reg cb) !! k)
        /\ (In p targets \/ reg !! k = Some p)
    | None => reg !! k = None /\ forall d, In d targets -> dp_name d <> k
    end.
Proof.
  revert reg cb. induction targets as [|d rest IH]; intros reg cb Hreg k; simpl.
  - destruct (reg !! k) as [p|] eqn:Hk.
    + destruct (Hreg k p Hk). auto.
    + split; [reflexivity|]. intros d [].
  - specialize (IH (<[dp_name d := d]> reg)
                   (<[dp_name d := new_breaker (dp_name d)]> cb)).
    assert (Hreg' : forall k p, <[dp_name d := d]> reg !! k = Some p ->
              dp_name p = k
              /\ is_Some (<[dp_name d := new_breaker (dp_name d)]> cb !! k)).
    { intros k' p. destruct (decide (dp_name d = k')) as [<-|Hne].
      - rewrite !lookup_insert_eq. intros [= <-]. eauto.
      - rewrite !lookup_insert_ne by exact Hne. apply Hreg. }
    specialize (IH Hreg' k).
    destruct (fst (register_targets rest _ _) !! k) as [p|].
    + destruct IH as (Hn & Hc & [Hin | Hl]); repeat split; auto.
      destruct (decide (dp_name d = k)) as [<-|Hne].
      * rewrite lookup_insert_eq in Hl. injection Hl as <-. auto.
      * rewrite lookup_insert_ne in Hl by exact Hne. auto.
    + destruct IH as (Hl & Hall).
      destruct (decide (dp_name d = k)) as [<-|Hne].
      * rewrite lookup_insert_eq in Hl. discriminate.
      * rewrite lookup_insert_ne in Hl by exact Hne. split; [exact Hl|].
        intros d' [<- | Hin]; auto.
Qed.

Lemma play_alarms_names (cfg : AlarmPlaybackConfig) (names : list string) (s : St) :
  forall k,
    dp_name <$> (registry (play_alarms cfg names s) !! k) = dp_name <$> (registry s !! k)
    /\ (is_Some (circuit_breakers s !! k) ->
        is_Some (circuit_breakers (play_alarms cfg names s) !! k)).
Proof.
  revert s. induction names as [|t rest IH]; intros s k; simpl; [auto|].
  destruct (IH (snd (play_alarm cfg t s)) k) as [Hn Hc].
  destruct (confined_play_alarm t cfg s k) as (_ & Hn' & Hc').
  split; [congruence | auto].
Qed.

(** X24. [get_device_status] never fails on a missing breaker. In an
    engine built from [cfg.targets] that has run any number of alarms, for
    any targets and whatever the world answered, [get_device_status(k)]
    returns a profile named [k] with its breaker when [k] is the name of a
    configured target, and raises [ValueError] when it is not; the
    [KeyError] of [self.circuit_breakers[k]] cannot happen. *)
Theorem get_device_status_after_alarms (cfg : AlarmPlaybackConfig)
    (targets : list DeviceProfile) (t0 : Z) (sc : list Response)
    (names : list string) (k : string) :
  match get_device_status k (play_alarms cfg names (new_engine targets t0 sc)) with
  | Returned (p, cb) => dp_name p = k /\ exists d, In d targets /\ dp_name d = k
  | Raised e =>
      e = value_error ("Target device '" +:+ k +:+ "' not found")
      /\ forall d, In d targets -> dp_name d <> k
  end.
Proof.
  pose proof (register_targets_spec targets ∅ ∅) as Hinit.
  assert (H0 : forall k p, (∅ : gmap string DeviceProfile) !! k = Some p ->
             dp_name p = k
             /\ is_Some ((∅ : gmap string CircuitBreakerState) !! k)).
  { intros k' p. rewrite lookup_empty. discriminate. }
  specialize (Hinit H0 k). clear H0.
  destruct (play_alarms_names cfg names (new_engine targets t0 sc) k) as [Hn Hc].
  unfold get_device_status.
  unfold new_engine in *.
  destruct (register_targets targets ∅ ∅) as [reg cb]. simpl in *.
  destruct (reg !! k) as [p0|] eqn:Hk.
  - destruct Hinit as (Hname & Hsome & [Hin | Habs]);
      [|rewrite lookup_empty in Habs; discriminate].
    destruct (registry (play_alarms cfg names _) !! k) as [p|]; [|discriminate].
    simpl in Hn. injection Hn as Hn.
    destruct (Hc Hsome) as [c ->].
    split; [congruence|]. exists p0. auto.
  - destruct Hinit as (_ & Hall).
    destruct (registry (play_alarms cfg names _) !! k) as [p|]; [discriminate|].
    auto.
Qed.

(** ** Friendly names *)

Lemma lstrip_by_head (p : ascii -> bool) (s : string) :
  PyStr.lstrip_by p s = ""
  \/ exists c r, PyStr.lstrip_by p s = String c r /\ p c = false.
Proof.
  induction s as [|c r IH]; simpl; [auto|].
  destruct (p c) eqn:Hc; [exact IH | eauto].
Qed.

Lemma rstrip_by_idempotent (p : ascii -> bool) (s : string) :
  PyStr.rstrip_by p (PyStr.rstrip_by p s) = PyStr.rstrip_by p s.
Proof.
  induction s as [|c r IH]; simpl; [reflexivity|].
  destruct (PyStr.rstrip_by p r) as [|b r'] eqn:Hr.
  - destruct (p c) eqn:Hc; simpl; [reflexivity|]. rewrite Hc. reflexivity.
  - change (PyStr.rstrip_by p (String c (String b r')))
      with (match PyStr.rstrip_by p (String b r') with
            | "" => if p c then "" else String c ""
            | r0 => String c r0
            end).
    rewrite IH. reflexivity.
Qed.

Lemma strip_idempotent (s : string) : PyStr.strip (PyStr.strip s) = PyStr.strip s.
Proof.
  unfold PyStr.strip.
  destruct (lstrip_by_head PyStr.isspace s) as [-> | (c & r & -> & Hc)];
    [reflexivity|].
  destruct (rstrip_by_head PyStr.isspace c r) as [He | [r' He]].
  - rewrite He. reflexivity.
  - rewrite He. simpl PyStr.lstrip_by. rewrite Hc. rewrite <- He.
    apply rstrip_by_idempotent.
Qed.

Lemma truthy_ne (s : string) : PyStr.truthy s = true <-> s <> "".
Proof. destruct s; simpl; split; congruence. Qed.

Lemma first_json_name_spec (fields : list string) (data : gmap string JVal) :
  match first_json_name fields data with
  | Some n =>
      n <> "" /\ PyStr.strip n = n
      /\ exists before field after v,
           fields = before ++ field :: after
           /\ data !! field = Some v /\ jtruthy v = true
           /\ n = PyStr.strip (jstr v)
           /\ Forall (fun f => match data !! f with
                               | Some w => jtruthy w = false \/ PyStr.strip (jstr w) = ""
                               | None => True
                               end) before
  | None =>
      Forall (fun f => match data !! f with
                       | Some w => jtruthy w = false \/ PyStr.strip (jstr w) = ""
                       | None => True
                       end) fields
  end.
Proof.
  induction fields as [|f rest IH]; simpl; [constructor|].
  assert (Hskip : match data !! f with
                  | Some w => jtruthy w = false \/ PyStr.strip (jstr w) = ""
                  | None => True
                  end ->
          match first_json_name rest data with
          | Some n =>
              n <> "" /\ PyStr.strip n = n
              /\ exists before field after v,
                   f :: rest = before ++ field :: after
                   /\ data !! field = Some v /\ jtruthy v = true
                   /\ n = PyStr.strip (jstr v)
                   /\ Forall (fun f => match data !! f with
                                       | Some w => jtruthy w = false
                                                   \/ PyStr.strip (jstr w) = ""
                                       | None => True
                                       end) before
          | None =>
              Forall (fun f => match data !! f with
                               | Some w => jtruthy w = false
                                           \/ PyStr.strip (jstr w) = ""
                               | None => True
                               end) (f :: rest)
          end).
  { intros Hf. destruct (first_json_name rest data) as [n|].
    - destruct IH as (Hn & Hs & before & field & after & v & -> & Hl & Ht & Hv & Hb).
      split; [exact Hn|]. split; [exact Hs|].
      exists (f :: before), field, after, v. repeat split; auto.
    - constructor; assumption. }
  destruct (data !! f) as [v|] eqn:Hl; [|apply Hskip; exact I].
  destruct (jtruthy v) eqn:Ht; [|apply Hskip; auto].
  destruct (PyStr.truthy (PyStr.strip (jstr v))) eqn:Hn.
  - apply truthy_ne in Hn. split; [exact Hn|]. split; [apply strip_idempotent|].
    exists [], f, rest, v. repeat split; auto.
  - apply Hskip. right. destruct (PyStr.strip (jstr v)); [reflexivity | discriminate].
Qed.

(** X25. A name [_get_friendly_name_from_device_info] returns is never
    empty and carries no surrounding white space. It is the trimmed text of
    the first of [remoteName], [displayName], [name], [deviceName] and
    [modelDisplayName] that the device's answer holds with a value that is
    true and not blank; it comes from a 200 answer to the getInfo URL of an
    address with IP and port. In particular a [remoteName] that is not
    blank wins over every other field. *)
Theorem getinfo_name_is_first_field (requests_get : string -> HttpResult)
    (discovery_result : DiscoveryResult) :
  match _get_friendly_name_from_device_info requests_get discovery_result with
  | Some n =>
      n <> "" /\ PyStr.strip n = n
      /\ exists ip port data before field after v,
           dr_ip discovery_result = Some ip /\ ip <> ""
           /\ dr_port discovery_result = Some port /\ port <> 0
           /\ requests_get (getinfo_url ip port (dr_cpath discovery_result))
              = HttpResponse 200 (Some data)
           /\ getinfo_name_fields = before ++ field :: after
           /\ data !! field = Some v /\ jtruthy v = true
           /\ n = PyStr.strip (jstr v)
           /\ Forall (fun f => match data !! f with
                               | Some w => jtruthy w = false \/ PyStr.strip (jstr w) = ""
                               | None => True
                               end) before
  | None => True
  end.
Proof.
  unfold _get_friendly_name_from_device_info.
  destruct (dr_ip discovery_result) as [ip|]; [|exact I].
  destruct (dr_port discovery_result) as [port|]; [|exact I].
  destruct (PyStr.truthy ip) eqn:Hip; cbn [negb orb]; [|exact I].
  destruct (port =? 0) eqn:Hport; [exact I|].
  destruct (requests_get _) as [e|status json] eqn:Hreq; [exact I|].
  destruct (status =? 200) eqn:Hst; [|exact I]. apply Z.eqb_eq in Hst. subst status.
  destruct json as [data|]; [|exact I].
  pose proof (first_json_name_spec getinfo_name_fields data) as H.
  destruct (first_json_name getinfo_name_fields data) as [n|]; [|exact I].
  destruct H as (Hn & Hs & before & field & after & v & Hf & Hl & Ht & Hv & Hb).
  split; [exact Hn|]. split; [exact Hs|].
  exists ip, port, data, before, field, after, v.
  apply truthy_ne in Hip. apply Z.eqb_neq in Hport. repeat split; auto.
Qed.

Lemma getinfo_name_trimmed (requests_get : string -> HttpResult)
    (discovery_result : DiscoveryResult) (n : string) :
  _get_friendly_name_from_device_info requests_get discovery_result = Some n ->
  n <> "" /\ PyStr.strip n = n.
Proof.
  unfold _get_friendly_name_from_device_info.
  destruct (dr_ip discovery_result) as [ip|]; [|discriminate].
  destruct (dr_port discovery_result) as [port|]; [|discriminate].
  destruct (negb (PyStr.truthy ip) || (port =? 0)); [discriminate|].
  destruct (requests_get _) as [e|status json]; [discriminate|].
  destruct (status =? 200); [|discriminate].
  destruct json as [data|]; [|discriminate].
  pose proof (first_json_name_spec getinfo_name_fields data) as H.
  intros Heq. rewrite Heq in H. destruct H as (Hn & Hs & _). auto.
Qed.

Lemma first_txt_name_nonempty (fields : list string)
    (txt_records : list (string * string)) (n : string) :
  first_txt_name fields txt_records = Some n -> n <> "".
Proof.
  induction fields as [|f rest IH]; simpl; [discriminate|].
  destruct (txt_get f txt_records) as [v|]; [|exact IH].
  destruct (PyStr.truthy v); [|exact IH].
  destruct (PyStr.truthy (PyStr.strip v)) eqn:Ht; [|exact IH].
  intros [= <-]. apply truthy_ne, Ht.
Qed.

Lemma clean_name_min_length (technical_name c : string) :
  _clean_technical_name_to_friendly technical_name = Some c ->
  (3 <= String.length c)%nat /\ c <> PyStr.strip technical_name.
Proof.
  unfold _clean_technical_name_to_friendly.
  destruct (negb (PyStr.truthy technical_name)); [discriminate|]. cbv zeta.
  match goal with |- context [if ?b then Some ?x else None] =>
    destruct b eqn:Hb; [|discriminate]; intros [= <-] end.
  apply andb_true_iff in Hb as [Hb Hne]. apply andb_true_iff in Hb as [_ Hlen].
  split.
  - apply Nat.leb_le, Hlen.
  - apply String.eqb_neq. apply negb_true_iff in Hne. exact Hne.
Qed.

(** X26. [_extract_friendly_name] never returns the empty string, and
    it returns [None] only when getInfo gave no name, the TXT records gave
    none and the instance name is unset or empty. The sources are taken in
    this order: a getInfo name is returned as it is; without one, the first
    TXT name; without either, the instance name, cleaned when cleaning
    leaves at least three characters and changes it, raw otherwise (white
    space included). *)
Theorem extract_friendly_name_order (requests_get : string -> HttpResult)
    (discovery_result : DiscoveryResult) :
  let from_device :=
    _get_friendly_name_from_device_info requests_get discovery_result in
  let from_txt := first_txt_name txt_name_fields (dr_txt_records discovery_result) in
  let result := _extract_friendly_name requests_get discovery_result in
  result <> Some ""
  /\ match from_device, from_txt, dr_instance_name discovery_result with
     | Some n, _, _ => result = Some n
     | None, Some n, _ => result = Some n
     | None, None, Some instance_name =>
         if PyStr.truthy instance_name then
           match _clean_technical_name_to_friendly instance_name with
           | Some cleaned =>
               (3 <= String.length cleaned)%nat /\ result = Some cleaned
           | None => result = Some instance_name
           end
         else result = None
     | None, None, None => result = None
     end.
Proof.
  cbv zeta. unfold _extract_friendly_name.
  destruct (_get_friendly_name_from_device_info requests_get discovery_result)
    as [n|] eqn:Hdev.
  - destruct (getinfo_name_trimmed _ _ _ Hdev) as [Hn Hs].
    rewrite Hs. destruct n as [|c n]; [contradiction|]. simpl.
    split; [discriminate | reflexivity].
  - destruct (first_txt_name txt_name_fields (dr_txt_records discovery_result))
      as [n|] eqn:Htxt.
    + split; [|reflexivity]. intros [= ->].
      exact (first_txt_name_nonempty _ _ _ Htxt eq_refl).
    + destruct (dr_instance_name discovery_result) as [i|]; [|split; [discriminate|reflexivity]].
      destruct (PyStr.truthy i) eqn:Hi; [|split; [discriminate|reflexivity]].
      apply truthy_ne in Hi.
      destruct (_clean_technical_name_to_friendly i) as [c|] eqn:Hc.
      * destruct (clean_name_min_length _ _ Hc) as [Hlen _].
        assert (Hct : PyStr.truthy c = true).
        { destruct c; [simpl in Hlen; lia | reflexivity]. }
        rewrite Hct. simpl.
        destruct (String.eqb c i) eqn:Heq; simpl.
        -- apply String.eqb_eq in Heq. subst c. split; [congruence|]. auto.
        -- split; [|auto]. intros [= ->]. discriminate.
      * split; [congruence | reflexivity].
Qed.

(** ** Cleaning an instance name *)

Lemma list_ascii_of_string_app (a b : string) :
  list_ascii_of_string (a +:+ b) = list_ascii_of_string a ++ list_ascii_of_string b.
Proof.
  induction a as [|c a IH]; [rewrite append_nil_l; reflexivity|].
  rewrite append_cons. simpl. rewrite IH. reflexivity.
Qed.

Lemma append_nil_r (a : string) : a +:+ "" = a.
Proof.
  induction a as [|c a IH]; [reflexivity|]. rewrite append_cons, IH. reflexivity.
Qed.

Lemma length_append (a b : string) :
  String.length (a +:+ b) = (String.length a + String.length b)%nat.
Proof.
  induction a as [|c a IH]; [rewrite append_nil_l; reflexivity|].
  rewrite append_cons. simpl. rewrite IH. reflexivity.
Qed.

Lemma drop_prefix_ci_app (l r : list ascii) : drop_prefix_ci l (l ++ r) = Some r.
Proof.
  induction l as [|a l IH]; simpl; [destruct r; reflexivity|].
  rewrite Ascii.eqb_refl. exact IH.
Qed.

Lemma drop_suffix_ci_app (literal text : string) :
  drop_suffix_ci literal (text +:+ literal) = Some text.
Proof.
  unfold drop_suffix_ci. rewrite list_ascii_of_string_app, rev_app_distr.
  rewrite drop_prefix_ci_app, rev_involutive, string_of_list_ascii_of_string.
  reflexivity.
Qed.

Lemma endswith_char_app (x S : string) (c : ascii) :
  S <> "" -> PyStr.endswith_char (x +:+ S) c = PyStr.endswith_char S c.
Proof.
  intros HS. induction x as [|a x IH]; [rewrite append_nil_l; reflexivity|].
  rewrite append_cons. simpl. rewrite IH.
  destruct (x +:+ S) eqn:Hx; [|reflexivity].
  destruct x; [rewrite append_nil_l in Hx; contradiction | rewrite append_cons in Hx; discriminate].
Qed.

Lemma rstrip_by_app (p : ascii -> bool) (x S : string) (a : ascii) (S' : string) :
  PyStr.rstrip_by p S = String a S' ->
  PyStr.rstrip_by p (x +:+ S) = x +:+ PyStr.rstrip_by p S.
Proof.
  intros HS. induction x as [|c x IH]; [rewrite !append_nil_l; reflexivity|].
  rewrite !append_cons. simpl. rewrite IH, HS.
  destruct (x +:+ String a S') eqn:Hx; [|reflexivity].
  destruct x; [rewrite append_nil_l in Hx | rewrite append_cons in Hx]; discriminate.
Qed.

Lemma stripped_head (b : string) :
  PyStr.strip b = b -> b <> "" ->
  exists c r, b = String c r /\ PyStr.isspace c = false.
Proof.
  unfold PyStr.strip. intros Hs Hne.
  destruct (lstrip_by_head PyStr.isspace b) as [He | (c & r & He & Hc)].
  - rewrite He in Hs. simpl in Hs. congruence.
  - rewrite He in Hs.
    destruct (rstrip_by_head PyStr.isspace c r) as [H0 | [r' H0]];
      rewrite H0 in Hs; [congruence|]. eauto.
Qed.

Lemma stripped_no_newline (b : string) :
  PyStr.strip b = b -> PyStr.endswith_char b newline = false.
Proof.
  intros Hs. destruct (PyStr.endswith_char b newline) eqn:He; [|reflexivity].
  rewrite <- Hs in He. unfold PyStr.strip in He. apply rstrip_by_last in He.
  discriminate.
Qed.

Lemma strip_app (b S : string) (a : ascii) (S' : string) :
  PyStr.strip b = b -> b <> "" ->
  PyStr.rstrip_by PyStr.isspace S = String a S' ->
  PyStr.strip (b +:+ S) = b +:+ PyStr.rstrip_by PyStr.isspace S.
Proof.
  intros Hs Hne HS. destruct (stripped_head b Hs Hne) as (c & r & -> & Hc).
  unfold PyStr.strip. rewrite append_cons. simpl PyStr.lstrip_by. rewrite Hc.
  rewrite <- append_cons. apply (rstrip_by_app _ _ _ a S'), HS.
Qed.

Lemma sub_suffix_none (literal : string) (dot : bool) (text : string) :
  PyStr.endswith_char text newline = false ->
  (dot = true -> drop_suffix_ci (literal +:+ ".") text = None) ->
  drop_suffix_ci literal text = None ->
  sub_suffix literal dot text = text.
Proof.
  intros Hn Hd Hl. unfold sub_suffix. rewrite Hn.
  destruct dot; [rewrite Hd by reflexivity|]; rewrite Hl; reflexivity.
Qed.

(** X27. [_clean_technical_name_to_friendly] removes the service
    suffix "_spotify-connect._tcp.local", with or without a final dot, from
    a name: what is returned is the text in front of it, whenever that text
    is trimmed, has at least three characters and does not itself end in
    one of the four suffixes the function removes. The text is returned as
    it is: a dot that joined it to the suffix stays. *)
Theorem clean_removes_service_suffix (b : string) (dot : bool) :
  PyStr.strip b = b ->
  (3 <= String.length b)%nat ->
  drop_suffix_ci ".spotify-connect._tcp.local." b = None ->
  drop_suffix_ci ".spotify-connect._tcp.local" b = None ->
  drop_suffix_ci "_spotify-connect" b = None ->
  drop_suffix_ci ".spotify-connect" b = None ->
  _clean_technical_name_to_friendly
    (b +:+ "_spotify-connect._tcp.local" +:+ (if dot then "." else ""))
  = Some b.
Proof.
  intros Hs Hlen H2d H2 H3 H4.
  assert (Hne : b <> "") by (destruct b; [simpl in Hlen; lia | discriminate]).
  assert (Hnl := stripped_no_newline b Hs).
  set (S := "_spotify-connect._tcp.local" +:+ (if dot then "." else "")).
  assert (HS : exists a S', PyStr.rstrip_by PyStr.isspace S = String a S'
                            /\ PyStr.rstrip_by PyStr.isspace S = S)
    by (subst S; destruct dot; eexists _, _; split; reflexivity).
  destruct HS as (a & S' & HS & HSid).
  assert (Hname : PyStr.strip (b +:+ S) = b +:+ S).
  { rewrite (strip_app b S a S' Hs Hne HS), HSid. reflexivity. }
  assert (Hsub1 : sub_suffix "_spotify-connect._tcp.local" true (b +:+ S) = b).
  { unfold sub_suffix.
    rewrite endswith_char_app by (subst S; destruct dot; discriminate).
    replace (PyStr.endswith_char S newline) with false
      by (subst S; destruct dot; reflexivity).
    subst S. destruct dot.
    - change ("_spotify-connect._tcp.local" +:+ ".")
        with "_spotify-connect._tcp.local.".
      rewrite drop_suffix_ci_app. apply append_nil_r.
    - change ("_spotify-connect._tcp.local" +:+ "")
        with "_spotify-connect._tcp.local".
      change ("_spotify-connect._tcp.local" +:+ ".")
        with "_spotify-connect._tcp.local.".
      replace (drop_suffix_ci "_spotify-connect._tcp.local."
                 (b +:+ "_spotify-connect._tcp.local")) with (@None string).
      + rewrite drop_suffix_ci_app. apply append_nil_r.
      + unfold drop_suffix_ci. rewrite list_ascii_of_string_app, rev_app_distr.
        reflexivity. }
  unfold _clean_technical_name_to_friendly.
  assert (Htr : PyStr.truthy (b +:+ S) = true).
  { destruct b; [contradiction|]. rewrite append_cons. reflexivity. }
  fold S. rewrite Htr. cbv zeta. simpl negb. cbv iota.
  rewrite Hname, Hsub1.
  rewrite (sub_suffix_none ".spotify-connect._tcp.local" true b Hnl (fun _ => H2d) H2).
  rewrite (sub_suffix_none "_spotify-connect" false b Hnl
             (fun H => False_ind _ (diff_false_true H)) H3).
  rewrite (sub_suffix_none ".spotify-connect" false b Hnl
             (fun H => False_ind _ (diff_false_true H)) H4).
  rewrite Hs.
  assert (Hneq : String.eqb b (b +:+ S) = false).
  { apply String.eqb_neq. intros Heq. apply (f_equal String.length) in Heq.
    rewrite length_append in Heq.
    assert (0 < String.length S)%nat by (subst S; destruct dot; simpl; lia). lia. }
  rewrite Hneq.
  replace (PyStr.truthy b) with true by (destruct b; [contradiction | reflexivity]).
  replace (3 <=? String.length b)%nat with true by (symmetry; apply Nat.leb_le, Hlen).
  reflexivity.
Qed.

Lemma clean_removes_service_suffix_witness :
  _clean_technical_name_to_friendly
    ("Kitchen." +:+ "_spotify-connect._tcp.local" +:+ (if true then "." else ""))
  = Some "Kitchen.".
Proof.
  apply (clean_removes_service_suffix "Kitchen." true); try reflexivity.
  simpl. lia.
Defined.

(** ** Discovery *)

Lemma extract_friendly_name_nonempty (requests_get : string -> HttpResult)
    (discovery_result : DiscoveryResult) (n : string) :
  _extract_friendly_name requests_get discovery_result = Some n ->
  PyStr.truthy n = true.
Proof.
  unfold _extract_friendly_name.
  destruct (_get_friendly_name_from_device_info requests_get discovery_result)
    as [m|] eqn:Hdev.
  - destruct (getinfo_name_trimmed _ _ _ Hdev) as [Hm Hs]. rewrite Hs.
    destruct m as [|c m]; [contradiction|]. simpl. intros [= <-]. reflexivity.
  - destruct (first_txt_name _ _) as [m|] eqn:Htxt.
    + intros [= <-]. apply truthy_ne. eapply first_txt_name_nonempty, Htxt.
    + destruct (dr_instance_name discovery_result) as [i|]; [|discriminate].
      destruct (PyStr.truthy i) eqn:Hi; [|discriminate].
      destruct (_clean_technical_name_to_friendly i) as [c|] eqn:Hc.
      * destruct (clean_name_min_length _ _ Hc) as [Hlen _].
        destruct (PyStr.truthy c && negb (String.eqb c i)); intros [= <-];
          [|exact Hi]. destruct c; [simpl in Hlen; lia | reflexivity].
      * intros [= <-]. exact Hi.
Qed.

(** X28. A profile is created only for a device that was discovered
    with an IP address and a positive port and that has a name: every
    profile [discover_devices] builds has a name that is not empty, the
    address, port and instance name of one of the devices found, no cloud
    names yet and the configured default volume; devices without a
    complete address give no profile. *)
Theorem created_profiles_are_complete (requests_get : string -> HttpResult)
    (default_volume : Z) (discovered_devices : list DiscoveryResult) :
  Forall (fun profile =>
            dp_name profile <> ""
            /\ dp_spotify_device_names profile = []
            /\ dp_volume_preset profile = default_volume
            /\ exists device port,
                 In device discovered_devices
                 /\ _create_device_profile requests_get default_volume device
                    = Some profile
                 /\ _extract_friendly_name requests_get device
                    = Some (dp_name profile)
                 /\ dp_ip profile = dr_ip device
                 /\ truthy_opt (dp_ip profile) = true
                 /\ dp_port profile = Some port /\ 0 < port
                 /\ dp_instance_name profile = dr_instance_name device)
         (create_profiles requests_get default_volume discovered_devices)
  /\ (length (create_profiles requests_get default_volume discovered_devices)
      <= length discovered_devices)%nat
  /\ (Forall (fun device => is_complete device = false) discovered_devices ->
      create_profiles requests_get default_volume discovered_devices = []).
Proof.
  induction discovered_devices as [|d rest (IH1 & IH2 & IH3)]; simpl.
  { repeat split; auto. }
  assert (Hrest : Forall (fun profile =>
            dp_name profile <> ""
            /\ dp_spotify_device_names profile = []
            /\ dp_volume_preset profile = default_volume
            /\ exists device port,
                 In device (d :: rest)
                 /\ _create_device_profile requests_get default_volume device
                    = Some profile
                 /\ _extract_friendly_name requests_get device
                    = Some (dp_name profile)
                 /\ dp_ip profile = dr_ip device
                 /\ truthy_opt (dp_ip profile) = true
                 /\ dp_port profile = Some port /\ 0 < port
                 /\ dp_instance_name profile = dr_instance_name device)
         (create_profiles requests_get default_volume rest)).
  { eapply Forall_impl; [exact IH1|]. simpl.
    intros p (H1 & H2 & H3 & dev & port & Hin & H4). repeat split; auto.
    exists dev, port. split; [right; exact Hin | exact H4]. }
  destruct (_create_device_profile requests_get default_volume d) as [p|] eqn:Hp.
  - split; [|split].
    + constructor; [|exact Hrest].
      unfold _create_device_profile in Hp.
      destruct (is_complete d) eqn:Hc; simpl in Hp; [|discriminate].
      destruct (_extract_friendly_name requests_get d) as [n|] eqn:Hn; [|discriminate].
      pose proof (extract_friendly_name_nonempty _ _ _ Hn) as Ht.
      rewrite Ht in Hp. simpl in Hp. injection Hp as <-. simpl.
      split; [apply truthy_ne, Ht|]. split; [reflexivity|]. split; [reflexivity|].
      unfold is_complete in Hc. apply andb_true_iff in Hc as [Hip Hport].
      destruct (dr_port d) as [port|] eqn:Hdp; [|discriminate].
      exists d, port. apply Z.ltb_lt in Hport.
      split; [left; reflexivity|]. split.
      { unfold _create_device_profile, is_complete. rewrite Hip, Hdp.
        replace (0 <? port) with true by (symmetry; apply Z.ltb_lt; exact Hport).
        simpl. rewrite Hn, Ht. reflexivity. }
      repeat split; auto.
    + simpl. lia.
    + intros Hall. inversion Hall as [|? ? Hd Hr]; subst.
      unfold _create_device_profile in Hp. rewrite Hd in Hp. discriminate.
  - split; [exact Hrest|]. split; [lia|].
    intros Hall. inversion Hall; subst. auto.
Qed.

Lemma update_device_status_raises
    (check_device_health : DeviceProfile -> outcome HealthInfo) (current_time : Z)
    (device_profiles : list DeviceProfile)
    (status : list (string * DeviceStatus)) (e : exn)
    (status' : list (string * DeviceStatus)) :
  _update_device_status check_device_health current_time device_profiles status
  = (Raised e, status') ->
  exists profile, In profile device_profiles
                  /\ check_device_health profile = Raised e.
Proof.
  revert status. induction device_profiles as [|p rest IH]; intros status; simpl.
  - discriminate.
  - destruct (check_device_health p) as [hi|e'] eqn:Hh.
    + intros H. destruct (IH _ H) as (q & Hin & Hq). eauto.
    + intros [= -> _]. eauto.
Qed.

(** X29. A forced [discover_devices] whose mDNS browse succeeds
    stores the profiles it built in the cache, dated with the time of the
    call, and every call without [force_refresh] during the next 300 s
    returns exactly these profiles without looking at the network or
    changing the registry. This holds also when a health check raised: the
    forced call itself then returned the empty list, but the cache was
    already written, so the calls that follow do return the profiles. A
    browse that raises gives the empty list and leaves the registry as it
    was. *)
Theorem discover_devices_caches (requests_get requests_get' : string -> HttpResult)
    (check_device_health check_device_health' : DeviceProfile -> outcome HealthInfo)
    (default_volume default_volume' : Z)
    (discovered_devices : list DiscoveryResult)
    (later_discovery : outcome (list DiscoveryResult))
    (t status_time t' status_time' : Z) (self : Registry) :
  t <= t' < t + 300000 ->
  let device_profiles :=
    create_profiles requests_get default_volume discovered_devices in
  let '(result, self') :=
    discover_devices requests_get check_device_health default_volume
      (Returned discovered_devices) t status_time true self in
  (result = device_profiles
   \/ (result = []
       /\ exists profile e, In profile device_profiles
                            /\ check_device_health profile = Raised e))
  /\ discovery_cache self' = Some (device_profiles, t)
  /\ discover_devices requests_get' check_device_health' default_volume'
       later_discovery t' status_time' false self'
     = (device_profiles, self')
  /\ forall e,
       discover_devices requests_get check_device_health default_volume
         (Raised e) t status_time true self = ([], self).
Proof.
  intros Ht. cbv zeta. unfold discover_devices at 1. cbv zeta.
  destruct (_update_device_status check_device_health status_time
              (create_profiles requests_get default_volume discovered_devices)
              (device_status self)) as [[[]|e] status] eqn:Hup.
  - split; [left; reflexivity|]. split; [reflexivity|]. split; [|reflexivity].
    unfold discover_devices. simpl.
    replace (t' - t <? cache_ttl * 1000) with true
      by (symmetry; apply Z.ltb_lt; unfold cache_ttl; lia).
    reflexivity.
  - split.
    { right. split; [reflexivity|].
      destruct (update_device_status_raises _ _ _ _ _ _ Hup) as (p & Hin & Hp). eauto. }
    split; [reflexivity|]. split; [|reflexivity].
    unfold discover_devices. simpl.
    replace (t' - t <? cache_ttl * 1000) with true
      by (symmetry; apply Z.ltb_lt; unfold cache_ttl; lia).
    reflexivity.
Qed.

Lemma discover_devices_caches_witness :
  let device_profiles := create_profiles (getinfo_named " Den ") 35 [den_found] in
  let '(result, self') :=
    discover_devices (getinfo_named " Den ") health_check_fails 35
      (Returned [den_found]) 1000000 1000200 true new_registry in
  (result = device_profiles
   \/ (result = []
       /\ exists profile e, In profile device_profiles
                            /\ health_check_fails profile = Raised e))
  /\ discovery_cache self' = Some (device_profiles, 1000000)
  /\ discover_devices no_getinfo healthy 50
       (Raised {| exn_type := "OSError"; exn_msg := "no network" |})
       1299999 1300000 false self'
     = (device_profiles, self')
  /\ forall e,
       discover_devices (getinfo_named " Den ") health_check_fails 35
         (Raised e) 1000000 1000200 true new_registry = ([], new_registry).
Proof.
  apply (discover_devices_caches (getinfo_named " Den ") no_getinfo
           health_check_fails healthy 35 50 [den_found]
           (Raised {| exn_type := "OSError"; exn_msg := "no network" |})
           1000000 1000200 1299999 1300000 new_registry).
  lia.
Defined.

(** ** Device statuses *)

Lemma dict_get_set_eq {V} (k : string) (v : V) (d : list (string * V)) :
  dict_get k (dict_set k v d) = Some v.
Proof.
  induction d as [|[k0 v0] rest IH]; simpl.
  - rewrite String.eqb_refl. reflexivity.
  - destruct (String.eqb k0 k) eqn:He; simpl; rewrite He; [reflexivity | exact IH].
Qed.

Lemma dict_get_set_ne {V} (k k' : string) (v : V) (d : list (string * V)) :
  k <> k' -> dict_get k' (dict_set k v d) = dict_get k' d.
Proof.
  intros Hne. induction d as [|[k0 v0] rest IH]; simpl.
  - apply String.eqb_neq in Hne. rewrite Hne. reflexivity.
  - destruct (String.eqb k0 k) eqn:He; simpl.
    + apply String.eqb_eq in He. subst k0.
      apply String.eqb_neq in Hne. rewrite Hne. reflexivity.
    + destruct (String.eqb k0 k'); [reflexivity | exact IH].
Qed.

Lemma update_device_status_lookup
    (check_device_health : DeviceProfile -> outcome HealthInfo) (current_time : Z)
    (device_profiles : list DeviceProfile)
    (status status' : list (string * DeviceStatus)) (k : string) :
  _update_device_status check_device_health current_time device_profiles status
  = (Returned tt, status') ->
  (exists profile health_info st,
     In profile device_profiles /\ dp_name profile = k
     /\ check_device_health profile = Returned health_info
     /\ dict_get k status' = Some st
     /\ ds_name st = k /\ ds_last_seen st = current_time
     /\ ds_is_online st = hi_responding health_info
     /\ ds_ip st = dp_ip profile /\ ds_port st = dp_port profile)
  \/ ((forall profile, In profile device_profiles -> dp_name profile <> k)
      /\ dict_get k status' = dict_get k status).
Proof.
  revert status. induction device_profiles as [|p rest IH]; intros status; simpl.
  - intros [= <-]. right. split; [intros ? [] | reflexivity].
  - destruct (check_device_health p) as [hi|e] eqn:Hh; [|discriminate].
    intros Hup. destruct (IH _ Hup) as [(q & hq & st & Hin & Hk & Hq & Hrest) | [Hno Hget]].
    + left. exists q, hq, st. auto.
    + destruct (decide (dp_name p = k)) as [Hk|Hk].
      * left. rewrite Hk, dict_get_set_eq in Hget.
        eexists p, hi, _. split; [left; reflexivity|]. split; [exact Hk|].
        split; [exact Hh|]. split; [exact Hget|]. simpl. auto.
      * right. rewrite dict_get_set_ne in Hget by exact Hk. split; [|exact Hget].
        intros q [<- | Hin]; auto.
Qed.

(** X30. After [_update_device_status] has gone through, the status
    filed under the name of every profile it was given is dated with the
    time of the update and shows the address and the health of a profile of
    that name; the statuses under other names are what they were. No status
    is ever removed, so a device that is no longer discovered keeps its
    last status. *)
Theorem update_device_status_covers
    (check_device_health : DeviceProfile -> outcome HealthInfo) (current_time : Z)
    (device_profiles : list DeviceProfile)
    (status status' : list (string * DeviceStatus)) :
  _update_device_status check_device_health current_time device_profiles status
  = (Returned tt, status') ->
  (forall profile, In profile device_profiles ->
     exists st same_name health_info,
       registry_get_device_status (dp_name profile)
         {| device_status := status'; discovery_cache := None |} = Some st
       /\ ds_name st = dp_name profile /\ ds_last_seen st = current_time
       /\ In same_name device_profiles /\ dp_name same_name = dp_name profile
       /\ check_device_health same_name = Returned health_info
       /\ ds_is_online st = hi_responding health_info
       /\ ds_ip st = dp_ip same_name /\ ds_port st = dp_port same_name)
  /\ (forall k, (forall profile, In profile device_profiles -> dp_name profile <> k) ->
        dict_get k status' = dict_get k status)
  /\ (forall k, is_Some (dict_get k status) -> is_Some (dict_get k status')).
Proof.
  intros Hup. split; [|split].
  - intros p Hin.
    destruct (update_device_status_lookup _ _ _ _ _ (dp_name p) Hup)
      as [(q & hq & st & Hq & Hk & Hh & Hget & H1 & H2 & H3 & H4 & H5) | [Hno _]].
    + exists st, q, hq. unfold registry_get_device_status. simpl. auto 10.
    + exfalso. exact (Hno p Hin eq_refl).
  - intros k Hno.
    destruct (update_device_status_lookup _ _ _ _ _ k Hup)
      as [(q & hq & st & Hq & Hk & _) | [_ Hget]]; [|exact Hget].
    exfalso. exact (Hno q Hq Hk).
  - intros k Hsome.
    destruct (update_device_status_lookup _ _ _ _ _ k Hup)
      as [(q & hq & st & _ & _ & _ & Hget & _) | [_ Hget]].
    + rewrite Hget. eauto.
    + rewrite Hget. exact Hsome.
Qed.

Lemma update_device_status_covers_witness :
  let device_profiles := create_profiles (getinfo_named "Den") 35 [den_found] in
  let status' := snd (_update_device_status healthy 5000 device_profiles []) in
  (forall profile, In profile device_profiles ->
     exists st same_name health_info,
       registry_get_device_status (dp_name profile)
         {| device_status := status'; discovery_cache := None |} = Some st
       /\ ds_name st = dp_name profile /\ ds_last_seen st = 5000
       /\ In same_name device_profiles /\ dp_name same_name = dp_name profile
       /\ healthy same_name = Returned health_info
       /\ ds_is_online st = hi_responding health_info
       /\ ds_ip st = dp_ip same_name /\ ds_port st = dp_port same_name)
  /\ (forall k, (forall profile, In profile device_profiles -> dp_name profile <> k) ->
        dict_get k status' = dict_get k [])
  /\ (forall k, is_Some (dict_get k ([] : list (string * DeviceStatus))) ->
        is_Some (dict_get k status')).
Proof.
  apply (update_device_status_covers healthy 5000
           (create_profiles (getinfo_named "Den") 35 [den_found]) []
           (snd (_update_device_status healthy 5000
                   (create_profiles (getinfo_named "Den") 35 [den_found]) []))).
  reflexivity.
Defined.
